(** * next-rest-framework: OpenAPI synthesis, aggregation and caching

    A shallow embedding of [src/utils/open-api.ts]: route discovery and path
    normalisation ([generatePaths]), path synthesis
    ([getPathsFromMethodHandlers]) and the spec cache
    ([getOrCreateOpenApiSpec]), with the properties of the specification
    stated and settled against these definitions; then the directory walk
    ([getNestedApiRoutes]) and the documentation page
    ([getHTMLForSwaggerUI]), and further properties of all five. *)

From Stdlib Require Import String Ascii List ZArith Bool Lia Permutation.
From Stdlib Require Import DecimalString DecimalZ DecimalPos.
From Stdlib Require DecimalFacts DecimalNat.
Import ListNotations.
Open Scope string_scope.
Set Warnings "-register-all".

(** ** JavaScript string primitives used by the source *)

Module JsString.

(** [s.slice(n)] for [0 <= n]. *)
Fixpoint drop (n : nat) (s : string) : string :=
  match n, s with
  | O, _ => s
  | S _, EmptyString => EmptyString
  | S n', String _ s' => drop n' s'
  end.

(** [s.replace(pat, rep)] with a string pattern: only the first
    occurrence of [pat] is replaced (the replacement strings of the source
    hold no [$] pattern). *)
Fixpoint replace (pat rep s : string) : string :=
  if String.prefix pat s then rep ++ drop (String.length pat) s
  else match s with
       | EmptyString => EmptyString
       | String c s' => String c (replace pat rep s')
       end.

(** [s.replace(/c/g, d)] for a one-character pattern: every occurrence. *)
Fixpoint replaceAllChar (c d : ascii) (s : string) : string :=
  match s with
  | EmptyString => EmptyString
  | String x s' =>
      String (if Ascii.eqb x c then d else x) (replaceAllChar c d s')
  end.

(** [s.includes(pat)]. *)
Fixpoint includes (pat s : string) : bool :=
  String.prefix pat s
  || match s with
     | EmptyString => false
     | String _ s' => includes pat s'
     end.

(** [s.split(sep).at(-1)] for a one-character separator: the text after
    the last separator (the whole string when there is none). *)
Fixpoint lastSegmentAux (sep : ascii) (acc s : string) : string :=
  match s with
  | EmptyString => acc
  | String x s' =>
      if Ascii.eqb x sep then lastSegmentAux sep EmptyString s'
      else lastSegmentAux sep (acc ++ String x EmptyString) s'
  end.

Definition lastSegment (sep : ascii) (s : string) : string :=
  lastSegmentAux sep EmptyString s.

(** [String(n)] for an integral number. *)
Definition ofNumber (n : Z) : string := NilZero.string_of_int (Z.to_int n).

Definition backslash : ascii := Ascii.ascii_of_nat 92.
Definition slash : ascii := "/"%char.

End JsString.

(** ** Route discovery: filtering and path normalisation (lines 146-180) *)

Module Routes.
Import JsString.

(** The three optional path names of the configuration read by
    [generatePaths]; [None] is JavaScript's [undefined]. *)
Record PathConfig := mkPathConfig {
  openApiJsonPath : option string;
  openApiYamlPath : option string;
  swaggerUiPath : option string
}.

(** [`${p?.split('/').at(-1)}.ts`]: an undefined path prints as
    ["undefined"]. *)
Definition reservedFile (p : option string) : string :=
  match p with
  | Some s => lastSegment slash s ++ ".ts"
  | None => "undefined.ts"
  end.

Definition filterApiRoutes (cfg : PathConfig) (file : string) : bool :=
  let isCatchAllRoute := includes "..." file in
  let isOpenApiJsonRoute := String.eqb file (reservedFile (openApiJsonPath cfg)) in
  let isOpenApiYamlRoute := String.eqb file (reservedFile (openApiYamlPath cfg)) in
  let isSwaggerUiRoute := String.eqb file (reservedFile (swaggerUiPath cfg)) in
  if isCatchAllRoute || isOpenApiJsonRoute || isOpenApiYamlRoute || isSwaggerUiRoute
  then false else true.

(** The body of the [.map] of lines 173-180. *)
Definition routeOfFile (file : string) : string :=
  replace ".ts" ""
    (replace "]" "}"
       (replace "[" "{"
          (replace "/index" ""
             (replaceAllChar backslash slash ("/api/" ++ file))))).

(** [getNestedApiRoutes(basePath, '').filter(filterApiRoutes).map(...)],
    from the list of files the directory walk returned. *)
Definition apiRoutes (cfg : PathConfig) (files : list string) : list string :=
  map routeOfFile (filter (filterApiRoutes cfg) files).

End Routes.

(** ** JavaScript values, objects and the shared store *)

Module Js.
Import JsString.

(** The objects of the running process that are reached through more than
    one reference and written in place, and are held here as shared
    objects: the module-level [defaultResponse] object (lines 287-299)
    and the [paths] object of the configured [openApiSpecOverrides].  The
    array of tags of a handler is a third kind of such an object; it is
    held by its content (see [generatedOperationObject]). *)
Inductive loc := DefaultResponse | OverridePaths.

Definition loc_eqb (a b : loc) : bool :=
  match a, b with
  | DefaultResponse, DefaultResponse | OverridePaths, OverridePaths => true
  | _, _ => false
  end.

(** Plain JavaScript data.  An object is its list of own properties, a key
    occurring at most once, in the order in which they were created (that
    an engine enumerates index-like keys first is not modelled: every
    observation below is by key); an array is its list of elements.
    [JRef l] is a reference to the shared object [l]: two values holding
    [JRef l] hold the same object.  Numbers are the integral ones. *)
Inductive json :=
| JUndef
| JNull
| JBool (b : bool)
| JNum (n : Z)
| JStr (s : string)
| JArr (elems : list json)
| JObj (props : list (string * json))
| JRef (l : loc).

Definition props := list (string * json).

(** The contents of the shared objects; [st l] reads the object [l]. *)
Record store := mkStore {
  defaultResponseObject : json;
  overridePathsObject : json
}.

Definition read (st : store) (l : loc) : json :=
  match l with
  | DefaultResponse => defaultResponseObject st
  | OverridePaths => overridePathsObject st
  end.

Coercion read : store >-> Funclass.

Definition upd (st : store) (l : loc) (v : json) : store :=
  match l with
  | DefaultResponse => mkStore v (overridePathsObject st)
  | OverridePaths => mkStore (defaultResponseObject st) v
  end.

(** *** Property lists *)

Fixpoint get (k : string) (ps : props) : option json :=
  match ps with
  | [] => None
  | (k', v) :: ps' => if String.eqb k k' then Some v else get k ps'
  end.

Definition has (k : string) (ps : props) : bool :=
  match get k ps with Some _ => true | None => false end.

(** [o[k] = v]: an existing property keeps its place, a new one is added
    last. *)
Fixpoint set (k : string) (v : json) (ps : props) : props :=
  match ps with
  | [] => [(k, v)]
  | (k', v') :: ps' =>
      if String.eqb k k' then (k, v) :: ps' else (k', v') :: set k v ps'
  end.

Definition keys (ps : props) : list string := map fst ps.

(** [Object.assign(target, source)] on property lists, which is also what
    the spread [{...target, ...source}] builds. *)
Definition assignProps (target source : props) : props :=
  fold_left (fun acc kv => set (fst kv) (snd kv) acc) source target.

(** *** Array indices *)

(** [String(i)] for an array index. *)
Definition ofNat (i : nat) : string := NilZero.string_of_uint (Nat.to_uint i).

(** The index a property key denotes, when it is the canonical decimal
    form of one. *)
Definition indexOfKey (k : string) : option nat :=
  match NilZero.uint_of_string k with
  | Some u =>
      let i := Nat.of_uint u in
      if String.eqb (ofNat i) k then Some i else None
  | None => None
  end.

(** [a[i] = v] on an array, the elements before a new last index being
    holes, which read as [undefined]. *)
Fixpoint setNth (i : nat) (v : json) (es : list json) : list json :=
  match i, es with
  | O, [] => [v]
  | O, _ :: es' => v :: es'
  | S i', [] => JUndef :: setNth i' v []
  | S i', e :: es' => e :: setNth i' v es'
  end.

Fixpoint indexed (i : nat) (es : list json) : props :=
  match es with
  | [] => []
  | e :: es' => (ofNat i, e) :: indexed (S i) es'
  end.

Fixpoint chars (s : string) : list json :=
  match s with
  | EmptyString => []
  | String c s' => JStr (String c EmptyString) :: chars s'
  end.

(** The own enumerable properties a spread [...v] copies from a value
    that is not a shared object; [undefined], [null], numbers and
    booleans have none. *)
Definition ownProps (v : json) : props :=
  match v with
  | JObj ps => ps
  | JArr es => indexed 0 es
  | JStr s => indexed 0 (chars s)
  | _ => []
  end.

(** The value a reference-holding value denotes: every reference is
    replaced by the current content of the shared object (the shared
    objects themselves hold no references). *)
Fixpoint resolve (st : store) (v : json) : json :=
  match v with
  | JArr es => JArr (map (resolve st) es)
  | JObj ps => JObj (map (fun kv => (fst kv, resolve st (snd kv))) ps)
  | JRef l => st l
  | _ => v
  end.

(** [v[k]] for a value that is not a shared object. *)
Definition member (v : json) (k : string) : json :=
  match v with
  | JObj ps => match get k ps with Some x => x | None => JUndef end
  | _ => JUndef
  end.

(** [v.k1.k2...]: [undefined] as soon as a step is not an object with the
    property. *)
Fixpoint at_path (ks : list string) (v : json) : json :=
  match ks with
  | [] => v
  | k :: ks' =>
      match v with
      | JObj ps =>
          match get k ps with
          | Some v' => at_path ks' v'
          | None => JUndef
          end
      | _ => JUndef
      end
  end.

(** *** Kinds of values *)

Fixpoint uniqueKeys (ps : props) : bool :=
  match ps with
  | [] => true
  | (k, _) :: ps' => negb (has k ps') && uniqueKeys ps'
  end.

(** Data held by value: no reference to a shared object occurs in it. *)
Fixpoint plain (v : json) : bool :=
  match v with
  | JRef _ => false
  | JArr es => forallb plain es
  | JObj ps => forallb (fun kv => plain (snd kv)) ps
  | _ => true
  end.

(** A JSON document, as [JSON.parse] returns it: no [undefined], no
    reference, and the keys of an object all different. *)
Fixpoint isDocument (v : json) : bool :=
  match v with
  | JUndef | JRef _ => false
  | JArr es => forallb isDocument es
  | JObj ps => uniqueKeys ps && forallb (fun kv => isDocument (snd kv)) ps
  | _ => true
  end.

End Js.

(** ** The library functions the source calls on plain data *)

Module Lodash.
Import JsString Js.

(** *** [lodash.merge]

    [merge(object, source)] writes the properties of [source] into
    [object] and returns [object].  A source property that is a plain
    object or an array is merged recursively into the destination's value
    when that is an object, and the destination's value is then written
    in place, whoever else holds it; otherwise a fresh object or array
    receives the copy.  Any other source value is assigned, [undefined]
    only where the destination has no such key.  The source is never
    written.  The key [__proto__] is the one lodash treats apart:
    [safeGet] answers [undefined] for it on the source as on the
    destination, so a source value that is an object or an array is lost
    and nothing is assigned, and [undefined] is not assigned either, the
    key being in every object; any other value is given to the
    destination as a property of its own. *)

(** [object[key]], for an object or an array. *)
Definition safeGet (object : json) (key : string) : json :=
  match object with
  | JObj ps => match get key ps with Some v => v | None => JUndef end
  | JArr es =>
      match indexOfKey key with
      | Some i => nth i es JUndef
      | None => if String.eqb key "length" then JNum (Z.of_nat (List.length es)) else JUndef
      end
  | _ => JUndef
  end.

(** [key in object]. *)
Definition hasKey (object : json) (key : string) : bool :=
  match object with
  | JObj ps => has key ps
  | JArr es =>
      match indexOfKey key with
      | Some i => Nat.ltb i (List.length es)
      | None => String.eqb key "length"
      end
  | _ => false
  end.

(** [object[key] = value].  On an array an index key writes the element;
    any other key would become a named property of the array object,
    which neither [JSON.stringify] nor [isEqual] nor the source reads, and
    is not kept. *)
Definition baseAssignValue (object : json) (key : string) (value : json) : json :=
  match object with
  | JObj ps => JObj (set key value ps)
  | JArr es =>
      match indexOfKey key with
      | Some i => JArr (setNth i value es)
      | None => object
      end
  | _ => object
  end.

(** [isArrayLikeObject(value)] for a plain object: it has a numeric
    [length] that is a valid length; the result is that length. *)
Definition arrayLikeLength (value : json) : option nat :=
  match value with
  | JObj ps =>
      match get "length" ps with
      | Some (JNum n) => if (0 <=? n)%Z then Some (Z.to_nat n) else None
      | _ => None
      end
  | _ => None
  end.

(** [copyArray(value)] of an array-like object of length [n]. *)
Definition copyArray (value : json) (n : nat) : json :=
  JArr (map (fun i => safeGet value (ofNat i)) (seq 0 n)).

(** One step of [baseMerge]'s loop, for the source property [key] of
    value [srcValue]: [baseMergeDeep] when [srcValue] is an object or an
    array, [assignMergeValue] otherwise.  [rec st newValue] merges
    [srcValue] into [newValue]. *)
Definition mergeKey (rec : store -> json -> store * json)
    (srcValue : json) (key : string) (st : store) (object : json)
    : store * json :=
  if String.eqb key "__proto__" then
    match srcValue with
    | JObj _ | JArr _ | JUndef => (st, object)
    | _ => (st, baseAssignValue object key srcValue)
    end
  else
  let objValue := safeGet object key in
  let fresh (target : json) :=
    let '(st1, newValue) := rec st target in
    (st1, baseAssignValue object key newValue) in
  let inPlace :=
    match objValue with
    | JRef l =>
        let '(st1, content) := rec st (st l) in (upd st1 l content, object)
    | _ => fresh objValue
    end in
  match srcValue with
  | JObj _ =>
      match objValue with
      | JObj _ | JArr _ | JRef _ => inPlace
      | _ => fresh (JObj [])
      end
  | JArr _ =>
      let held := match objValue with JRef l => st l | _ => objValue end in
      match held with
      | JArr _ => inPlace
      | _ =>
          match arrayLikeLength held with
          | Some n => fresh (copyArray held n)
          | None => fresh (JArr [])
          end
      end
  | JUndef =>
      if hasKey object key then (st, object)
      else (st, baseAssignValue object key JUndef)
  | _ => (st, baseAssignValue object key srcValue)
  end.

(** [baseMerge(object, source)]: the loop over the source's keys, an
    array's being its indices. *)
Fixpoint baseMerge (source : json) (st : store) (object : json) {struct source}
    : store * json :=
  match source with
  | JObj sps =>
      (fix overProps (sps : props) (acc : store * json) : store * json :=
         match sps with
         | [] => acc
         | (key, srcValue) :: sps' =>
             overProps sps'
               (mergeKey (baseMerge srcValue) srcValue key (fst acc) (snd acc))
         end) sps (st, object)
  | JArr ses =>
      (fix overElems (ses : list json) (i : nat) (acc : store * json)
         : store * json :=
         match ses with
         | [] => acc
         | srcValue :: ses' =>
             overElems ses' (S i)
               (mergeKey (baseMerge srcValue) srcValue (ofNat i) (fst acc) (snd acc))
         end) ses 0%nat (st, object)
  | _ => (st, object)
  end.

(** [merge(object, source)] for an [object] argument that is an object,
    a reference to a shared one, or [undefined] ([Object(undefined)] is a
    fresh empty object), and a [source] that is an object or [undefined]
    (a falsy source is skipped).  The result is the destination. *)
Definition merge (st : store) (object : json) (source : json) : store * json :=
  let dest := match object with JUndef | JNull => JObj [] | _ => object end in
  match source with
  | JObj _ | JArr _ =>
      match dest with
      | JRef l =>
          let '(st1, content) := baseMerge source st (st l) in
          (upd st1 l content, dest)
      | _ => baseMerge source st dest
      end
  | _ => (st, dest)
  end.

(** *** [lodash.isequalwith] without a customizer: [isEqual]

    Deep comparison: primitives by identity, arrays element by element in
    order, objects by their key sets and the values under each key,
    whatever the order of the keys. *)
Fixpoint isEqual (value other : json) {struct value} : bool :=
  match value, other with
  | JUndef, JUndef => true
  | JNull, JNull => true
  | JBool a, JBool b => Bool.eqb a b
  | JNum a, JNum b => Z.eqb a b
  | JStr a, JStr b => String.eqb a b
  | JArr xs, JArr ys =>
      (fix equalArrays (xs ys : list json) : bool :=
         match xs, ys with
         | [], [] => true
         | x :: xs', y :: ys' => isEqual x y && equalArrays xs' ys'
         | _, _ => false
         end) xs ys
  | JObj ps, JObj qs =>
      Nat.eqb (List.length ps) (List.length qs)
      && (fix equalObjects (ps : props) : bool :=
            match ps with
            | [] => true
            | (key, objValue) :: ps' =>
                match get key qs with
                | Some othValue => isEqual objValue othValue && equalObjects ps'
                | None => false
                end
            end) ps
  | JRef a, JRef b => loc_eqb a b
  | _, _ => false
  end.

End Lodash.

(** ** [JSON.stringify] and [JSON.parse] *)

Module Json.
Import Js.

(** The document [JSON.parse(JSON.stringify(v))] for an object or array
    [v]: a property whose value is [undefined] is left out, and an
    [undefined] array element is [null]. *)
Fixpoint roundTrip (v : json) : json :=
  match v with
  | JArr es =>
      JArr (map (fun e => match e with
                          | JUndef => JNull
                          | _ => roundTrip e
                          end) es)
  | JObj ps =>
      JObj ((fix overProps (ps : props) : props :=
               match ps with
               | [] => []
               | (k, JUndef) :: ps' => overProps ps'
               | (k, e) :: ps' => (k, roundTrip e) :: overProps ps'
               end) ps)
  | _ => v
  end.

(** The text of a file, up to what [JSON.parse] makes of it: text it
    rejects, or text it parses to [doc]. *)
Inductive text :=
| Unparsable
| Document (doc : json).

(** [JSON.stringify(v, null, 2) + '\n'] for an object [v] holding no
    reference. *)
Definition stringify (v : json) : text := Document (roundTrip v).

Definition parse (t : text) : option json :=
  match t with
  | Unparsable => None
  | Document doc => Some doc
  end.

End Json.

(** ** What the source imports from the rest of the repository *)

(** [getJsonSchema] and [getSchemaKeys] of [./schemas] (a schema of the
    validation library in, its JSON Schema or its keys out), and the
    constants of [../constants]. *)
Class Deps := {
  Schema : Type;
  getJsonSchema : Schema -> Js.json;
  getSchemaKeys : Schema -> list string;
  unexpectedError : string;
  ValidMethod : list string;
  OPEN_API_VERSION : string
}.

(** ** Path synthesis: [getPathsFromMethodHandlers] (lines 287-397) *)

Module MethodHandler.
Section Types.
Context `{Deps}.

Record OutputEntry := mkOutput {
  status : Z;
  contentType : string;
  schema : Schema
}.

Record Input := mkInput {
  inputContentType : option string;
  body : option Schema;
  query : option Schema
}.

(** One method's declaration; [None] is an absent property. *)
Record t := mk {
  openApiSpecOverrides : option Js.props;
  tags : option (list string);
  input : option Input;
  output : option (list OutputEntry)
}.
End Types.
End MethodHandler.

Module DefineEndpointsParams.
Section Types.
Context `{Deps}.

(** The bundle of a route: its own overrides and, in the order of
    [Object.keys], its other properties, each holding a method
    handler. *)
Record t := mk {
  openApiSpecOverrides : option Js.props;
  handlers : list (string * MethodHandler.t)
}.
End Types.
End DefineEndpointsParams.

Module Synthesis.
Import JsString Js Lodash.

Section WithDeps.
Context `{Deps}.

(** The module-level object of lines 287-299, as first built. *)
Definition defaultResponse : json :=
  JObj [("description", JStr unexpectedError);
        ("content",
         JObj [("application/json",
                JObj [("schema",
                       JObj [("type", JStr "object");
                             ("properties",
                              JObj [("message",
                                     JObj [("type", JStr "string")])])])])])].

(** The store of a process that has just loaded the module, the
    configured [paths] overrides being [overridePaths]. *)
Definition initialStore (overridePaths : json) : store :=
  mkStore defaultResponse overridePaths.

Definition isValidMethod (x : string) : bool :=
  existsb (String.eqb x) ValidMethod.

Definition lowerChar (c : ascii) : ascii :=
  let n := nat_of_ascii c in
  if Nat.leb 65 n && Nat.leb n 90 then ascii_of_nat (n + 32) else c.

Fixpoint toLowerCase (s : string) : string :=
  match s with
  | EmptyString => EmptyString
  | String c s' => String (lowerChar c) (toLowerCase s')
  end.

Definition ofOption (o : option props) : json :=
  match o with Some ps => JObj ps | None => JUndef end.

(** Lines 329-339. *)
Definition requestBodyContent (input : option MethodHandler.Input) : props :=
  match input with
  | Some i =>
      match MethodHandler.body i, MethodHandler.inputContentType i with
      | Some body, Some contentType =>
          if String.eqb contentType "" then []
          else [(contentType, JObj [("schema", getJsonSchema body)])]
      | _, _ => []
      end
  | None => []
  end.

(** The reducer of lines 342-354: [Object.assign] of a one-key object. *)
Definition addResponse (obj : props) (e : MethodHandler.OutputEntry) : props :=
  let responseSchema := getJsonSchema (MethodHandler.schema e) in
  assignProps obj
    [(ofNumber (MethodHandler.status e),
      JObj [("content",
             JObj [(MethodHandler.contentType e,
                    JObj [("schema", responseSchema)])])])].

(** Lines 341-356; [None] when there is no [output]. *)
Definition generatedResponses (output : option (list MethodHandler.OutputEntry))
    : option props :=
  option_map (fun entries => fold_left addResponse entries []) output.

(** [route.match(/{([^}]+)}/g)]: the matched texts, scanning from the
    left; [inside] holds the text read since an opening brace. *)
Fixpoint scanParameters (inside : option string) (s : string) : list string :=
  match s with
  | EmptyString => []
  | String c s' =>
      match inside with
      | None =>
          if Ascii.eqb c "{" then scanParameters (Some "") s'
          else scanParameters None s'
      | Some text =>
          if Ascii.eqb c "}" then
            if String.eqb text "" then scanParameters None s'
            else ("{" ++ text ++ "}") :: scanParameters None s'
          else scanParameters (Some (text ++ String c "")) s'
      end
  end.

(** [param.replace(/[{}]/g, '')]. *)
Fixpoint stripBraces (s : string) : string :=
  match s with
  | EmptyString => EmptyString
  | String c s' =>
      if Ascii.eqb c "{" || Ascii.eqb c "}" then stripBraces s'
      else String c (stripBraces s')
  end.

Definition pathParameter (param : string) : json :=
  JObj [("name", JStr (stripBraces param)); ("in", JStr "path");
        ("required", JBool true)].

Definition queryParameter (key : string) : json :=
  JObj [("name", JStr key); ("in", JStr "query")].

(** [generatedOperationObject] as it stands at line 389, before the
    handler's overrides are merged in.  Its [responses.default] is the
    module-level object itself, not a copy.  Its [tags] (line 359) is the
    handler's own array, which the merge of line 392 writes in place
    when the overrides give [tags] an object or an array; the array is
    held here by its content on entry, so that the operation of this
    handler is what the source returns as long as no other handler of the
    call has such an override, and the write into the handler's array is
    not kept for a later call. *)
Definition generatedOperationObject (h : MethodHandler.t) (route : string) : json :=
  let requestBody := JObj [("content", JObj (requestBodyContent (MethodHandler.input h)))] in
  let responses :=
    set "default" (JRef DefaultResponse)
      (assignProps [] (match generatedResponses (MethodHandler.output h) with
                       | Some ps => ps
                       | None => []
                       end)) in
  let operation :=
    [("tags", match MethodHandler.tags h with
              | Some ts => JArr (map JStr ts)
              | None => JUndef
              end);
     ("requestBody", requestBody);
     ("responses", JObj responses)] in
  let pathParameters := scanParameters None route in
  let operation :=
    match pathParameters with
    | [] => operation
    | _ => set "parameters" (JArr (map pathParameter pathParameters)) operation
    end in
  let operation :=
    match MethodHandler.input h with
    | Some i =>
        match MethodHandler.query i with
        | Some q =>
            let existing :=
              match get "parameters" operation with
              | Some (JArr ps) => ps
              | _ => []
              end in
            set "parameters"
              (JArr (existing ++ map queryParameter (getSchemaKeys q)))
              operation
        | None => operation
        end
    | None => operation
    end in
  JObj operation.

(** One turn of the [forEach] of lines 322-394, on the value of
    [paths[route]]. *)
Definition addMethod (route : string) (acc : store * props)
    (entry : string * MethodHandler.t) : store * props :=
  let '(_method, h) := entry in
  let method := toLowerCase _method in
  let '(st1, merged) :=
    merge (fst acc) (generatedOperationObject h route)
      (ofOption (MethodHandler.openApiSpecOverrides h)) in
  (st1, set method merged (assignProps [] (snd acc))).

(** [getPathsFromMethodHandlers({ config, methodHandlers, route })];
    the function does not read [config].  The result is the new content
    of the store and the returned [paths].  The assignment
    [paths[route] = ...] creates the property [route], except for the
    name [__proto__], where it sets the prototype of [paths] and leaves
    [paths] without own property (reading [paths[route]] back yields
    the assigned object in both cases). *)
Definition getPathsFromMethodHandlers (st : store)
    (methodHandlers : DefineEndpointsParams.t) (route : string)
    : store * json :=
  let pathItem0 :=
    assignProps []
      (ownProps (ofOption (DefineEndpointsParams.openApiSpecOverrides methodHandlers))) in
  let '(st1, pathItem) :=
    fold_left (addMethod route)
      (filter (fun entry => isValidMethod (fst entry))
         (DefineEndpointsParams.handlers methodHandlers))
      (st, pathItem0) in
  (st1, if String.eqb route "__proto__" then JObj []
        else JObj [(route, JObj pathItem)]).

End WithDeps.
End Synthesis.

(** ** Spec aggregation: [generatePaths] (lines 139-228) *)

Module Aggregation.
Import JsString Js Lodash Routes.

(** The two request headers the source reads. *)
Record Headers := mkHeaders {
  xForwardedProto : option string;
  host : option string
}.

(** How the probe of one route ends.  [fetch] rejects: the connection
    fails, or the 200ms timer aborts the request before a response has
    arrived.  Or a response arrives in time, with a status; line 204 then
    clears the timer, and the body is read with nothing left to abort the
    request: [res.json()] parses it ([Some]), rejects it ([None]), or never
    settles, the body never coming to its end ([Stalled]). *)
Inductive ProbeOutcome :=
| NetworkError
| Timeout
| Responded (status : Z) (body : option json)
| Stalled (status : Z).

(** Whether the callback of line 185 comes to its end for a probe. *)
Definition completes (outcome : ProbeOutcome) : bool :=
  match outcome with
  | Stalled _ => false
  | _ => true
  end.

(** The network of one aggregation pass: the outcome of the probe of each
    URL, and the time at which the probe of a URL settles when it does. *)
Record Network := mkNetwork {
  fetch : string -> ProbeOutcome;
  settleTime : string -> nat
}.

(** The order in which concurrent probes settle: by their times, and in
    the order in which they were started when the times are the same. *)
Fixpoint settlesBefore (time : string -> nat) (url : string) (urls : list string)
    : list string :=
  match urls with
  | [] => [url]
  | u :: urls' =>
      if Nat.leb (time url) (time u) then url :: u :: urls'
      else u :: settlesBefore time url urls'
  end.

Definition settle (net : Network) (urls : list string) : list string :=
  fold_right (settlesBefore (settleTime net)) [] urls.

(** [`${proto}://${host}${route}`], lines 186-188. *)
Definition probeUrl (headers : Headers) (route : string) : string :=
  let proto := match xForwardedProto headers with Some p => p | None => "http" end in
  let host := match host headers with Some h => h | None => "undefined" end in
  proto ++ "://" ++ host ++ route.

(** Lines 210-216. *)
Definition isPathItemObject (obj : json) : bool :=
  match obj with
  | JObj ps => has "nextRestFrameworkPaths" ps
  | _ => false
  end.

(** The body of the [try] of lines 196-223 once the probe has settled:
    the new value of [paths]. *)
Definition absorb (paths : props) (outcome : ProbeOutcome) : props :=
  match outcome with
  | Responded status (Some data) =>
      if (status =? 200)%Z && isPathItemObject data
      then assignProps (assignProps [] paths)
             (ownProps (member data "nextRestFrameworkPaths"))
      else paths
  | _ => paths
  end.

(** Whether a probe makes it past the test of line 218. *)
Definition reports (outcome : ProbeOutcome) : bool :=
  match outcome with
  | Responded status (Some data) => (status =? 200)%Z && isPathItemObject data
  | _ => false
  end.

(** [generatePaths] from the files the directory walk returns: the URLs
    probed, in the order of the routes, and the [paths] returned.
    [Promise.all] (line 184) resolves when every callback has come to its
    end, and [paths] is then what the probes have left in the order in
    which they settled; with a probe that never settles the [await] never
    resumes and the function never returns: [None]. *)
Definition probedUrls (cfg : PathConfig) (headers : Headers) (files : list string)
    : list string :=
  map (probeUrl headers) (apiRoutes cfg files).

Definition generatePaths (cfg : PathConfig) (headers : Headers)
    (files : list string) (net : Network) : option props :=
  let urls := probedUrls cfg headers files in
  if forallb (fun url => completes (fetch net url)) urls
  then Some (fold_left absorb (map (fetch net) (settle net urls)) [])
  else None.

End Aggregation.

(** ** Spec cache: [getOrCreateOpenApiSpec] (lines 230-285) *)

Module Cache.
Import JsString Js Lodash Routes Aggregation.

Record Config := mkConfig {
  pathNames : PathConfig;
  (** [config.openApiSpecOverrides]; its [paths] object, when it has one,
      is the shared object [OverridePaths] and is held here as
      [JRef OverridePaths]. *)
  openApiSpecOverrides : option props
}.

(** The process-wide state and the file system, as far as the source
    reads and writes them. *)
Record World := mkWorld {
  file : option Json.text;         (* openapi.json, when it exists *)
  writable : bool;                 (* whether writeFileSync succeeds *)
  openApiSpec : json;              (* global.openApiSpec *)
  apiSpecGeneratedLogged : bool;   (* global.apiSpecGeneratedLogged *)
  heap : store
}.

(** What one call is given by its surroundings: [NODE_ENV], the listing
    of the routes directory ([None]: [readdirSync] throws) and the
    network. *)
Record Env := mkEnv {
  production : bool;
  files : option (list string);
  net : Network
}.

Inductive Event :=
| ReadSpecFile
| ReadRoutesDir
| Probe (url : string)
| WriteSpecFile (content : Json.text)
| Info (message : string).

(** The result of one call: the state left behind, what the call did, and
    the value returned ([None] when the call throws, or never returns). *)
Record Outcome := mkOutcome {
  world : World;
  trace : list Event;
  returned : option json
}.

Definition noSpecFound := "No API spec found, generating openapi.json".
Definition specChanged := "API spec changed, regenerating openapi.json".
Definition specGenerated := "API spec generated successfully!".
Definition specUpToDate := "API spec up to date, skipping generation.".

Section WithDeps.
Context `{Deps}.

(** Lines 238-244. *)
Definition readSpecFile (w : World) : bool * World :=
  match file w with
  | Some t =>
      match Json.parse t with
      | Some doc =>
          (true, mkWorld (file w) (writable w) doc (apiSpecGeneratedLogged w) (heap w))
      | None => (false, w)
      end
  | None => (false, w)
  end.

(** Lines 249-253: the new content of the store and [newSpec]. *)
Definition newSpecOf (cfg : Config) (st : store) (paths : props) : store * json :=
  let overrides := match openApiSpecOverrides cfg with Some ps => ps | None => [] end in
  let overridePaths :=
    match openApiSpecOverrides cfg with
    | Some ps => member (JObj ps) "paths"
    | None => JUndef
    end in
  let '(st1, merged) := merge st overridePaths (JObj paths) in
  (st1,
   JObj (set "paths" merged
           (set "openapi" (JStr OPEN_API_VERSION) (assignProps [] overrides)))).

Definition getOrCreateOpenApiSpec (cfg : Config) (headers : Headers)
    (env : Env) (w : World) : Outcome :=
  let '(specFileFound, w1) := readSpecFile w in
  if production env then
    mkOutcome w1 [ReadSpecFile] (Some (openApiSpec w1))
  else
    match files env with
    | None => mkOutcome w1 [ReadSpecFile; ReadRoutesDir] None
    | Some listing =>
        let probes :=
          ReadSpecFile :: ReadRoutesDir
          :: map Probe (probedUrls (pathNames cfg) headers listing) in
        match generatePaths (pathNames cfg) headers listing (net env) with
        | None =>
            (* the await of line 247 never resumes *)
            mkOutcome w1 probes None
        | Some paths =>
            let '(heap1, newSpec) := newSpecOf cfg (heap w1) paths in
            if negb (isEqual (resolve heap1 (openApiSpec w1)) (resolve heap1 newSpec)) then
              let notice := Info (if specFileFound then specChanged else noSpecFound) in
              let content := Json.stringify (resolve heap1 newSpec) in
              if writable w1 then
                mkOutcome
                  (mkWorld (Some content) (writable w1) newSpec true heap1)
                  (probes ++ [notice; WriteSpecFile content]
                     ++ (if apiSpecGeneratedLogged w1 then [] else [Info specGenerated]))
                  (Some newSpec)
              else
                mkOutcome
                  (mkWorld (file w1) (writable w1) (openApiSpec w1)
                     (apiSpecGeneratedLogged w1) heap1)
                  (probes ++ [notice])
                  None
            else
              mkOutcome
                (mkWorld (file w1) (writable w1) (openApiSpec w1) true heap1)
                (probes ++ (if apiSpecGeneratedLogged w1 then [] else [Info specUpToDate]))
                (Some (openApiSpec w1))
        end
    end.

End WithDeps.
End Cache.

(** ** Notions used in reasoning about [merge] *)

Module MergeNotions.
Import JsString Js Lodash.

(** The loop of [baseMerge] over a list of source properties. *)
Definition mergeSteps (sps : props) (acc : store * json) : store * json :=
  fold_left
    (fun acc kv =>
       mergeKey (baseMerge (snd kv)) (snd kv) (fst kv) (fst acc) (snd acc))
    sps acc.




(** The value [baseMergeDeep] or [assignMergeValue] assigns for a source
    value that is a document, the destination holding [objValue] by
    value. *)
Definition newValue (st : store) (srcValue objValue : json) : json :=
  match srcValue with
  | JObj _ =>
      snd (baseMerge srcValue st
             (match objValue with
              | JObj _ | JArr _ => objValue
              | _ => JObj []
              end))
  | JArr _ =>
      snd (baseMerge srcValue st
             (match objValue with
              | JArr _ => objValue
              | _ =>
                  match arrayLikeLength objValue with
                  | Some n => copyArray objValue n
                  | None => JArr []
                  end
              end))
  | _ => srcValue
  end.






End MergeNotions.

(** ** Notions used to state the properties *)

Module Statements.
Import JsString Js Lodash Synthesis.

Section WithDeps.
Context `{Deps}.

(** The last entry of an output list that declares status [s]. *)
Fixpoint lastWithStatus (s : Z) (entries : list MethodHandler.OutputEntry)
    : option MethodHandler.OutputEntry :=
  match entries with
  | [] => None
  | e :: entries' =>
      match lastWithStatus s entries' with
      | Some e' => Some e'
      | None => if (MethodHandler.status e =? s)%Z then Some e else None
      end
  end.

(** The response object lines 346-352 build for one output entry. *)
Definition responseOf (e : MethodHandler.OutputEntry) : json :=
  JObj [("content",
         JObj [(MethodHandler.contentType e,
                JObj [("schema", getJsonSchema (MethodHandler.schema e))])])].

End WithDeps.

Import Aggregation Cache.

(** The ways a probe fails to report and comes to its end: a status
    other than 200, a body that is not JSON, a body without the
    [nextRestFrameworkPaths] field, the abort of the request by the 200ms
    timer, a network error. *)
Inductive ProbeFailure : ProbeOutcome -> Prop :=
| OtherStatus (status : Z) (body : option json) :
    status <> 200%Z -> ProbeFailure (Responded status body)
| MalformedBody (status : Z) : ProbeFailure (Responded status None)
| MissingField (status : Z) (data : json) :
    isPathItemObject data = false -> ProbeFailure (Responded status (Some data))
| TimedOut : ProbeFailure Timeout
| Unreachable : ProbeFailure NetworkError.

Section WithDeps.
Context `{Deps}.

(** The test of line 255 in a development-mode call that finds the
    routes [listing]: whether the call comes to the test and finds the
    cached document different from the new one.  The test follows the
    merge of line 252: both documents are taken as the merge has left the
    shared objects. *)
Definition specDiffers (cfg : Config) (headers : Headers)
    (listing : list string) (net : Network) (w : World) : bool :=
  let w1 := snd (readSpecFile w) in
  match generatePaths (pathNames cfg) headers listing net with
  | Some paths =>
      let '(heap1, newSpec) := newSpecOf cfg (heap w1) paths in
      negb (isEqual (resolve heap1 (openApiSpec w1)) (resolve heap1 newSpec))
  | None => false
  end.

(** The document [newSpec] denotes in that call; [undefined] when the
    call does not come to build it. *)
Definition newDocument (cfg : Config) (headers : Headers)
    (listing : list string) (net : Network) (w : World) : json :=
  let w1 := snd (readSpecFile w) in
  match generatePaths (pathNames cfg) headers listing net with
  | Some paths =>
      let '(heap1, newSpec) := newSpecOf cfg (heap w1) paths in
      resolve heap1 newSpec
  | None => JUndef
  end.

End WithDeps.


(** [b] is [a] but for the order in which objects list their properties:
    in an array the elements correspond one by one, and an object has the
    properties of the other in some order. *)
Inductive reordered : json -> json -> Prop :=
| reordered_same (v : json) : reordered v v
| reordered_array (xs ys : list json) :
    Forall2 reordered xs ys -> reordered (JArr xs) (JArr ys)
| reordered_object (ps qs rs : props) :
    Forall2 (fun p q => fst p = fst q /\ reordered (snd p) (snd q)) ps qs ->
    Permutation qs rs ->
    reordered (JObj ps) (JObj rs).


(** The shared objects hold data by value. *)
Definition storeIsData (st : store) : Prop := forall l, plain (st l) = true.

(** The spec file can be parsed. *)
Definition specFileFound (w : World) : Prop :=
  exists doc, file w = Some (Json.Document doc).


Definition wrote (t : list Event) : Prop :=
  exists content, In (WriteSpecFile content) t.


End Statements.

(** ** Sample inputs for the worked examples *)

Module Sample.
Import JsString Js Lodash Routes Aggregation Cache.

(** Collaborators for the examples: a schema is given by its JSON Schema,
    whose keys are those of its [properties]. *)
Definition deps : Deps := {|
  Schema := json;
  getJsonSchema := fun s => s;
  getSchemaKeys :=
    fun s => match member s "properties" with JObj ps => keys ps | _ => [] end;
  unexpectedError := "An unknown error occurred, trying again might help.";
  ValidMethod := ["GET"; "PUT"; "POST"; "DELETE"; "OPTIONS"; "HEAD"; "PATCH"];
  OPEN_API_VERSION := "3.0.1"
|}.

#[local] Existing Instance deps.

Definition stringSchema : json := JObj [("type", JStr "string")].

Definition store0 : store := @Synthesis.initialStore deps JUndef.

(** A handler declaring nothing. *)
Definition bare : @MethodHandler.t deps := MethodHandler.mk None None None None.

Definition jsonOutput : @MethodHandler.OutputEntry deps :=
  MethodHandler.mkOutput 200 "application/json" stringSchema.

Definition textOutput : @MethodHandler.OutputEntry deps :=
  MethodHandler.mkOutput 200 "text/plain" stringSchema.

(** A handler with two outputs of status 200, JSON then plain text. *)
Definition twoContentTypes : @MethodHandler.t deps :=
  MethodHandler.mk None None None (Some [jsonOutput; textOutput]).

(** A handler whose overrides describe the [default] response. *)
Definition describesDefault : @MethodHandler.t deps :=
  MethodHandler.mk
    (Some [("responses",
            JObj [("default", JObj [("description", JStr "Not found")])])])
    None None None.

Definition getOnly (h : @MethodHandler.t deps) : @DefineEndpointsParams.t deps :=
  DefineEndpointsParams.mk None [("GET", h)].

Definition getThenPost (g p : @MethodHandler.t deps) : @DefineEndpointsParams.t deps :=
  DefineEndpointsParams.mk None [("GET", g); ("POST", p)].

(** *** A deployment with one route *)

Definition config (overrides : option props) : Config :=
  mkConfig
    (mkPathConfig (Some "/api/openapi.json") (Some "/api/openapi.yaml")
       (Some "/api"))
    overrides.

Definition headers : Headers := mkHeaders None (Some "localhost:3000").

Definition todosOperation : json :=
  JObj [("tags", JArr [JStr "todos"; JStr "public"]);
        ("requestBody", JObj [("content", JObj [])]);
        ("responses", JObj [("default", JObj [("description", JStr "Error")])])].

Definition todosFragment : json :=
  JObj [("/api/todos", JObj [("get", todosOperation)])].

(** The route [/api/todos] reports its fragment; nothing else answers. *)
Definition network : Network :=
  mkNetwork
    (fun url =>
       if String.eqb url "http://localhost:3000/api/todos"
       then Responded 200 (Some (JObj [("nextRestFrameworkPaths", todosFragment)]))
       else NetworkError)
    (fun _ => 0%nat).

Definition listing : list string := ["todos.ts"; "openapi.json.ts"; "[...all].ts"].

Definition development : Env := mkEnv false (Some listing) network.
Definition inProduction : Env := mkEnv true (Some listing) network.

(** A process that has just started, beside the spec file [f]. *)
Definition started (f : option Json.text) (overridePaths : json) : World :=
  mkWorld f true JUndef false (@Synthesis.initialStore deps overridePaths).

Definition withFile (f : option Json.text) (w : World) : World :=
  mkWorld f (writable w) (openApiSpec w) (apiSpecGeneratedLogged w) (heap w).

Definition documentA : json :=
  JObj [("openapi", JStr "3.0.1"); ("paths", JObj [])].

Definition documentB : json :=
  JObj [("openapi", JStr "3.0.1"); ("paths", todosFragment)].


(** *** A deployment whose routes fail in every way *)

Definition usersFragment : json :=
  JObj [("/api/users", JObj [("get", JObj [("responses", JObj [])])])].

Definition report (fragment : json) : json :=
  JObj [("nextRestFrameworkPaths", fragment)].

Definition busyListing : list string :=
  ["todos.ts"; "down.ts"; "slow.ts"; "broken.ts"; "page.ts"; "legacy.ts";
   "users.ts"].

(** [/api/todos] and [/api/users] report; [/api/down] cannot be reached,
    [/api/slow] sends nothing within 200ms, [/api/broken] answers 500 with
    a report in its body, [/api/page] answers 200 with a body that is not
    JSON, [/api/legacy] answers 200 with JSON of another kind. *)
Definition busyFetch (url : string) : ProbeOutcome :=
  if String.eqb url "http://localhost:3000/api/todos"
  then Responded 200 (Some (report todosFragment))
  else if String.eqb url "http://localhost:3000/api/users"
  then Responded 200 (Some (report usersFragment))
  else if String.eqb url "http://localhost:3000/api/slow" then Timeout
  else if String.eqb url "http://localhost:3000/api/broken"
  then Responded 500 (Some (report (JObj [("/api/broken", JObj [])])))
  else if String.eqb url "http://localhost:3000/api/page" then Responded 200 None
  else if String.eqb url "http://localhost:3000/api/legacy"
  then Responded 200 (Some (JObj [("message", JStr "ok")]))
  else NetworkError.

(** [/api/users] settles first and [/api/todos] last. *)
Definition busyTimes (url : string) : nat :=
  if String.eqb url "http://localhost:3000/api/todos" then 150%nat
  else if String.eqb url "http://localhost:3000/api/users" then 20%nat
  else if String.eqb url "http://localhost:3000/api/slow" then 200%nat
  else 40%nat.

Definition busyNetwork : Network := mkNetwork busyFetch busyTimes.

(** The same deployment, but [/api/broken] sends the status line and the
    headers of its answer 500 at once and never ends the body. *)
Definition stalledNetwork : Network :=
  mkNetwork
    (fun url =>
       if String.eqb url "http://localhost:3000/api/broken" then Stalled 500
       else busyFetch url)
    busyTimes.

Definition busy : Env := mkEnv false (Some busyListing) busyNetwork.
Definition stalled : Env := mkEnv false (Some busyListing) stalledNetwork.


(** Overrides whose [paths] object is the shared one. *)
Definition overridesWithPaths : props :=
  [("info", JObj [("title", JStr "Todos")]); ("paths", JRef OverridePaths)].

End Sample.

(** ** The directory walk: [getNestedApiRoutes] (lines 127-136) *)

Module Walk.
Import JsString.

(** What [readdirSync(join(basePath, dir), { withFileTypes: true })] gives
    for a directory: it throws ([Unreadable]) or returns the entries, in
    the order of the listing.  An entry is a directory, with what reading
    it gives in turn, or anything else ([isDirectory()] is false). *)
Inductive Dir :=
| Unreadable
| Entries (dirents : list Dirent)
with Dirent :=
| File (name : string)
| Directory (name : string) (content : Dir).

Definition direntName (dirent : Dirent) : string :=
  match dirent with
  | File name => name
  | Directory name _ => name
  end.

(** [join(dir, name)] of [path], for a [dir] that is empty or was joined
    already and the name of a directory entry (not empty, without
    separator, neither [.] nor [..]): an empty [dir] is skipped, and there
    is nothing to normalise.  [sep] is the separator of the platform. *)
Definition join (sep : ascii) (dir name : string) : string :=
  if String.eqb dir "" then name else dir ++ String sep name.

(** [files.flat()]; a walk that threw has no value. *)
Fixpoint flat (files : list (option (list string))) : option (list string) :=
  match files with
  | [] => Some []
  | None :: _ => None
  | Some paths :: files' =>
      match flat files' with
      | Some rest => Some (paths ++ rest)%list
      | None => None
      end
  end.

(** [getNestedApiRoutes(basePath, dir)], [content] being what is found at
    [join(basePath, dir)]; [None] when a [readdirSync] throws. *)
Fixpoint getNestedApiRoutes (sep : ascii) (dir : string) (content : Dir)
    : option (list string) :=
  match content with
  | Unreadable => None
  | Entries dirents =>
      let files :=
        map (fun dirent =>
               let res := join sep dir (direntName dirent) in
               match dirent with
               | Directory _ sub => getNestedApiRoutes sep res sub
               | File _ => Some [res]
               end) dirents in
      flat files
  end.

End Walk.

(** ** The documentation page: [getHTMLForSwaggerUI] (lines 23-125) *)

Module SwaggerUi.
Import JsString Routes Aggregation.




Section WithVersion.

(** [VERSION] of [../constants]. *)
Variable VERSION : string.


End WithVersion.
End SwaggerUi.

(** ** Notions used to state further properties *)

Module Notions.
Import JsString Js Lodash.

(** The character [c] occurs in [s]. *)
Fixpoint occurs (c : ascii) (s : string) : bool :=
  match s with
  | EmptyString => false
  | String x s' => Ascii.eqb x c || occurs c s'
  end.


(** None of the characters [cs] occurs in [s]. *)
Definition noneOf (cs : list ascii) (s : string) : bool :=
  forallb (fun c => negb (occurs c s)) cs.

(** The characters the normalisation of a route file looks for, besides
    the texts [/index] and [.ts]. *)
Definition special : list ascii :=
  [JsString.backslash; "["%char; "]"%char; "."%char].

(** *** The tree of route files *)

(** Every directory of the tree can be read. *)
Fixpoint readable (content : Walk.Dir) : bool :=
  match content with
  | Walk.Unreadable => false
  | Walk.Entries dirents =>
      forallb (fun dirent =>
                 match dirent with
                 | Walk.Directory _ sub => readable sub
                 | Walk.File _ => true
                 end) dirents
  end.

(** [holds content names]: going down from the directory through the
    directories named by [names] but the last leads to an entry with the
    last name that is not a directory. *)
Inductive holds : Walk.Dir -> list string -> Prop :=
| holds_file (dirents : list Walk.Dirent) (name : string) :
    In (Walk.File name) dirents -> holds (Walk.Entries dirents) [name]
| holds_below (dirents : list Walk.Dirent) (name : string) (sub : Walk.Dir)
    (names : list string) :
    In (Walk.Directory name sub) dirents -> holds sub names ->
    holds (Walk.Entries dirents) (name :: names).

(** The configured [paths] overrides are absent or an object: held by
    value, or the shared one, which then holds an object. *)
Definition pathsAreAnObject (st : store) (configured : json) : bool :=
  match configured with
  | JUndef | JObj _ => true
  | JRef l => match st l with JObj _ => true | _ => false end
  | _ => false
  end.

(** A value that [merge] assigns as it is: neither an object nor an
    array, and not [undefined]. *)
Definition isPrimitive (v : json) : bool :=
  match v with
  | JNull | JBool _ | JNum _ | JStr _ => true
  | _ => false
  end.

(** A value that [merge] merges key by key. *)
Definition isObjectOrArray (v : json) : bool :=
  match v with
  | JObj _ | JArr _ => true
  | _ => false
  end.

(** An object that holds data by value but for what it holds under [key],
    which is as [inner] says; any other value is data held by value. *)
Definition plainBut (key : string) (inner : json -> bool) (v : json) : bool :=
  match v with
  | JObj ps =>
      forallb (fun kv => if String.eqb (fst kv) key then inner (snd kv)
                         else plain (snd kv)) ps
  | _ => plain v
  end.

(** The overrides of an operation give the [default] response neither an
    object nor an array: no [responses] property of theirs is an object
    that holds one under [default]. *)
Definition sparesDefaultResponse (overrides : props) : bool :=
  forallb (fun kv =>
             negb (String.eqb (fst kv) "responses")
             || match snd kv with
                | JObj qs =>
                    forallb (fun kv' =>
                               negb (String.eqb (fst kv') "default")
                               || negb (isObjectOrArray (snd kv'))) qs
                | _ => true
                end) overrides.

(** The overrides of an operation give [tags] neither an object nor an
    array: [merge] then writes nothing into the array of tags of the
    handler. *)
Definition sparesTags (overrides : props) : bool :=
  forallb (fun kv =>
             negb (String.eqb (fst kv) "tags")
             || negb (isObjectOrArray (snd kv))) overrides.

Section WithDeps.
Context `{Deps}.

(** The JSON Schemas and the overrides of the handler are data held by
    value. *)
Definition handlerIsData (h : MethodHandler.t) : bool :=
  forallb (fun kv => plain (snd kv))
    (Synthesis.requestBodyContent (MethodHandler.input h))
  && match MethodHandler.output h with
     | Some entries =>
         forallb (fun e => plain (getJsonSchema (MethodHandler.schema e))) entries
     | None => true
     end
  && match MethodHandler.openApiSpecOverrides h with
     | Some ps => forallb (fun kv => plain (snd kv)) ps
     | None => true
     end.

(** The handler has no override that gives the [default] response an
    object or an array. *)
Definition leavesDefaultResponse (h : MethodHandler.t) : bool :=
  match MethodHandler.openApiSpecOverrides h with
  | Some ps => sparesDefaultResponse ps
  | None => true
  end.

(** The handler has no override that gives [tags] an object or an
    array. *)
Definition leavesTags (h : MethodHandler.t) : bool :=
  match MethodHandler.openApiSpecOverrides h with
  | Some ps => sparesTags ps
  | None => true
  end.

End WithDeps.

End Notions.

(** ** Further sample inputs *)

Module Examples.
Import Walk.

(** A routes directory with an index file, a directory of two files and
    an empty directory. *)
Definition routesTree : Dir :=
  Entries [File "index.ts";
           Directory "users" (Entries [File "index.ts"; File "[id].ts"]);
           Directory "drafts" (Entries [])].

(** A routes directory one directory of which cannot be read. *)
Definition lockedTree : Dir :=
  Entries [File "todos.ts"; Directory "private" Unreadable].

(** A query schema of two keys. *)
Definition pagingSchema : Js.json :=
  Js.JObj [("properties",
            Js.JObj [("page", Sample.stringSchema); ("size", Sample.stringSchema)])].

(** A handler with two tags and that query schema, whose overrides give
    a summary, one tag and the description of the response of status
    404. *)
Definition listTodos : @MethodHandler.t Sample.deps :=
  @MethodHandler.mk Sample.deps
    (Some [("summary", Js.JStr "List the todos");
           ("tags", Js.JArr [Js.JStr "internal"]);
           ("responses",
            Js.JObj [("404", Js.JObj [("description", Js.JStr "Not found")])])])
    (Some ["todos"; "public"])
    (Some (@MethodHandler.mkInput Sample.deps None None (Some pagingSchema)))
    None.

(** A handler with one tag, whose overrides give a summary and the
    description of the response of status 400. *)
Definition createTodo : @MethodHandler.t Sample.deps :=
  @MethodHandler.mk Sample.deps
    (Some [("summary", Js.JStr "Create a todo");
           ("responses",
            Js.JObj [("400", Js.JObj [("description", Js.JStr "Bad request")])])])
    (Some ["todos"])
    None
    None.

(** A process that has just started where the spec file cannot be
    written. *)
Definition readOnly : Cache.World :=
  Cache.mkWorld None false Js.JUndef false
    (@Synthesis.initialStore Sample.deps Js.JUndef).

End Examples.

(** ** Path normalisation *)

Module RoutesFacts.
Import JsString Routes.

Example routeOfFile_documented_example :
  routeOfFile "users/[id]/index.ts" = "/api/users/{id}".
Proof. reflexivity. Qed.

Example routeOfFile_windows_separator :
  routeOfFile ("todos" ++ String backslash "[id]" ++ String backslash "index.ts")
  = "/api/todos/{id}".
Proof. reflexivity. Qed.

(** C7 (the code at the failing input). A route file with two dynamic
    segments keeps its second bracket pair: [.replace('[', '{')] and
    [.replace(']', '}')] take a string pattern and so rewrite the first
    occurrence only. *)
Theorem routeOfFile_second_param_kept :
  routeOfFile "users/[id]/posts/[postId].ts" = "/api/users/{id}/posts/[postId]"
  /\ includes "[postId]" (routeOfFile "users/[id]/posts/[postId].ts") = true
  /\ includes "{postId}" (routeOfFile "users/[id]/posts/[postId].ts") = false.
Proof. repeat split; reflexivity. Qed.

End RoutesFacts.

(** ** Property lists *)

Module JsFacts.
Import JsString Js.

Lemma get_set_same (k : string) (v : json) (ps : props) :
  get k (set k v ps) = Some v.
Proof.
  induction ps as [| [k' v'] ps IH]; simpl.
  - now rewrite String.eqb_refl.
  - destruct (String.eqb k k') eqn:E; simpl; rewrite ?String.eqb_refl, ?E; auto.
Qed.

Lemma get_set_other (k k' : string) (v : json) (ps : props) :
  k' <> k -> get k' (set k v ps) = get k' ps.
Proof.
  intros Hne. induction ps as [| [k0 v0] ps IH]; simpl.
  - apply String.eqb_neq in Hne. now rewrite Hne.
  - destruct (String.eqb k k0) eqn:E; simpl.
    + apply String.eqb_eq in E. subst k0.
      apply String.eqb_neq in Hne. now rewrite Hne.
    + now rewrite IH.
Qed.

Lemma get_None_not_In (k : string) (ps : props) :
  get k ps = None <-> ~ In k (keys ps).
Proof.
  induction ps as [| [k' v'] ps IH]; simpl.
  - tauto.
  - destruct (String.eqb k k') eqn:E.
    + apply String.eqb_eq in E. subst. split; [discriminate | tauto].
    + apply String.eqb_neq in E. rewrite IH. split; intros Hn.
      * intros [Heq | Hin]; [congruence | tauto].
      * tauto.
Qed.

Lemma set_absent (k : string) (v : json) (ps : props) :
  get k ps = None -> set k v ps = (ps ++ [(k, v)])%list.
Proof.
  induction ps as [| [k' v'] ps IH]; simpl; intros Hg; [reflexivity |].
  destruct (String.eqb k k'); [discriminate |]. now rewrite IH.
Qed.

Lemma keys_set_present (k : string) (v : json) (ps : props) :
  get k ps <> None -> keys (set k v ps) = keys ps.
Proof.
  induction ps as [| [k' v'] ps IH]; simpl; intros Hg; [congruence |].
  destruct (String.eqb k k') eqn:E; simpl.
  - apply String.eqb_eq in E. now subst.
  - now rewrite IH.
Qed.

Lemma NoDup_keys_set (k : string) (v : json) (ps : props) :
  NoDup (keys ps) -> NoDup (keys (set k v ps)).
Proof.
  intros Hnd. destruct (get k ps) eqn:Hg.
  - rewrite keys_set_present; [assumption | congruence].
  - rewrite set_absent by assumption. unfold keys. rewrite map_app. simpl.
    apply get_None_not_In in Hg.
    apply NoDup_app; [assumption | repeat constructor; simpl; tauto |].
    intros x Hin [Hx | []]. subst. tauto.
Qed.

(** Copying a well-formed property list into a fresh object gives the
    same list. *)
Lemma assignProps_app (acc ps : props) :
  NoDup (keys (acc ++ ps)%list) -> assignProps acc ps = (acc ++ ps)%list.
Proof.
  unfold assignProps. revert acc.
  induction ps as [| [k v] ps IH]; intros acc Hnd; simpl.
  - now rewrite app_nil_r.
  - assert (Hnone : get k acc = None).
    { apply get_None_not_In. intros Hin. unfold keys in Hnd.
      rewrite map_app in Hnd. simpl in Hnd.
      apply NoDup_remove_2 in Hnd. apply Hnd.
      apply in_or_app. now left. }
    rewrite set_absent by assumption.
    rewrite IH; rewrite <- app_assoc; [reflexivity | exact Hnd].
Qed.

Lemma assignProps_fresh (ps : props) :
  NoDup (keys ps) -> assignProps [] ps = ps.
Proof. intros Hnd. now rewrite assignProps_app. Qed.

Lemma NoDup_keys_assignProps (acc ps : props) :
  NoDup (keys acc) -> NoDup (keys (assignProps acc ps)).
Proof.
  unfold assignProps. revert acc.
  induction ps as [| [k v] ps IH]; intros acc Hnd; simpl; [assumption |].
  apply IH. now apply NoDup_keys_set.
Qed.

Lemma has_set (k k' : string) (v : json) (ps : props) :
  has k' ps = true -> has k' (set k v ps) = true.
Proof.
  unfold has. destruct (string_dec k' k) as [-> | Hne].
  - now rewrite get_set_same.
  - now rewrite get_set_other.
Qed.

Lemma has_assignProps_left (k : string) (acc ps : props) :
  has k acc = true -> has k (assignProps acc ps) = true.
Proof.
  unfold assignProps. revert acc.
  induction ps as [| [k' v] ps IH]; intros acc Hh; simpl; [assumption |].
  apply IH. now apply has_set.
Qed.

Lemma has_assignProps_right (k : string) (acc ps : props) :
  has k ps = true -> has k (assignProps acc ps) = true.
Proof.
  unfold assignProps. revert acc.
  induction ps as [| [k' v] ps IH]; intros acc Hh; simpl.
  - discriminate.
  - unfold has in Hh. simpl in Hh. destruct (String.eqb k k') eqn:E.
    + apply String.eqb_eq in E. subst k'.
      apply (has_assignProps_left k (set k v acc) ps).
      unfold has. now rewrite get_set_same.
    + apply IH. exact Hh.
Qed.

Lemma get_assignProps_absent (k : string) (acc ps : props) :
  has k ps = false -> get k (assignProps acc ps) = get k acc.
Proof.
  unfold assignProps, has. revert acc.
  induction ps as [| [k' v] ps IH]; intros acc Hh; [reflexivity |].
  simpl in Hh. cbn [fold_left fst snd].
  destruct (String.eqb k k') eqn:E; [discriminate |].
  rewrite IH by assumption. apply get_set_other.
  now apply String.eqb_neq.
Qed.

(** What the source of an assignment holds under a key is what the target
    holds afterwards, whatever it held before. *)
Lemma get_assignProps_present (k : string) (acc ps : props) :
  has k ps = true -> get k (assignProps acc ps) = get k (assignProps [] ps).
Proof.
  revert acc. induction ps as [| [k' v] ps IH]; intros acc Hh; [discriminate |].
  unfold assignProps. cbn [fold_left fst snd].
  fold (assignProps (set k' v acc) ps). fold (assignProps (set k' v []) ps).
  destruct (has k ps) eqn:Hrest.
  - now rewrite (IH (set k' v acc)), (IH (set k' v [])).
  - rewrite !get_assignProps_absent by assumption.
    unfold has in Hh. simpl in Hh. destruct (String.eqb k k') eqn:E.
    + apply String.eqb_eq in E. subst k'. now rewrite !get_set_same.
    + unfold has in Hrest. now rewrite Hh in Hrest.
Qed.

End JsFacts.

(** ** Induction on values *)

Module ValueFacts.
Import JsString Js JsFacts.

Lemma json_ind' (P : json -> Prop) :
  P JUndef -> P JNull -> (forall b, P (JBool b)) -> (forall n, P (JNum n)) ->
  (forall s, P (JStr s)) ->
  (forall es, Forall P es -> P (JArr es)) ->
  (forall ps, Forall (fun kv => P (snd kv)) ps -> P (JObj ps)) ->
  (forall l, P (JRef l)) ->
  forall v, P v.
Proof.
  intros Hu Hn Hb Hz Hs Ha Ho Hr.
  fix self 1. intros [| | b | n | s | es | ps | l].
  - exact Hu.
  - exact Hn.
  - apply Hb.
  - apply Hz.
  - apply Hs.
  - apply Ha. induction es as [| e es IH]; constructor; [apply self | exact IH].
  - apply Ho. induction ps as [| [k v] ps IH]; constructor; [apply self | exact IH].
  - apply Hr.
Qed.



Lemma uniqueKeys_NoDup (ps : props) : uniqueKeys ps = true <-> NoDup (keys ps).
Proof.
  induction ps as [| [k v] ps IH]; simpl.
  - split; [constructor | reflexivity].
  - rewrite andb_true_iff, negb_true_iff, IH. unfold has.
    split.
    + intros [Hh Hnd]. constructor; [| assumption].
      apply get_None_not_In. destruct (get k ps); [discriminate | reflexivity].
    + intros Hnd. inversion Hnd as [| ? ? Hnin Hnd']. subst. split; [| assumption].
      apply get_None_not_In in Hnin. now rewrite Hnin.
Qed.

Lemma get_In (k : string) (v : json) (ps : props) :
  get k ps = Some v -> In (k, v) ps.
Proof.
  induction ps as [| [k' v'] ps IH]; simpl; [discriminate |].
  destruct (String.eqb k k') eqn:E.
  - apply String.eqb_eq in E. intros Hs. injection Hs as ->. subst. now left.
  - intros Hg. right. auto.
Qed.

Lemma In_get (k : string) (v : json) (ps : props) :
  NoDup (keys ps) -> In (k, v) ps -> get k ps = Some v.
Proof.
  induction ps as [| [k' v'] ps IH]; simpl; intros Hnd Hin; [destruct Hin |].
  inversion Hnd as [| ? ? Hnin Hnd']. subst.
  destruct Hin as [Heq | Hin].
  - injection Heq as -> ->. now rewrite String.eqb_refl.
  - destruct (String.eqb k k') eqn:E.
    + apply String.eqb_eq in E. subst k'. exfalso. apply Hnin.
      unfold keys. change k with (fst (k, v)). now apply in_map.
    + auto.
Qed.


End ValueFacts.

(** ** Printing numbers as property keys *)

Module NumberFacts.
Import JsString.

Lemma to_int_not_nil (n : Z) :
  Z.to_int n <> Decimal.Pos Decimal.Nil /\ Z.to_int n <> Decimal.Neg Decimal.Nil.
Proof.
  destruct n as [| p | p]; simpl; split; try discriminate;
    intros Heq; injection Heq as Heq;
    exact (DecimalPos.Unsigned.to_uint_nonnil p Heq).
Qed.

Lemma int_of_string_ofNumber (n : Z) :
  NilZero.int_of_string (ofNumber n) = Some (Z.to_int n).
Proof.
  unfold ofNumber. destruct (to_int_not_nil n) as [Hp Hn].
  now apply NilZero.isi.
Qed.

Lemma ofNumber_inj (a b : Z) : ofNumber a = ofNumber b -> a = b.
Proof.
  intros Heq. apply DecimalZ.to_int_inj.
  assert (Hs : Some (Z.to_int a) = Some (Z.to_int b)).
  { rewrite <- !int_of_string_ofNumber. now rewrite Heq. }
  now injection Hs.
Qed.

Lemma ofNumber_not_default (n : Z) : ofNumber n <> "default".
Proof.
  intros Heq. pose proof (int_of_string_ofNumber n) as Hs.
  rewrite Heq in Hs. vm_compute in Hs. discriminate.
Qed.

End NumberFacts.

(** ** Path synthesis *)

Module SynthesisFacts.
Import JsString Js Lodash Synthesis Statements JsFacts.

Section WithDeps.
Context `{Deps}.

Lemma generatedOperationObject_is_object (h : MethodHandler.t) (route : string) :
  exists operation, generatedOperationObject h route = JObj operation.
Proof. unfold generatedOperationObject. eexists. reflexivity. Qed.

(** A handler without overrides leaves the generated operation and the
    store as they are. *)
Lemma merge_no_overrides (st : store) (h : MethodHandler.t) (route : string) :
  merge st (generatedOperationObject h route) JUndef
  = (st, generatedOperationObject h route).
Proof.
  destruct (generatedOperationObject_is_object h route) as [operation ->].
  reflexivity.
Qed.

Lemma addMethod_get_other (route k : string) (acc : store * props)
    (entry : string * MethodHandler.t) :
  toLowerCase (fst entry) <> k ->
  get k (snd (addMethod route acc entry)) = get k (assignProps [] (snd acc)).
Proof.
  intros Hne. destruct entry as [m h]. unfold addMethod.
  destruct (merge (fst acc) (generatedOperationObject h route)
              (ofOption (MethodHandler.openApiSpecOverrides h))) as [st1 merged].
  simpl. apply get_set_other. simpl in Hne. congruence.
Qed.

Lemma addMethod_NoDup (route : string) (acc : store * props)
    (entry : string * MethodHandler.t) :
  NoDup (keys (snd (addMethod route acc entry))).
Proof.
  destruct entry as [m h]. unfold addMethod.
  destruct (merge (fst acc) (generatedOperationObject h route)
              (ofOption (MethodHandler.openApiSpecOverrides h))) as [st1 merged].
  simpl. apply NoDup_keys_set, NoDup_keys_assignProps. constructor.
Qed.

(** The turns of the loop for other methods keep what a method holds. *)
Lemma fold_addMethod_get (route k : string)
    (entries : list (string * MethodHandler.t)) (acc : store * props) :
  NoDup (keys (snd acc)) ->
  (forall entry, In entry entries -> toLowerCase (fst entry) <> k) ->
  get k (snd (fold_left (addMethod route) entries acc)) = get k (snd acc).
Proof.
  revert acc. induction entries as [| entry entries IH]; intros acc Hnd Hall.
  - reflexivity.
  - simpl. rewrite IH.
    + rewrite addMethod_get_other by (apply Hall; now left).
      now rewrite assignProps_fresh.
    + apply addMethod_NoDup.
    + intros e He. apply Hall. now right.
Qed.

(** *** The reducer of the declared outputs *)

Lemma addResponse_set (obj : props) (e : MethodHandler.OutputEntry) :
  addResponse obj e = set (ofNumber (MethodHandler.status e)) (responseOf e) obj.
Proof. reflexivity. Qed.

Lemma get_fold_addResponse (s : Z) (entries : list MethodHandler.OutputEntry)
    (acc : props) :
  get (ofNumber s) (fold_left addResponse entries acc)
  = match lastWithStatus s entries with
    | Some e => Some (responseOf e)
    | None => get (ofNumber s) acc
    end.
Proof.
  revert acc. induction entries as [| e entries IH]; intros acc; simpl.
  - reflexivity.
  - rewrite IH. destruct (lastWithStatus s entries); [reflexivity |].
    rewrite addResponse_set.
    destruct (Z.eqb_spec (MethodHandler.status e) s) as [-> | Hne].
    + apply get_set_same.
    + apply get_set_other. intros Heq.
      apply NumberFacts.ofNumber_inj in Heq. congruence.
Qed.

Lemma NoDup_fold_addResponse (entries : list MethodHandler.OutputEntry)
    (acc : props) :
  NoDup (keys acc) -> NoDup (keys (fold_left addResponse entries acc)).
Proof.
  revert acc. induction entries as [| e entries IH]; intros acc Hnd; simpl.
  - assumption.
  - apply IH. rewrite addResponse_set. now apply NoDup_keys_set.
Qed.

(** The [responses] of the generated operation: the reduced outputs and
    the reference to the module-level default response. *)
Lemma generatedOperationObject_responses (h : MethodHandler.t) (route : string) :
  at_path ["responses"] (generatedOperationObject h route)
  = JObj (set "default" (JRef DefaultResponse)
            (assignProps [] (match generatedResponses (MethodHandler.output h) with
                             | Some ps => ps
                             | None => []
                             end))).
Proof.
  unfold generatedOperationObject.
  destruct (scanParameters None route);
    destruct (MethodHandler.input h) as [[ct body [q |]] |]; reflexivity.
Qed.

Lemma at_path_cons (k : string) (ks : list string) (v : json) :
  at_path (k :: ks) v = at_path ks (at_path [k] v).
Proof.
  simpl. destruct v as [| | b | n | s | es | ps | l];
    try (destruct ks; reflexivity).
  destruct (get k ps); [reflexivity | destruct ks; reflexivity].
Qed.

Lemma at_path_member (k : string) (ks : list string) (ps : props) (v : json) :
  get k ps = Some v -> at_path (k :: ks) (JObj ps) = at_path ks v.
Proof. intros Hg. cbn [at_path]. now rewrite Hg. Qed.

Lemma generatedOperationObject_status (h : MethodHandler.t) (route : string)
    (entries : list MethodHandler.OutputEntry) (s : Z) (e : MethodHandler.OutputEntry) :
  MethodHandler.output h = Some entries ->
  lastWithStatus s entries = Some e ->
  at_path ["responses"; ofNumber s] (generatedOperationObject h route)
  = responseOf e.
Proof.
  intros Hout Hlast.
  rewrite at_path_cons, generatedOperationObject_responses, Hout. simpl.
  rewrite get_set_other by apply NumberFacts.ofNumber_not_default.
  rewrite assignProps_fresh by (apply NoDup_fold_addResponse; constructor).
  now rewrite get_fold_addResponse, Hlast.
Qed.

(** *** The loop over the methods *)

Lemma filter_valid_split (before after : list (string * MethodHandler.t))
    (m : string) (h : MethodHandler.t) :
  isValidMethod m = true ->
  filter (fun entry => isValidMethod (fst entry)) (before ++ (m, h) :: after)
  = (filter (fun entry => isValidMethod (fst entry)) before
       ++ (m, h) :: filter (fun entry => isValidMethod (fst entry)) after)%list.
Proof. intros Hm. rewrite filter_app. simpl. now rewrite Hm. Qed.

(** What a method without overrides of its own holds in the returned
    path item, when no later method takes its name. *)
Lemma pathItem_of_method (st : store) (item0 : props)
    (before after : list (string * MethodHandler.t))
    (m : string) (h : MethodHandler.t) (route : string) :
  isValidMethod m = true ->
  (forall entry, In entry after -> isValidMethod (fst entry) = true ->
                 toLowerCase (fst entry) <> toLowerCase m) ->
  MethodHandler.openApiSpecOverrides h = None ->
  get (toLowerCase m)
    (snd (fold_left (addMethod route)
            (filter (fun entry => isValidMethod (fst entry))
               (before ++ (m, h) :: after))
            (st, item0)))
  = Some (generatedOperationObject h route).
Proof.
  intros Hm Hafter Hov.
  rewrite filter_valid_split by assumption.
  rewrite fold_left_app. cbn [fold_left].
  rewrite fold_addMethod_get.
  - unfold addMethod. rewrite Hov. unfold ofOption.
    rewrite merge_no_overrides. cbn [snd]. apply get_set_same.
  - apply addMethod_NoDup.
  - intros entry Hin. apply filter_In in Hin. destruct Hin as [Hin Hv].
    now apply Hafter.
Qed.

End WithDeps.
End SynthesisFacts.


(** ** Properties of [getPathsFromMethodHandlers] *)

Module SynthesisProperties.
Import JsString Js Lodash Synthesis Statements JsFacts SynthesisFacts.

Section WithDeps.
Context `{Deps}.

(** C1 (amended). An output entry replaces every earlier entry of the
    same status, whatever the content types: for a method without
    overrides of its own whose name no later method takes, the response
    the returned operation holds under a declared status is the one
    built from the last output entry with that status, and its
    [content] has that entry's content type as its only key. *)
Theorem responses_hold_last_entry_of_status
    (st : store) (overrides : option props)
    (before after : list (string * MethodHandler.t))
    (m route : string) (h : MethodHandler.t)
    (entries : list MethodHandler.OutputEntry) (s : Z)
    (e : MethodHandler.OutputEntry) :
  route <> "__proto__" ->
  isValidMethod m = true ->
  (forall entry, In entry after -> isValidMethod (fst entry) = true ->
                 toLowerCase (fst entry) <> toLowerCase m) ->
  MethodHandler.openApiSpecOverrides h = None ->
  MethodHandler.output h = Some entries ->
  lastWithStatus s entries = Some e ->
  at_path [route; toLowerCase m; "responses"; ofNumber s]
    (snd (getPathsFromMethodHandlers st
            (DefineEndpointsParams.mk overrides (before ++ (m, h) :: after))
            route))
  = JObj [("content",
           JObj [(MethodHandler.contentType e,
                  JObj [("schema", getJsonSchema (MethodHandler.schema e))])])].
Proof.
  intros Hroute Hm Hafter Hov Hout Hlast.
  unfold getPathsFromMethodHandlers. cbn [DefineEndpointsParams.handlers].
  pose proof (pathItem_of_method st
                (assignProps [] (ownProps (ofOption
                   (DefineEndpointsParams.openApiSpecOverrides
                      (DefineEndpointsParams.mk overrides (before ++ (m, h) :: after))))))
                before after m h route Hm Hafter Hov) as Hget.
  destruct (fold_left (addMethod route) _ _) as [st1 pathItem].
  cbn [snd] in *.
  apply String.eqb_neq in Hroute. rewrite Hroute.
  rewrite (at_path_member route _ [(route, JObj pathItem)] (JObj pathItem))
    by (cbn [get]; now rewrite String.eqb_refl).
  rewrite (at_path_member _ _ _ _ Hget).
  now apply generatedOperationObject_status with (entries := entries).
Qed.

(** C10 (amended). For every route other than [__proto__] the returned
    object has exactly one property, the route. *)
Theorem paths_has_the_route_as_only_key
    (st : store) (methodHandlers : DefineEndpointsParams.t) (route : string) :
  route <> "__proto__" ->
  exists pathItem,
    snd (getPathsFromMethodHandlers st methodHandlers route)
    = JObj [(route, JObj pathItem)].
Proof.
  intros Hroute. unfold getPathsFromMethodHandlers.
  destruct (fold_left (addMethod route) _ _) as [st1 pathItem].
  apply String.eqb_neq in Hroute. rewrite Hroute.
  now exists pathItem.
Qed.

End WithDeps.

#[local] Existing Instance Sample.deps.
Import Sample.

Lemma responses_hold_last_entry_of_status_witness :
  at_path ["/api/a"; "get"; "responses"; "200"]
    (snd (getPathsFromMethodHandlers store0 (getOnly twoContentTypes) "/api/a"))
  = JObj [("content", JObj [("text/plain", JObj [("schema", stringSchema)])])].
Proof.
  apply (responses_hold_last_entry_of_status store0 None [] [] "GET" "/api/a"
           twoContentTypes [jsonOutput; textOutput] 200 textOutput).
  - discriminate.
  - reflexivity.
  - intros entry [].
  - reflexivity.
  - reflexivity.
  - reflexivity.
Defined.

(** C1 (counterexample). Two outputs of status 200, the first JSON, the
    second plain text: the returned operation holds the second content
    type only; the JSON entry, of a different content type, is gone. *)
Lemma same_status_other_content_type_is_lost :
  MethodHandler.output twoContentTypes = Some [jsonOutput; textOutput]
  /\ MethodHandler.status jsonOutput = MethodHandler.status textOutput
  /\ MethodHandler.contentType jsonOutput <> MethodHandler.contentType textOutput
  /\ at_path ["/api/a"; "get"; "responses"; "200"; "content"]
       (snd (getPathsFromMethodHandlers store0 (getOnly twoContentTypes) "/api/a"))
     = JObj [("text/plain", JObj [("schema", stringSchema)])]
  /\ at_path ["/api/a"; "get"; "responses"; "200"; "content"; "application/json"]
       (snd (getPathsFromMethodHandlers store0 (getOnly twoContentTypes) "/api/a"))
     = JUndef.
Proof. repeat split; try reflexivity. discriminate. Qed.

Lemma paths_has_the_route_as_only_key_witness :
  exists pathItem,
    snd (getPathsFromMethodHandlers store0 (getOnly bare) "/api/a")
    = JObj [("/api/a", JObj pathItem)].
Proof.
  apply (paths_has_the_route_as_only_key store0 (getOnly bare) "/api/a").
  discriminate.
Defined.

(** C10 (counterexample). For the route [__proto__] the returned object
    has no property at all. *)
Lemma paths_of_proto_route_has_no_key :
  snd (getPathsFromMethodHandlers store0 (getOnly bare) "__proto__") = JObj [].
Proof. reflexivity. Qed.

(** C9 (the code at the failing input). A bundle whose GET handler
    overrides the description of the [default] response and whose POST
    handler declares nothing: the merge of the GET overrides writes into
    the module-level [defaultResponse] object, so the operation generated
    for POST, before any override of its own, carries the overridden
    description and not the fixed one. *)
Theorem default_response_of_later_method_is_overridden :
  let afterGet :=
    fst (addMethod "/api/a" (store0, []) ("GET", describesDefault)) in
  at_path ["responses"; "default"; "description"]
    (resolve afterGet (generatedOperationObject bare "/api/a"))
  = JStr "Not found"
  /\ (let r := getPathsFromMethodHandlers store0
                 (getThenPost describesDefault bare) "/api/a" in
      at_path ["/api/a"; "post"; "responses"; "default"; "description"]
        (resolve (fst r) (snd r))
      = JStr "Not found")
  /\ JStr "Not found" <> JStr unexpectedError.
Proof. repeat split; try reflexivity. discriminate. Qed.

(** C2 (the code at the failing input). The same call, for a route that
    declares nothing, returns the fixed default response in a fresh
    process and another one once some route's overrides have been merged:
    that earlier call changed the shared [defaultResponse] object. *)
Theorem earlier_call_changes_later_result :
  let first := getPathsFromMethodHandlers store0 (getOnly describesDefault) "/api/a" in
  let fresh := getPathsFromMethodHandlers store0 (getOnly bare) "/api/b" in
  let later := getPathsFromMethodHandlers (fst first) (getOnly bare) "/api/b" in
  at_path ["description"] (store0 DefaultResponse) = JStr unexpectedError
  /\ at_path ["description"] (fst first DefaultResponse) = JStr "Not found"
  /\ at_path ["/api/b"; "get"; "responses"; "default"; "description"]
       (resolve (fst fresh) (snd fresh)) = JStr unexpectedError
  /\ at_path ["/api/b"; "get"; "responses"; "default"; "description"]
       (resolve (fst later) (snd later)) = JStr "Not found".
Proof. repeat split; reflexivity. Qed.

End SynthesisProperties.

(** ** Properties of [generatePaths] *)

Module AggregationProperties.
Import JsString Js Lodash Routes Aggregation Statements JsFacts.

Lemma reports_false_iff (outcome : ProbeOutcome) :
  ProbeFailure outcome <-> reports outcome = false /\ completes outcome = true.
Proof.
  split.
  - intros [status body Hs | status | status data Hd | |]; simpl; auto.
    + destruct body; [| now split].
      apply Z.eqb_neq in Hs. now rewrite Hs.
    + rewrite Hd. split; [apply andb_false_r | reflexivity].
  - destruct outcome as [| | status [data |] | status]; simpl; intros [Hr Hc];
      try (constructor; fail); try discriminate.
    destruct (Z.eqb_spec status 200) as [-> | Hne].
    + apply MissingField. exact Hr.
    + now apply OtherStatus.
Qed.

Lemma absorb_failure (paths : props) (outcome : ProbeOutcome) :
  reports outcome = false -> absorb paths outcome = paths.
Proof.
  destruct outcome as [| | status [data |] | status]; simpl; try reflexivity.
  now intros ->.
Qed.

Lemma fold_absorb_filter (outcomes : list ProbeOutcome) (paths : props) :
  fold_left absorb outcomes paths = fold_left absorb (filter reports outcomes) paths.
Proof.
  revert paths. induction outcomes as [| o outcomes IH]; intros paths; simpl.
  - reflexivity.
  - destruct (reports o) eqn:Hr; simpl.
    + apply IH.
    + rewrite absorb_failure by assumption. apply IH.
Qed.

Lemma has_absorb (k : string) (paths : props) (outcome : ProbeOutcome) :
  has k paths = true -> has k (absorb paths outcome) = true.
Proof.
  intros Hk. destruct outcome as [| | status [data |] | status]; simpl;
    try assumption.
  destruct ((status =? 200)%Z && isPathItemObject data); [| assumption].
  apply has_assignProps_left. now apply has_assignProps_right.
Qed.

Lemma has_fold_absorb (k : string) (outcomes : list ProbeOutcome) (paths : props) :
  has k paths = true -> has k (fold_left absorb outcomes paths) = true.
Proof.
  revert paths. induction outcomes as [| o outcomes IH]; intros paths Hk; simpl.
  - assumption.
  - apply IH. now apply has_absorb.
Qed.

Lemma has_fold_absorb_reported (k : string) (data : json)
    (outcomes : list ProbeOutcome) (paths : props) :
  In (Responded 200 (Some data)) outcomes ->
  isPathItemObject data = true ->
  has k (ownProps (member data "nextRestFrameworkPaths")) = true ->
  has k (fold_left absorb outcomes paths) = true.
Proof.
  intros Hin Hobj Hk. revert paths.
  induction outcomes as [| o outcomes IH]; intros paths; [destruct Hin |].
  destruct Hin as [-> | Hin]; simpl.
  - apply has_fold_absorb. rewrite Hobj. simpl.
    now apply has_assignProps_right.
  - now apply IH.
Qed.

Lemma get_absorb_other (path : string) (paths : props) (outcome : ProbeOutcome) :
  NoDup (keys paths) ->
  (forall data, outcome = Responded 200 (Some data) ->
     has path (ownProps (member data "nextRestFrameworkPaths")) = false) ->
  get path (absorb paths outcome) = get path paths.
Proof.
  intros Hnd Hother. destruct outcome as [| | status [data |] | status]; simpl;
    try reflexivity.
  destruct (Z.eqb_spec status 200) as [-> | Hne]; [| reflexivity].
  destruct (isPathItemObject data); [| reflexivity]. simpl.
  rewrite get_assignProps_absent by now apply Hother.
  now rewrite assignProps_fresh.
Qed.

Lemma NoDup_absorb (paths : props) (outcome : ProbeOutcome) :
  NoDup (keys paths) -> NoDup (keys (absorb paths outcome)).
Proof.
  intros Hnd. destruct outcome as [| | status [data |] | status]; simpl;
    try assumption.
  destruct ((status =? 200)%Z && isPathItemObject data); [| assumption].
  apply NoDup_keys_assignProps, NoDup_keys_assignProps. constructor.
Qed.

Lemma get_fold_absorb_other (path : string) (outcomes : list ProbeOutcome)
    (paths : props) :
  NoDup (keys paths) ->
  (forall data, In (Responded 200 (Some data)) outcomes ->
     has path (ownProps (member data "nextRestFrameworkPaths")) = false) ->
  get path (fold_left absorb outcomes paths) = get path paths.
Proof.
  revert paths. induction outcomes as [| o outcomes IH]; intros paths Hnd Hother;
    [reflexivity |].
  cbn [fold_left]. rewrite IH.
  - apply get_absorb_other; [assumption |].
    intros data ->. apply Hother. now left.
  - now apply NoDup_absorb.
  - intros data Hin. apply Hother. now right.
Qed.

(** *** The order in which the probes settle *)

Lemma settlesBefore_Permutation (time : string -> nat) (url : string)
    (urls : list string) :
  Permutation (url :: urls) (settlesBefore time url urls).
Proof.
  induction urls as [| u urls IH]; cbn [settlesBefore]; [apply Permutation_refl |].
  destruct (Nat.leb (time url) (time u)); [apply Permutation_refl |].
  apply perm_trans with (l' := u :: url :: urls); [apply perm_swap |].
  now apply perm_skip.
Qed.

(** Every probe that was started is in the order, once. *)
Lemma settle_Permutation (net : Network) (urls : list string) :
  Permutation urls (settle net urls).
Proof.
  unfold settle. induction urls as [| url urls IH]; cbn [fold_right];
    [apply Permutation_refl |].
  apply perm_trans with (l' := url :: fold_right (settlesBefore (settleTime net)) [] urls).
  - now apply perm_skip.
  - apply settlesBefore_Permutation.
Qed.

(** *** When the aggregation returns *)

Lemma generatePaths_returns (cfg : PathConfig) (headers : Headers)
    (files : list string) (net : Network) :
  (forall url, In url (probedUrls cfg headers files) ->
     completes (fetch net url) = true) ->
  generatePaths cfg headers files net
  = Some (fold_left absorb
            (map (fetch net) (settle net (probedUrls cfg headers files))) []).
Proof.
  intros Hall. unfold generatePaths.
  assert (Hb : forallb (fun url => completes (fetch net url))
                 (probedUrls cfg headers files) = true)
    by now apply forallb_forall.
  now rewrite Hb.
Qed.

Lemma generatePaths_Some (cfg : PathConfig) (headers : Headers)
    (files : list string) (net : Network) (paths : props) :
  generatePaths cfg headers files net = Some paths ->
  paths = fold_left absorb
            (map (fetch net) (settle net (probedUrls cfg headers files))) []
  /\ forall url, In url (probedUrls cfg headers files) ->
       completes (fetch net url) = true.
Proof.
  unfold generatePaths.
  destruct (forallb _ _) eqn:Hb; [| discriminate].
  intros Heq. injection Heq as <-. split; [reflexivity |].
  now apply forallb_forall.
Qed.

Lemma generatePaths_None (cfg : PathConfig) (headers : Headers)
    (files : list string) (net : Network) :
  generatePaths cfg headers files net = None
  <-> exists url status,
        In url (probedUrls cfg headers files) /\ fetch net url = Stalled status.
Proof.
  unfold generatePaths. split.
  - destruct (forallb _ _) eqn:Hb; [discriminate |]. intros _.
    induction (probedUrls cfg headers files) as [| url urls IH]; [discriminate |].
    cbn [forallb] in Hb. apply andb_false_iff in Hb. destruct Hb as [Hb | Hb].
    + destruct (fetch net url) as [| | status body | status] eqn:Hfetch;
        try discriminate.
      exists url, status. split; [now left | assumption].
    + destruct (IH Hb) as [url' [status [Hin Hfetch]]].
      exists url', status. split; [now right | assumption].
  - intros [url [status [Hin Hfetch]]].
    destruct (forallb _ _) eqn:Hb; [| reflexivity].
    rewrite forallb_forall in Hb. specialize (Hb url Hin).
    rewrite Hfetch in Hb. discriminate.
Qed.

(** C6 (the code, with its failing input). A probe that ends in a status
    other than 200, an unparsable body, a body without the
    [nextRestFrameworkPaths] field, the abort by the 200ms timer or a
    network error leaves the aggregated paths as they were, and when the
    aggregation returns its result is the one the reporting probes alone
    produce: it has every path that the fragment of a reporting route
    has, and under that path the item of that fragment unless a probe
    that settles later reports the same path.  But the aggregation
    returns only if no probed route answers in time and then never ends
    its body: the timer is cleared when the response arrives (line 204),
    before the body is read (line 208), so that probe is never aborted,
    [Promise.all] never resolves, and the fragments of the routes that
    reported are never returned. *)
Theorem body_that_never_ends_blocks_the_aggregation
    (cfg : PathConfig) (headers : Headers) (files : list string) (net : Network) :
  let urls := probedUrls cfg headers files in
  let outcomes := map (fetch net) (settle net urls) in
  (generatePaths cfg headers files net = None
   <-> exists url status, In url urls /\ fetch net url = Stalled status)
  /\ (forall paths outcome, ProbeFailure outcome -> absorb paths outcome = paths)
  /\ (forall paths,
        generatePaths cfg headers files net = Some paths ->
        paths = fold_left absorb (filter reports outcomes) []
        /\ (forall url data path,
              In url urls ->
              fetch net url = Responded 200 (Some data) ->
              isPathItemObject data = true ->
              has path (ownProps (member data "nextRestFrameworkPaths")) = true ->
              has path paths = true)
        /\ (forall before after url data path,
              settle net urls = (before ++ url :: after)%list ->
              fetch net url = Responded 200 (Some data) ->
              isPathItemObject data = true ->
              has path (ownProps (member data "nextRestFrameworkPaths")) = true ->
              (forall url' data',
                 In url' after -> fetch net url' = Responded 200 (Some data') ->
                 has path (ownProps (member data' "nextRestFrameworkPaths")) = false) ->
              get path paths
              = get path
                  (assignProps [] (ownProps (member data "nextRestFrameworkPaths"))))).
Proof.
  intros urls outcomes. split; [| split].
  - apply generatePaths_None.
  - intros paths outcome Hf. apply absorb_failure. now apply reports_false_iff.
  - intros paths Hsome. apply generatePaths_Some in Hsome.
    destruct Hsome as [-> _]. fold urls. split; [| split].
    + apply fold_absorb_filter.
    + intros url data path Hin Hfetch Hobj Hk.
      apply has_fold_absorb_reported with (data := data); try assumption.
      rewrite <- Hfetch. apply in_map.
      apply Permutation_in with (l := urls); [apply settle_Permutation | assumption].
    + intros before after url data path Hsplit Hfetch Hobj Hk Hlater.
      rewrite Hsplit.
      rewrite map_app, fold_left_app. cbn [map fold_left].
      rewrite get_fold_absorb_other.
      * rewrite Hfetch. simpl. rewrite Hobj. simpl.
        now apply get_assignProps_present.
      * apply NoDup_absorb.
        assert (Hnd : forall os acc, NoDup (keys acc) ->
                                     NoDup (keys (fold_left absorb os acc))).
        { induction os as [| o os IH]; intros acc Hacc; [assumption |].
          cbn [fold_left]. apply IH. now apply NoDup_absorb. }
        apply Hnd. constructor.
      * intros data' Hin. apply in_map_iff in Hin.
        destruct Hin as [url' [Hfetch' Hin']]. now apply (Hlater url' data').
Qed.

Import Sample.

(** The failing input, and the same routes without it.  Seven routes
    are probed.  When [/api/broken] answers 500 and never ends its body,
    the aggregation does not return, though [/api/todos] and [/api/users]
    have reported.  When it ends its body, the aggregation returns the
    fragments of these two, in the order in which they settled, and the
    five routes that failed, each in its way, have left nothing. *)
Lemma body_that_never_ends_blocks_the_aggregation_witness :
  let cfg := Cache.pathNames (config None) in
  probedUrls cfg headers busyListing
  = ["http://localhost:3000/api/todos"; "http://localhost:3000/api/down";
     "http://localhost:3000/api/slow"; "http://localhost:3000/api/broken";
     "http://localhost:3000/api/page"; "http://localhost:3000/api/legacy";
     "http://localhost:3000/api/users"]
  /\ generatePaths cfg headers busyListing stalledNetwork = None
  /\ generatePaths cfg headers busyListing busyNetwork
     = Some [("/api/users", JObj [("get", JObj [("responses", JObj [])])]);
             ("/api/todos", JObj [("get", todosOperation)])]
  /\ (forall paths,
        generatePaths cfg headers busyListing busyNetwork = Some paths ->
        paths
        = fold_left absorb
            [Responded 200 (Some (report usersFragment));
             Responded 200 (Some (report todosFragment))] []).
Proof.
  intros cfg. split; [reflexivity | split; [| split]].
  - apply (proj1 (body_that_never_ends_blocks_the_aggregation cfg headers
                    busyListing stalledNetwork)).
    exists "http://localhost:3000/api/broken", 500%Z.
    split; [simpl; tauto | reflexivity].
  - reflexivity.
  - intros paths Hsome.
    exact (proj1 (proj2 (proj2 (body_that_never_ends_blocks_the_aggregation cfg
                                  headers busyListing busyNetwork)) paths Hsome)).
Defined.

Example generatePaths_sample :
  probedUrls (Cache.pathNames (config None)) headers listing
  = ["http://localhost:3000/api/todos"]
  /\ generatePaths (Cache.pathNames (config None)) headers listing network
     = Some [("/api/todos", JObj [("get", todosOperation)])].
Proof. split; reflexivity. Qed.

(** The order in which the probes of the seven routes settle. *)
Example settle_sample :
  settle busyNetwork (probedUrls (Cache.pathNames (config None)) headers busyListing)
  = ["http://localhost:3000/api/users"; "http://localhost:3000/api/down";
     "http://localhost:3000/api/broken"; "http://localhost:3000/api/page";
     "http://localhost:3000/api/legacy"; "http://localhost:3000/api/todos";
     "http://localhost:3000/api/slow"].
Proof. reflexivity. Qed.

End AggregationProperties.

(** ** Properties of [getOrCreateOpenApiSpec] *)

Module CacheProperties.
Import JsString Js Lodash Routes Aggregation Cache Synthesis Statements JsFacts.

Section WithDeps.
Context `{Deps}.

Lemma readSpecFile_spec (w : World) :
  readSpecFile w
  = match file w with
    | Some (Json.Document doc) =>
        (true, mkWorld (file w) (writable w) doc (apiSpecGeneratedLogged w) (heap w))
    | _ => (false, w)
    end.
Proof. unfold readSpecFile. destruct (file w) as [[| doc] |]; reflexivity. Qed.

(** A development-mode call that finds the routes and whose probes all
    settle, in terms of the new document it builds. *)
Lemma development_pass (cfg : Config) (headers : Headers) (env : Env) (w : World)
    (listing : list string) (paths : props) :
  production env = false ->
  files env = Some listing ->
  generatePaths (pathNames cfg) headers listing (net env) = Some paths ->
  let w1 := snd (readSpecFile w) in
  let st1 := fst (newSpecOf cfg (heap w1) paths) in
  let newSpec := snd (newSpecOf cfg (heap w1) paths) in
  let probes :=
    ReadSpecFile :: ReadRoutesDir
    :: map Probe (probedUrls (pathNames cfg) headers listing) in
  getOrCreateOpenApiSpec cfg headers env w
  = if specDiffers cfg headers listing (net env) w then
      if writable w1 then
        mkOutcome
          (mkWorld (Some (Json.stringify (newDocument cfg headers listing (net env) w)))
             (writable w1) newSpec true st1)
          (probes
             ++ [Info (if fst (readSpecFile w) then specChanged else noSpecFound);
                 WriteSpecFile
                   (Json.stringify (newDocument cfg headers listing (net env) w))]
             ++ (if apiSpecGeneratedLogged w1 then [] else [Info specGenerated]))%list
          (Some newSpec)
      else
        mkOutcome
          (mkWorld (file w1) (writable w1) (openApiSpec w1)
             (apiSpecGeneratedLogged w1) st1)
          (probes
             ++ [Info (if fst (readSpecFile w) then specChanged else noSpecFound)])%list
          None
    else
      mkOutcome
        (mkWorld (file w1) (writable w1) (openApiSpec w1) true st1)
        (probes ++ (if apiSpecGeneratedLogged w1 then [] else [Info specUpToDate]))%list
        (Some (openApiSpec w1)).
Proof.
  intros Hprod Hfiles Hpaths. cbv zeta.
  unfold getOrCreateOpenApiSpec, specDiffers, newDocument.
  destruct (readSpecFile w) as [found w1]. cbn [fst snd].
  rewrite Hprod, Hfiles, Hpaths.
  destruct (newSpecOf cfg (heap w1) _) as [st1 newSpec]. reflexivity.
Qed.

(** A development-mode call one of whose probes never settles: the call
    never returns, and has done nothing but read the file and probe. *)
Lemma stalled_pass (cfg : Config) (headers : Headers) (env : Env) (w : World)
    (listing : list string) :
  production env = false ->
  files env = Some listing ->
  generatePaths (pathNames cfg) headers listing (net env) = None ->
  getOrCreateOpenApiSpec cfg headers env w
  = mkOutcome (snd (readSpecFile w))
      (ReadSpecFile :: ReadRoutesDir
       :: map Probe (probedUrls (pathNames cfg) headers listing))
      None
  /\ specDiffers cfg headers listing (net env) w = false
  /\ newDocument cfg headers listing (net env) w = JUndef.
Proof.
  intros Hprod Hfiles Hpaths.
  unfold getOrCreateOpenApiSpec, specDiffers, newDocument.
  destruct (readSpecFile w) as [found w1]. cbn [fst snd].
  now rewrite Hprod, Hfiles, Hpaths.
Qed.


Lemma specDiffers_aggregated (cfg : Config) (headers : Headers)
    (listing : list string) (net : Network) (w : World) :
  specDiffers cfg headers listing net w = true ->
  exists paths, generatePaths (pathNames cfg) headers listing net = Some paths.
Proof.
  unfold specDiffers.
  destruct (generatePaths (pathNames cfg) headers listing net) as [paths |];
    [now exists paths | discriminate].
Qed.

Lemma newDocument_aggregated (cfg : Config) (headers : Headers)
    (listing : list string) (net : Network) (w : World) :
  isDocument (newDocument cfg headers listing net w) = true ->
  exists paths, generatePaths (pathNames cfg) headers listing net = Some paths.
Proof.
  unfold newDocument.
  destruct (generatePaths (pathNames cfg) headers listing net) as [paths |];
    [now exists paths | discriminate].
Qed.


(** C3 (amended). In production mode every access reads the spec file
    again and does nothing else: no directory listing, no probe, no
    write, no notice.  It serves the document the file parses to at
    that access, and the previously served one when the file is missing
    or unparsable. *)
Theorem production_serves_the_file_as_it_is_now
    (cfg : Config) (headers : Headers) (env : Env) (w : World) :
  production env = true ->
  let o := getOrCreateOpenApiSpec cfg headers env w in
  trace o = [ReadSpecFile]
  /\ returned o
     = Some (match file w with
             | Some (Json.Document doc) => doc
             | _ => openApiSpec w
             end)
  /\ openApiSpec (world o)
     = match file w with
       | Some (Json.Document doc) => doc
       | _ => openApiSpec w
       end
  /\ file (world o) = file w
  /\ heap (world o) = heap w
  /\ apiSpecGeneratedLogged (world o) = apiSpecGeneratedLogged w.
Proof.
  intros Hprod o. subst o. unfold getOrCreateOpenApiSpec.
  rewrite readSpecFile_spec, Hprod.
  destruct (file w) as [[| doc] |] eqn:Hfile; simpl; rewrite ?Hfile;
    repeat split; reflexivity.
Qed.





End WithDeps.

#[local] Existing Instance Sample.deps.
Import Sample.

Lemma production_serves_the_file_as_it_is_now_witness :
  let o := getOrCreateOpenApiSpec (config None) headers inProduction
             (started (Some (Json.Document documentA)) JUndef) in
  trace o = [ReadSpecFile]
  /\ returned o = Some documentA
  /\ openApiSpec (world o) = documentA
  /\ file (world o) = Some (Json.Document documentA)
  /\ heap (world o) = heap (started (Some (Json.Document documentA)) JUndef)
  /\ apiSpecGeneratedLogged (world o) = false.
Proof.
  apply (production_serves_the_file_as_it_is_now (config None) headers inProduction
           (started (Some (Json.Document documentA)) JUndef)).
  reflexivity.
Defined.

(** C3 (counterexample). Two accesses in production mode, the spec file
    having been replaced in between: the second access reads the file
    again and serves the new document, not the one read at first. *)
Lemma production_rereads_a_replaced_file :
  let first := getOrCreateOpenApiSpec (config None) headers inProduction
                 (started (Some (Json.Document documentA)) JUndef) in
  let second := getOrCreateOpenApiSpec (config None) headers inProduction
                  (withFile (Some (Json.Document documentB)) (world first)) in
  returned first = Some documentA
  /\ trace second = [ReadSpecFile]
  /\ returned second = Some documentB
  /\ documentB <> documentA.
Proof. repeat split; try reflexivity. discriminate. Qed.


(** In that call the cached document is the one the first call built: it
    holds the configured [paths] object, into which the merge of line 252
    has written the path of the second route by the time of the test.
    The test finds no difference, though the document cached before the
    call had one path and the new one has two: nothing is written, and
    the call ends with a cached document of two paths and no file. *)
Example cached_paths_follow_the_merge :
  let cfg := config (Some overridesWithPaths) in
  let first := getOrCreateOpenApiSpec cfg headers development
                 (started None (JObj [])) in
  let w := withFile None (world first) in
  let o := getOrCreateOpenApiSpec cfg headers busy w in
  file (world first)
  = Some (Json.Document
            (JObj [("info", JObj [("title", JStr "Todos")]);
                   ("paths", todosFragment); ("openapi", JStr "3.0.1")]))
  /\ openApiSpec w
     = JObj [("info", JObj [("title", JStr "Todos")]);
             ("paths", JRef OverridePaths); ("openapi", JStr "3.0.1")]
  /\ resolve (heap w) (openApiSpec w)
     = JObj [("info", JObj [("title", JStr "Todos")]);
             ("paths", todosFragment); ("openapi", JStr "3.0.1")]
  /\ newDocument cfg headers busyListing busyNetwork w
     = JObj [("info", JObj [("title", JStr "Todos")]);
             ("paths",
              JObj [("/api/todos", JObj [("get", todosOperation)]);
                    ("/api/users", JObj [("get", JObj [("responses", JObj [])])])]);
             ("openapi", JStr "3.0.1")]
  /\ specDiffers cfg headers busyListing busyNetwork w = false
  /\ trace o
     = ReadSpecFile :: ReadRoutesDir
       :: map Probe (probedUrls (pathNames cfg) headers busyListing)
  /\ file (world o) = None
  /\ returned o = Some (openApiSpec w)
  /\ resolve (heap (world o)) (openApiSpec (world o))
     = newDocument cfg headers busyListing busyNetwork w.
Proof. vm_compute. repeat split; reflexivity. Qed.


(** A development-mode call in the deployment where [/api/broken] never
    ends its body: the call probes the seven routes and never returns;
    nothing is written or printed, and nothing is cached. *)
Example stalled_call_sample :
  let o := getOrCreateOpenApiSpec (config None) headers stalled
             (started None JUndef) in
  returned o = None
  /\ trace o
     = ReadSpecFile :: ReadRoutesDir
       :: map Probe (probedUrls (pathNames (config None)) headers busyListing)
  /\ world o = started None JUndef.
Proof. repeat split; reflexivity. Qed.

(** C8 (the code at the failing input). A configuration whose overrides
    have an empty [paths] object: after one development-mode call that
    object holds the path the route reported, [merge] having written into
    its first argument. *)
Theorem configured_paths_are_written :
  let cfg := config (Some overridesWithPaths) in
  let w := started None (JObj []) in
  let o := getOrCreateOpenApiSpec cfg headers development w in
  resolve (heap w) (ofOption (openApiSpecOverrides cfg))
  = JObj [("info", JObj [("title", JStr "Todos")]); ("paths", JObj [])]
  /\ resolve (heap (world o)) (ofOption (openApiSpecOverrides cfg))
     = JObj [("info", JObj [("title", JStr "Todos")]); ("paths", todosFragment)].
Proof. split; reflexivity. Qed.

End CacheProperties.

(** ** The model of [lodash.merge] on data held by value *)

Module MergeFacts.
Import JsString Js Lodash MergeNotions JsFacts ValueFacts.

(** *** The loops as folds *)

Lemma baseMerge_object (sps : props) (st : store) (object : json) :
  baseMerge (JObj sps) st object = mergeSteps sps (st, object).
Proof.
  unfold mergeSteps. cbn [baseMerge]. generalize (st, object).
  induction sps as [| [k v] sps IH]; intros acc; [reflexivity |].
  cbn [fold_left fst snd]. apply IH.
Qed.

Lemma baseMerge_array (ses : list json) (st : store) (object : json) :
  baseMerge (JArr ses) st object = mergeSteps (indexed 0 ses) (st, object).
Proof.
  unfold mergeSteps. cbn [baseMerge]. generalize (st, object). generalize 0%nat.
  induction ses as [| e ses IH]; intros i acc; [reflexivity |].
  cbn [fold_left indexed fst snd]. apply IH.
Qed.

(** *** Index keys *)


Lemma to_uint_not_nil (i : nat) : Nat.to_uint i <> Decimal.Nil.
Proof.
  pose proof (DecimalNat.Unsigned.to_of (Nat.to_uint i)) as Hn.
  rewrite DecimalNat.Unsigned.of_to in Hn. rewrite Hn.
  apply DecimalFacts.unorm_nonnil.
Qed.

Lemma indexOfKey_ofNat (i : nat) : indexOfKey (ofNat i) = Some i.
Proof.
  unfold indexOfKey.
  assert (Hu : NilZero.uint_of_string (ofNat i) = Some (Nat.to_uint i))
    by (apply NilZero.usu, to_uint_not_nil).
  rewrite Hu, DecimalNat.Unsigned.of_to. now rewrite String.eqb_refl.
Qed.




Lemma In_indexed (kv : string * json) (i : nat) (es : list json) :
  In kv (indexed i es) -> In (snd kv) es.
Proof.
  revert i. induction es as [| e es IH]; intros i; simpl; [tauto |].
  intros [<- | Hin]; [now left | right; eauto].
Qed.

(** *** Writing one element of an array *)





Lemma plain_setNth (i : nat) (v : json) (es : list json) :
  plain v = true -> forallb plain es = true -> forallb plain (setNth i v es) = true.
Proof.
  intros Hv. revert es. induction i as [| i IH]; intros [| e es]; simpl; intros Hes.
  - now rewrite Hv.
  - apply andb_prop in Hes. destruct Hes as [_ Hes]. now rewrite Hv, Hes.
  - apply IH. reflexivity.
  - apply andb_prop in Hes. destruct Hes as [-> Hes]. now apply IH.
Qed.

Lemma plain_nth (i : nat) (es : list json) :
  forallb plain es = true -> plain (nth i es JUndef) = true.
Proof.
  revert i. induction es as [| e es IH]; intros [| i]; simpl; try reflexivity;
    intros Hes; apply andb_prop in Hes; destruct Hes as [He Hes]; auto.
Qed.

(** *** Writing one property of an object *)


Lemma plain_set (k : string) (v : json) (ps : props) :
  plain v = true ->
  forallb (fun kv => plain (snd kv)) ps = true ->
  forallb (fun kv => plain (snd kv)) (set k v ps) = true.
Proof.
  intros Hv. induction ps as [| [k' v'] ps IH]; simpl; intros Hps.
  - now rewrite Hv.
  - apply andb_prop in Hps. destruct Hps as [Hv' Hps].
    destruct (String.eqb k k'); simpl.
    + now rewrite Hv, Hps.
    + now rewrite Hv', IH.
Qed.

Lemma plain_get (k : string) (v : json) (ps : props) :
  forallb (fun kv => plain (snd kv)) ps = true -> get k ps = Some v -> plain v = true.
Proof.
  intros Hps Hg. apply get_In in Hg. rewrite forallb_forall in Hps.
  apply (Hps (k, v) Hg).
Qed.

(** *** Reading and writing a key of a destination *)









Lemma plain_safeGet (object : json) (key : string) :
  plain object = true -> plain (safeGet object key) = true.
Proof.
  destruct object as [| | b | n | s | es | ps | l]; simpl; try reflexivity.
  - intros Hp. destruct (indexOfKey key); [now apply plain_nth |].
    now destruct (String.eqb key "length").
  - intros Hp. destruct (get key ps) eqn:Hg; [| reflexivity].
    now apply plain_get with (k := key) (ps := ps).
Qed.

Lemma plain_assign (object : json) (key : string) (value : json) :
  plain object = true -> plain value = true ->
  plain (baseAssignValue object key value) = true.
Proof.
  destruct object; simpl; auto.
  - intros Hp Hv. destruct (indexOfKey key); simpl; [now apply plain_setNth | assumption].
  - intros Hp Hv. now apply plain_set.
Qed.

Lemma plain_copyArray (value : json) (n : nat) :
  plain value = true -> plain (copyArray value n) = true.
Proof.
  intros Hp. unfold copyArray. simpl. apply forallb_forall. intros e He.
  apply in_map_iff in He. destruct He as [i [<- _]]. now apply plain_safeGet.
Qed.

(** *** One step on a destination held by value *)




(** *** The value a step assigns *)



(** *** Steps on a destination held by value *)

Section Steps.
Variable st : store.











End Steps.


End MergeFacts.

(** ** The model of [isEqual] on documents *)

Module EqualFacts.
Import JsString Js Lodash Statements JsFacts ValueFacts.

Lemma isEqual_array (xs ys : list json) :
  isEqual (JArr xs) (JArr ys) = true <-> Forall2 (fun x y => isEqual x y = true) xs ys.
Proof.
  cbn [isEqual]. revert ys.
  induction xs as [| x xs IH]; intros [| y ys]; split; intros Heq;
    try discriminate; try constructor; try (now inversion Heq).
  - apply andb_prop in Heq. tauto.
  - apply IH. apply andb_prop in Heq. tauto.
  - inversion Heq as [| ? ? ? ? Hxy Hrest]. subst.
    apply andb_true_intro. split; [assumption | now apply IH].
Qed.

Lemma isEqual_object (ps qs : props) :
  isEqual (JObj ps) (JObj qs) = true
  <-> List.length ps = List.length qs
      /\ forall k v, In (k, v) ps ->
                     exists v', get k qs = Some v' /\ isEqual v v' = true.
Proof.
  cbn [isEqual]. rewrite andb_true_iff, Nat.eqb_eq.
  apply and_iff_compat_l.
  induction ps as [| [k v] ps IH].
  - split; [intros _ k v [] | reflexivity].
  - split.
    + intros Heq k' v' [Hin | Hin].
      * injection Hin as <- <-.
        destruct (get k qs) as [o |]; [| discriminate].
        apply andb_prop in Heq. exists o. tauto.
      * destruct (get k qs) as [o |]; [| discriminate].
        apply andb_prop in Heq. destruct Heq as [_ Heq].
        apply IH; assumption.
    + intros Hall. destruct (Hall k v (or_introl eq_refl)) as [o [-> Ho]].
      rewrite Ho. simpl. apply IH. intros k' v' Hin. apply Hall. now right.
Qed.

(** A document equals itself. *)
Lemma isEqual_refl (v : json) : isDocument v = true -> isEqual v v = true.
Proof.
  induction v as [| | b | n | s | es IH | ps IH | l] using json_ind';
    intros Hdoc; try (simpl in Hdoc; discriminate); try reflexivity.
  - simpl. now destruct b.
  - simpl. apply Z.eqb_refl.
  - simpl. apply String.eqb_refl.
  - apply isEqual_array. simpl in Hdoc. rewrite forallb_forall in Hdoc.
    rewrite Forall_forall in IH.
    induction es as [| e es IHes]; constructor.
    + apply IH; [now left | apply Hdoc; now left].
    + apply IHes; intros x Hx; [apply IH | apply Hdoc]; now right.
  - apply isEqual_object. split; [reflexivity |].
    simpl in Hdoc. apply andb_prop in Hdoc. destruct Hdoc as [Huniq Hdoc].
    rewrite forallb_forall in Hdoc. rewrite Forall_forall in IH.
    intros k v Hin. exists v. split.
    + apply In_get; [now apply uniqueKeys_NoDup | assumption].
    + apply (IH (k, v) Hin). apply (Hdoc (k, v) Hin).
Qed.




End EqualFacts.

(** ** Merging the same paths twice *)

Module MergeAgain.
Import JsString Js Lodash MergeNotions Aggregation Cache Statements.
Import JsFacts ValueFacts MergeFacts.




(** *** The result does not depend on the store *)




(** *** The shared store *)

Lemma read_upd_same (st : store) (l : loc) (v : json) : upd st l v l = v.
Proof. now destruct l. Qed.


Lemma plain_upd (st : store) (l : loc) (v : json) :
  storeIsData st -> plain v = true -> storeIsData (upd st l v).
Proof.
  intros Hst Hv l'. destruct l, l'; simpl; try assumption;
    try apply (Hst DefaultResponse); apply (Hst OverridePaths).
Qed.

(** *** The aggregated paths are a document *)







(** *** Building the new document twice *)

Section WithDeps.
Context `{Deps}.


End WithDeps.

End MergeAgain.

(** ** A second pass over unchanged routes *)

Module CacheIdempotence.
Import JsString Js Lodash Routes Aggregation Cache Synthesis Statements.
Import JsFacts ValueFacts EqualFacts MergeAgain CacheProperties.

Section WithDeps.
Context `{Deps}.



End WithDeps.

#[local] Existing Instance Sample.deps.
Import Sample.





(** A spec file with the keys of the document in another order is left
    alone. *)
Example reordered_file_is_left_alone :
  trace (getOrCreateOpenApiSpec (config None) headers development
           (started
              (Some (Json.Document
                       (JObj [("paths", todosFragment); ("openapi", JStr "3.0.1")])))
              JUndef))
  = [ReadSpecFile; ReadRoutesDir; Probe "http://localhost:3000/api/todos";
     Info specUpToDate].
Proof. reflexivity. Qed.

Example reordered_sample :
  reordered
    (JObj [("paths", todosFragment); ("openapi", JStr "3.0.1")])
    documentB.
Proof.
  apply reordered_object
    with (qs := [("paths", todosFragment); ("openapi", JStr "3.0.1")]).
  - repeat constructor.
  - apply perm_swap.
Qed.

End CacheIdempotence.

(** ** Strings: occurrences and replacement *)

Module StringFacts.
Import JsString Notions.

Lemma occurs_app (c : ascii) (s t : string) :
  occurs c (s ++ t) = occurs c s || occurs c t.
Proof.
  induction s as [| x s IH]; simpl; [reflexivity |].
  now rewrite IH, orb_assoc.
Qed.

Lemma noneOf_app (cs : list ascii) (s t : string) :
  noneOf cs (s ++ t) = noneOf cs s && noneOf cs t.
Proof.
  unfold noneOf. induction cs as [| c cs IH]; simpl; [reflexivity |].
  rewrite IH, occurs_app, negb_orb.
  destruct (occurs c s), (occurs c t), (forallb _ cs), (forallb _ cs); reflexivity.
Qed.

Lemma noneOf_In (cs : list ascii) (c : ascii) (s : string) :
  noneOf cs s = true -> In c cs -> occurs c s = false.
Proof.
  unfold noneOf. rewrite forallb_forall. intros Hall Hin.
  specialize (Hall c Hin). now apply negb_true_iff.
Qed.

Lemma occurs_differ (c : ascii) (s t : string) :
  occurs c s = true -> occurs c t = false -> String.eqb s t = false.
Proof.
  intros Hs Ht. apply String.eqb_neq. intros ->. congruence.
Qed.

Lemma replaceAllChar_app (c d : ascii) (s t : string) :
  replaceAllChar c d (s ++ t) = replaceAllChar c d s ++ replaceAllChar c d t.
Proof. induction s as [| x s IH]; simpl; [reflexivity | now rewrite IH]. Qed.

Lemma replaceAllChar_absent (c d : ascii) (s : string) :
  occurs c s = false -> replaceAllChar c d s = s.
Proof.
  induction s as [| x s IH]; simpl; [reflexivity |].
  intros Ho. apply orb_false_iff in Ho. destruct Ho as [-> Ho]. now rewrite IH.
Qed.

Lemma replaceAllChar_again (c d : ascii) (s : string) :
  replaceAllChar c d (replaceAllChar c d s) = replaceAllChar c d s.
Proof.
  induction s as [| x s IH]; simpl; [reflexivity |]. rewrite IH. f_equal.
  destruct (Ascii.eqb x c) eqn:Ex; [| now rewrite Ex].
  destruct (Ascii.eqb d c); reflexivity.
Qed.

Lemma prefix_empty (t : string) : String.prefix "" t = true.
Proof. now destruct t. Qed.

Lemma prefix_app_same (p t : string) : String.prefix p (p ++ t) = true.
Proof.
  induction p as [| a p IH]; simpl; [apply prefix_empty |].
  now destruct (ascii_dec a a).
Qed.

Lemma drop_app_same (p t : string) : drop (String.length p) (p ++ t) = t.
Proof. induction p as [| a p IH]; simpl; auto. Qed.

(** A character that is not in the pattern ends every match. *)
Lemma prefix_app_stopper (c : ascii) (p s u : string) :
  occurs c p = false ->
  String.prefix p (s ++ String c u) = String.prefix p s.
Proof.
  revert s. induction p as [| a p IH]; intros s Hc;
    [now rewrite !prefix_empty |].
  simpl in Hc. apply orb_false_iff in Hc. destruct Hc as [Hac Hc].
  destruct s as [| b s]; simpl.
  - destruct (ascii_dec a c) as [-> | _]; [| reflexivity].
    now rewrite Ascii.eqb_refl in Hac.
  - destruct (ascii_dec a b); [now apply IH | reflexivity].
Qed.

Lemma includes_empty (a : ascii) (p : string) : includes (String a p) "" = false.
Proof. reflexivity. Qed.

Lemma includes_app_stopper (c a : ascii) (p s u : string) :
  occurs c (String a p) = false ->
  includes (String a p) (s ++ String c u)
  = includes (String a p) s || includes (String a p) u.
Proof.
  intros Hc. induction s as [| x s IH].
  - pose proof (prefix_app_stopper c (String a p) "" u Hc) as Hp.
    cbn [append] in Hp. cbn [append includes]. now rewrite Hp.
  - change (String x s ++ String c u) with (String x (s ++ String c u)).
    cbn [includes].
    change (String x (s ++ String c u)) with (String x s ++ String c u).
    rewrite prefix_app_stopper by assumption. rewrite IH.
    now rewrite !orb_assoc.
Qed.

Lemma includes_absent_head (a : ascii) (p s : string) :
  occurs a s = false -> includes (String a p) s = false.
Proof.
  induction s as [| x s IH]; [reflexivity |].
  simpl. intros Ho. apply orb_false_iff in Ho. destruct Ho as [Hx Ho].
  rewrite IH by assumption.
  destruct (ascii_dec a x) as [-> | _]; [| reflexivity].
  now rewrite Ascii.eqb_refl in Hx.
Qed.

Lemma replace_absent (pat rep s : string) :
  includes pat s = false -> replace pat rep s = s.
Proof.
  induction s as [| x s IH]; cbn [includes replace]; intros Hi;
    apply orb_false_iff in Hi; destruct Hi as [-> Hi]; [reflexivity |].
  now rewrite IH.
Qed.

(** [replace] rewrites the first occurrence: the text before it holds
    none, the first character of the pattern not occurring again in the
    pattern. *)
Lemma replace_first (a : ascii) (p rep s t : string) :
  occurs a p = false ->
  includes (String a p) s = false ->
  replace (String a p) rep (s ++ String a p ++ t) = s ++ rep ++ t.
Proof.
  intros Ha. induction s as [| x s IH]; intros Hi.
  - cbn [append replace].
    change (String a (p ++ t)) with (String a p ++ t).
    now rewrite prefix_app_same, drop_app_same.
  - cbn [includes] in Hi. apply orb_false_iff in Hi. destruct Hi as [Hp Hi].
    change (String x s ++ String a p ++ t) with (String x (s ++ String a p ++ t)).
    cbn [replace].
    change (String x (s ++ String a p ++ t)) with (String x s ++ String a (p ++ t)).
    assert (Hno : String.prefix (String a p) (String x s ++ String a (p ++ t)) = false).
    { simpl. simpl in Hp. destruct (ascii_dec a x); [| reflexivity].
      now rewrite prefix_app_stopper. }
    rewrite Hno. cbn [append]. f_equal. now apply IH.
Qed.

Lemma append_assoc (s t u : string) : (s ++ t) ++ u = s ++ t ++ u.
Proof. induction s as [| x s IH]; simpl; [reflexivity | now rewrite IH]. Qed.

Lemma append_empty (s : string) : s ++ "" = s.
Proof. induction s as [| x s IH]; simpl; [reflexivity | now rewrite IH]. Qed.

End StringFacts.

(** ** Further properties of the route discovery *)

Module RouteProperties.
Import JsString Routes Notions StringFacts.

Ltac same_text :=
  repeat (progress (rewrite ?append_assoc; cbn [append])); reflexivity.

Lemma lastSegmentAux_no_sep (sep : ascii) (acc s : string) :
  occurs sep acc = false -> occurs sep (lastSegmentAux sep acc s) = false.
Proof.
  revert acc. induction s as [| x s IH]; intros acc Hacc; simpl; [assumption |].
  destruct (Ascii.eqb x sep) eqn:Ex; apply IH; [reflexivity |].
  rewrite occurs_app, Hacc. simpl. now rewrite Ex.
Qed.

Lemma reservedFile_no_slash (p : option string) :
  occurs slash (reservedFile p) = false.
Proof.
  destruct p as [s |]; [| reflexivity].
  unfold reservedFile, lastSegment. rewrite occurs_app.
  now rewrite lastSegmentAux_no_sep.
Qed.

(** X1. The three documentation routes are recognised by their file name
    alone, compared with the whole relative path: a route file below the
    top level is never taken for one of them, and is left out exactly when
    its path holds three dots. *)
Theorem docs_route_names_match_top_level_files_only
    (cfg : PathConfig) (dir name : string) :
  filterApiRoutes cfg (dir ++ "/" ++ name)
  = negb (includes "..." (dir ++ "/" ++ name)).
Proof.
  assert (Hslash : occurs slash (dir ++ "/" ++ name) = true).
  { rewrite occurs_app. simpl. apply orb_true_r. }
  unfold filterApiRoutes.
  rewrite !(occurs_differ slash _ _ Hslash (reservedFile_no_slash _)).
  now destruct (includes "..." (dir ++ "/" ++ name)).
Qed.

Lemma includes_index_after_api (s : string) :
  includes "/index" ("/api" ++ s) = includes "/index" s.
Proof. reflexivity. Qed.

Lemma includes_index_before_extension (s : string) :
  includes "/index" (s ++ ".ts") = includes "/index" s.
Proof.
  change ".ts" with (String "."%char "ts").
  rewrite includes_app_stopper by reflexivity.
  apply orb_false_r.
Qed.

Lemma replace_extension (s : string) :
  occurs "."%char s = false -> replace ".ts" "" (s ++ ".ts") = s.
Proof.
  intros Hdot.
  pose proof (replace_first "."%char "ts" "" s "" eq_refl
                (includes_absent_head _ _ _ Hdot)) as Hr.
  cbn [append] in Hr. rewrite Hr. apply append_empty.
Qed.

Lemma replace_bracket_absent (c : ascii) (rep s : string) :
  occurs c s = false -> replace (String c "") rep s = s.
Proof. intros Hc. apply replace_absent. now apply includes_absent_head. Qed.

(** X2. A route file whose path holds no backslash, bracket or dot and no
    segment that begins with [index] gives the route [/api/] followed by
    the path without its [.ts]. *)
Theorem route_of_plain_file (name : string) :
  noneOf special name = true ->
  includes "/index" ("/" ++ name) = false ->
  routeOfFile (name ++ ".ts") = "/api/" ++ name.
Proof.
  intros Hplain Hindex.
  assert (Hb : occurs backslash name = false)
    by (apply (noneOf_In special); [assumption | simpl; tauto]).
  assert (Ho : occurs "["%char name = false)
    by (apply (noneOf_In special); [assumption | simpl; tauto]).
  assert (Hc : occurs "]"%char name = false)
    by (apply (noneOf_In special); [assumption | simpl; tauto]).
  assert (Hd : occurs "."%char name = false)
    by (apply (noneOf_In special); [assumption | simpl; tauto]).
  unfold routeOfFile.
  rewrite <- append_assoc.
  rewrite replaceAllChar_absent
    by (rewrite !occurs_app, Hb; reflexivity).
  rewrite (replace_absent "/index")
    by (rewrite includes_index_before_extension;
        change ("/api/" ++ name) with ("/api" ++ ("/" ++ name));
        now rewrite includes_index_after_api).
  rewrite (replace_bracket_absent "["%char)
    by (rewrite !occurs_app, Ho; reflexivity).
  rewrite (replace_bracket_absent "]"%char)
    by (rewrite !occurs_app, Hc; reflexivity).
  apply replace_extension. rewrite occurs_app, Hd. reflexivity.
Qed.

Lemma route_of_plain_file_witness :
  routeOfFile ("users/list" ++ ".ts") = "/api/" ++ "users/list".
Proof. apply (route_of_plain_file "users/list"); reflexivity. Defined.

(** X3. The text [/index] is deleted where it first stands in [/] followed
    by the path, whatever follows it there: [index.ts] gives [/api] and
    [users/index.ts] gives [/api/users], and a file or directory whose
    name only begins with [index] loses these five letters and the slash
    before them as well. *)
Theorem route_drops_first_index (pre rest file : string) :
  "/" ++ file = pre ++ "/index" ++ rest ++ ".ts" ->
  noneOf special pre = true ->
  noneOf special rest = true ->
  includes "/index" pre = false ->
  routeOfFile file = "/api" ++ pre ++ rest.
Proof.
  intros Hfile Hpre Hrest Hindex.
  assert (Hnone : forall c, In c special ->
                            occurs c pre = false /\ occurs c rest = false)
    by (intros c Hin; split; now apply (noneOf_In special)).
  destruct (Hnone backslash) as [Hb Hb']; [simpl; tauto |].
  destruct (Hnone "["%char) as [Ho Ho']; [simpl; tauto |].
  destruct (Hnone "]"%char) as [Hc Hc']; [simpl; tauto |].
  destruct (Hnone "."%char) as [Hd Hd']; [simpl; tauto |].
  unfold routeOfFile.
  change ("/api/" ++ file) with ("/api" ++ ("/" ++ file)). rewrite Hfile.
  rewrite replaceAllChar_absent
    by (rewrite !occurs_app, Hb, Hb'; reflexivity).
  rewrite <- (append_assoc "/api" pre).
  rewrite (replace_first "/"%char "index" "" ("/api" ++ pre) (rest ++ ".ts") eq_refl)
    by now rewrite includes_index_after_api.
  change ("" ++ rest ++ ".ts") with (rest ++ ".ts").
  rewrite (replace_bracket_absent "["%char)
    by (rewrite !occurs_app, Ho, Ho'; reflexivity).
  rewrite (replace_bracket_absent "]"%char)
    by (rewrite !occurs_app, Hc, Hc'; reflexivity).
  rewrite <- (append_assoc _ rest ".ts").
  rewrite replace_extension by (rewrite !occurs_app, Hd, Hd'; reflexivity).
  apply append_assoc.
Qed.

Lemma route_drops_first_index_witness :
  routeOfFile "index.ts" = "/api" ++ "" ++ ""
  /\ routeOfFile "users/index.ts" = "/api" ++ "/users" ++ ""
  /\ routeOfFile "users/indexes.ts" = "/api" ++ "/users" ++ "es".
Proof.
  split; [| split].
  - apply (route_drops_first_index "" "" "index.ts"); reflexivity.
  - apply (route_drops_first_index "/users" "" "users/index.ts"); reflexivity.
  - apply (route_drops_first_index "/users" "es" "users/indexes.ts"); reflexivity.
Defined.

(** X4. The first bracket pair of a path becomes a brace pair: with no
    bracket before it, no closing bracket inside it and neither backslash
    nor dot nor [/index] anywhere, the route is [/api/] followed by the
    path without its [.ts], the first [[] and the first []] rewritten and
    everything after them kept as it is. *)
Theorem route_of_first_dynamic_segment (pre p post : string) :
  noneOf special pre = true ->
  noneOf [backslash; "]"%char; "."%char] p = true ->
  noneOf [backslash; "."%char] post = true ->
  includes "/index" ("/" ++ pre ++ "[" ++ p ++ "]" ++ post) = false ->
  routeOfFile (pre ++ "[" ++ p ++ "]" ++ post ++ ".ts")
  = "/api/" ++ pre ++ "{" ++ p ++ "}" ++ post.
Proof.
  intros Hpre Hp Hpost Hindex.
  assert (Hb : occurs backslash pre = false /\ occurs backslash p = false
               /\ occurs backslash post = false).
  { repeat split;
      [apply (noneOf_In special) | apply (noneOf_In [backslash; "]"%char; "."%char])
       | apply (noneOf_In [backslash; "."%char])]; try assumption; simpl; tauto. }
  assert (Hd : occurs "."%char pre = false /\ occurs "."%char p = false
               /\ occurs "."%char post = false).
  { repeat split;
      [apply (noneOf_In special) | apply (noneOf_In [backslash; "]"%char; "."%char])
       | apply (noneOf_In [backslash; "."%char])]; try assumption; simpl; tauto. }
  assert (Ho : occurs "["%char pre = false)
    by (apply (noneOf_In special); [assumption | simpl; tauto]).
  assert (Hc : occurs "]"%char pre = false /\ occurs "]"%char p = false).
  { split; [apply (noneOf_In special) | apply (noneOf_In [backslash; "]"%char; "."%char])];
      try assumption; simpl; tauto. }
  destruct Hb as [Hb1 [Hb2 Hb3]]. destruct Hd as [Hd1 [Hd2 Hd3]].
  destruct Hc as [Hc1 Hc2].
  unfold routeOfFile.
  rewrite replaceAllChar_absent
    by (rewrite !occurs_app, Hb1, Hb2, Hb3; reflexivity).
  rewrite (replace_absent "/index").
  2:{ replace ("/api/" ++ pre ++ "[" ++ p ++ "]" ++ post ++ ".ts")
        with ("/api" ++ ("/" ++ pre ++ "[" ++ p ++ "]" ++ post) ++ ".ts")
        by same_text.
      rewrite includes_index_after_api, includes_index_before_extension.
      exact Hindex. }
  rewrite <- (append_assoc "/api/" pre).
  rewrite (replace_first "["%char "" "{" ("/api/" ++ pre) (p ++ "]" ++ post ++ ".ts")
             eq_refl)
    by (apply includes_absent_head; rewrite occurs_app, Ho; reflexivity).
  replace (("/api/" ++ pre) ++ "{" ++ p ++ "]" ++ post ++ ".ts")
    with (("/api/" ++ pre ++ "{" ++ p) ++ "]" ++ post ++ ".ts")
    by same_text.
  rewrite (replace_first "]"%char "" "}" ("/api/" ++ pre ++ "{" ++ p) (post ++ ".ts")
             eq_refl)
    by (apply includes_absent_head; rewrite !occurs_app, Hc1, Hc2; reflexivity).
  replace (("/api/" ++ pre ++ "{" ++ p) ++ "}" ++ post ++ ".ts")
    with (("/api/" ++ pre ++ "{" ++ p ++ "}" ++ post) ++ ".ts")
    by same_text.
  apply replace_extension. rewrite !occurs_app, Hd1, Hd2, Hd3. reflexivity.
Qed.

Lemma route_of_first_dynamic_segment_witness :
  routeOfFile ("users/" ++ "[" ++ "id" ++ "]" ++ "/posts/[postId]" ++ ".ts")
  = "/api/" ++ "users/" ++ "{" ++ "id" ++ "}" ++ "/posts/[postId]".
Proof.
  apply (route_of_first_dynamic_segment "users/" "id" "/posts/[postId]");
    reflexivity.
Defined.

(** X5. Backslashes count as slashes: a path written with the separator of
    Windows gives the route of the same path written with slashes. *)
Theorem route_of_windows_path (file : string) :
  routeOfFile (replaceAllChar backslash slash file) = routeOfFile file.
Proof.
  unfold routeOfFile. do 4 f_equal.
  rewrite !(replaceAllChar_app _ _ "/api/"). f_equal.
  apply replaceAllChar_again.
Qed.

End RouteProperties.

(** ** Properties of the directory walk *)

Module WalkProperties.
Import JsString Walk Notions.

Lemma Dir_ind' (P : Dir -> Prop) :
  P Unreadable ->
  (forall dirents,
     (forall name sub, In (Directory name sub) dirents -> P sub) ->
     P (Entries dirents)) ->
  forall content, P content.
Proof.
  intros Hu He. fix self 1. intros [| dirents]; [exact Hu |].
  apply He. induction dirents as [| dirent dirents IH]; intros name sub Hin;
    [destruct Hin |].
  destruct Hin as [Heq | Hin]; [| now apply (IH name sub)].
  destruct dirent as [other | name' sub']; [discriminate |].
  injection Heq as _ <-. apply self.
Qed.

Lemma flat_Some (files : list (option (list string))) (paths : list string) :
  flat files = Some paths ->
  forall p, In p paths <-> exists ps, In (Some ps) files /\ In p ps.
Proof.
  revert paths. induction files as [| [ps |] files IH]; intros paths Hflat p.
  - injection Hflat as <-. split; [intros [] | intros [ps [[] _]]].
  - simpl in Hflat. destruct (flat files) as [rest |]; [| discriminate].
    injection Hflat as <-. rewrite in_app_iff, (IH rest eq_refl p). split.
    + intros [Hin | [ps' [Hin' Hp]]].
      * exists ps. split; [now left | assumption].
      * exists ps'. split; [now right | assumption].
    + intros [ps' [[Heq | Hin'] Hp]].
      * injection Heq as ->. now left.
      * right. now exists ps'.
  - discriminate.
Qed.

Lemma flat_None (files : list (option (list string))) :
  flat files = None <-> In None files.
Proof.
  induction files as [| [ps |] files IH]; simpl.
  - split; [discriminate | tauto].
  - destruct (flat files) as [rest |].
    + split; [discriminate |]. intros [Heq | Hin]; [discriminate |].
      now apply IH in Hin.
    + split; [intros _; right; now apply IH | reflexivity].
  - split; [now left | reflexivity].
Qed.

Lemma walk_fails_iff (sep : ascii) (content : Dir) :
  forall dir, getNestedApiRoutes sep dir content = None <-> readable content = false.
Proof.
  induction content as [| dirents IH] using Dir_ind'; intros dir.
  - split; reflexivity.
  - cbn [getNestedApiRoutes readable]. rewrite flat_None, in_map_iff. split.
    + intros [dirent [Hnone Hin]].
      destruct (forallb _ dirents) eqn:Hall; [| reflexivity].
      rewrite forallb_forall in Hall. specialize (Hall dirent Hin).
      destruct dirent as [name | name sub]; [discriminate |].
      apply (IH name sub Hin) in Hnone. congruence.
    + intros Hall.
      destruct (forallb _ dirents) eqn:Hall' in Hall; [discriminate |].
      assert (Hex : exists dirent, In dirent dirents
                      /\ match dirent with
                         | Directory _ sub => readable sub
                         | File _ => true
                         end = false).
      { clear -Hall'. induction dirents as [| d ds IHds]; [discriminate |].
        simpl in Hall'. apply andb_false_iff in Hall'.
        destruct Hall' as [Hd | Hds].
        - exists d. split; [now left | assumption].
        - destruct (IHds Hds) as [d' [Hin Hd']]. exists d'. split; [now right | assumption]. }
      destruct Hex as [dirent [Hin Hbad]]. exists dirent. split; [| assumption].
      destruct dirent as [name | name sub]; [discriminate |].
      now apply (IH name sub Hin).
Qed.

(** X6. When the walk returns, it returns the paths of the entries that
    are not directories, at any depth, and nothing else: each is the
    directory it started from and the names on the way down to the entry,
    joined with the separator. *)
Theorem walk_lists_the_files_of_the_tree
    (sep : ascii) (content : Dir) (dir : string) (files : list string)
    (path : string) :
  getNestedApiRoutes sep dir content = Some files ->
  In path files
  <-> exists names, holds content names /\ path = fold_left (join sep) names dir.
Proof.
  revert dir files path.
  induction content as [| dirents IH] using Dir_ind'; intros dir files path Hwalk;
    [discriminate |].
  cbn [getNestedApiRoutes] in Hwalk.
  rewrite (flat_Some _ _ Hwalk path). split.
  - intros [ps [Hin Hp]]. apply in_map_iff in Hin.
    destruct Hin as [dirent [Hps Hin]].
    destruct dirent as [name | name sub]; cbn [direntName] in Hps.
    + injection Hps as <-. destruct Hp as [<- | []].
      exists [name]. split; [now constructor | reflexivity].
    + apply (IH name sub Hin _ _ path Hps) in Hp.
      destruct Hp as [names [Hholds ->]].
      exists (name :: names). split; [| reflexivity].
      now apply holds_below with (sub := sub).
  - intros [names [Hholds ->]].
    inversion Hholds as [ds name Hin | ds name sub names' Hin Hsub]; subst.
    + exists [join sep dir name]. split; [| now left].
      apply in_map_iff. exists (File name). now split.
    + destruct (getNestedApiRoutes sep (join sep dir name) sub) as [ps |] eqn:Hsubwalk.
      * exists ps. split.
        -- apply in_map_iff. exists (Directory name sub). now split.
        -- apply (IH name sub Hin _ _ _ Hsubwalk). now exists names'.
      * exfalso.
        assert (Hnone : In None
                  (map (fun dirent =>
                          match dirent with
                          | Directory _ sub0 =>
                              getNestedApiRoutes sep (join sep dir (direntName dirent)) sub0
                          | File _ => Some [join sep dir (direntName dirent)]
                          end) dirents)).
        { apply in_map_iff. exists (Directory name sub). now split. }
        apply flat_None in Hnone. congruence.
Qed.

Lemma walk_lists_the_files_of_the_tree_witness :
  In "users/[id].ts" ["index.ts"; "users/index.ts"; "users/[id].ts"]
  <-> exists names,
        holds Examples.routesTree names
        /\ "users/[id].ts" = fold_left (join "/"%char) names "".
Proof.
  apply (walk_lists_the_files_of_the_tree "/"%char Examples.routesTree ""
           ["index.ts"; "users/index.ts"; "users/[id].ts"] "users/[id].ts").
  reflexivity.
Defined.

End WalkProperties.

(** ** Further properties of the aggregation *)

Module AggregationCoverage.
Import JsString Js Lodash Routes Aggregation Statements JsFacts AggregationProperties.

Lemma has_assignProps (k : string) (acc ps : props) :
  has k (assignProps acc ps) = has k acc || has k ps.
Proof.
  unfold assignProps. revert acc.
  induction ps as [| [k' v] ps IH]; intros acc; cbn [fold_left fst snd].
  - unfold has at 3. simpl. now rewrite orb_false_r.
  - rewrite IH. unfold has. simpl.
    destruct (String.eqb k k') eqn:E.
    + apply String.eqb_eq in E. subst k'. rewrite get_set_same.
      now rewrite orb_true_r.
    + rewrite get_set_other by now apply String.eqb_neq. reflexivity.
Qed.

Lemma has_absorb_inv (k : string) (paths : props) (outcome : ProbeOutcome) :
  has k (absorb paths outcome) = true ->
  has k paths = true
  \/ exists data, outcome = Responded 200 (Some data)
                  /\ isPathItemObject data = true
                  /\ has k (ownProps (member data "nextRestFrameworkPaths")) = true.
Proof.
  destruct outcome as [| | status [data |] | status]; simpl; auto.
  destruct (Z.eqb_spec status 200) as [-> | Hne]; [| auto].
  destruct (isPathItemObject data) eqn:Hobj; [| auto]. simpl.
  rewrite !has_assignProps. simpl. intros Hk.
  apply orb_true_iff in Hk. destruct Hk as [Hk | Hk]; [now left |].
  right. now exists data.
Qed.

(** X7. The aggregated paths are the reported ones: a path is among
    those [generatePaths] returns exactly when the probe of some route
    ended with status 200 and a body whose [nextRestFrameworkPaths] has
    that path. *)
Theorem aggregated_paths_are_the_reported_ones
    (cfg : PathConfig) (headers : Headers) (files : list string) (net : Network)
    (paths : props) (path : string) :
  generatePaths cfg headers files net = Some paths ->
  has path paths = true
  <-> exists url data,
        In url (settle net (probedUrls cfg headers files))
        /\ fetch net url = Responded 200 (Some data)
        /\ isPathItemObject data = true
        /\ has path (ownProps (member data "nextRestFrameworkPaths")) = true.
Proof.
  intros Hsome. apply generatePaths_Some in Hsome. destruct Hsome as [-> _]. split.
  - generalize (settle net (probedUrls cfg headers files)). intros urls.
    assert (Hgen : forall acc,
               has path (fold_left absorb (map (fetch net) urls) acc) = true ->
               has path acc = true
               \/ exists url data,
                    In url urls /\ fetch net url = Responded 200 (Some data)
                    /\ isPathItemObject data = true
                    /\ has path (ownProps (member data "nextRestFrameworkPaths")) = true).
    { induction urls as [| url urls IH]; intros acc Hk; [now left |].
      cbn [map fold_left] in Hk. destruct (IH _ Hk) as [Hacc | [url' [data [Hin Hrest]]]].
      - apply has_absorb_inv in Hacc. destruct Hacc as [Hacc | [data [Hf Hrest]]].
        + now left.
        + right. exists url, data. split; [now left | now split].
      - right. exists url', data. split; [now right | assumption]. }
    intros Hk. destruct (Hgen [] Hk) as [Hempty | Hex]; [discriminate | exact Hex].
  - intros [url [data [Hin [Hfetch [Hobj Hk]]]]].
    apply has_fold_absorb_reported with (data := data); try assumption.
    rewrite <- Hfetch. now apply in_map.
Qed.

Import Sample.

Lemma aggregated_paths_are_the_reported_ones_witness :
  (has "/api/users"
     [("/api/users", JObj [("get", JObj [("responses", JObj [])])]);
      ("/api/todos", JObj [("get", todosOperation)])] = true
   <-> exists url data,
         In url (settle busyNetwork
                   (probedUrls (Cache.pathNames (config None)) headers busyListing))
         /\ fetch busyNetwork url = Responded 200 (Some data)
         /\ isPathItemObject data = true
         /\ has "/api/users" (ownProps (member data "nextRestFrameworkPaths")) = true)
  /\ (has "/api/broken"
        [("/api/users", JObj [("get", JObj [("responses", JObj [])])]);
         ("/api/todos", JObj [("get", todosOperation)])] = true
      <-> exists url data,
            In url (settle busyNetwork
                      (probedUrls (Cache.pathNames (config None)) headers busyListing))
            /\ fetch busyNetwork url = Responded 200 (Some data)
            /\ isPathItemObject data = true
            /\ has "/api/broken" (ownProps (member data "nextRestFrameworkPaths")) = true).
Proof.
  split.
  - apply (aggregated_paths_are_the_reported_ones (Cache.pathNames (config None))
             headers busyListing busyNetwork). reflexivity.
  - apply (aggregated_paths_are_the_reported_ones (Cache.pathNames (config None))
             headers busyListing busyNetwork). reflexivity.
Defined.

End AggregationCoverage.

(** ** Further properties of [getOrCreateOpenApiSpec] *)

Module CacheCoverage.
Import JsString Js Lodash Routes Aggregation Cache Synthesis Statements JsFacts.
Import Walk Notions CacheProperties.

Section WithDeps.
Context `{Deps}.

Lemma probes_hold_no_notice (message : string) (urls : list string) :
  ~ In (Info message) (ReadSpecFile :: ReadRoutesDir :: map Probe urls).
Proof.
  intros [Hin | [Hin | Hin]]; try discriminate.
  apply in_map_iff in Hin. destruct Hin as [url [Hurl _]]. discriminate.
Qed.

Lemma probes_hold_no_write (content : Json.text) (urls : list string) :
  ~ In (WriteSpecFile content) (ReadSpecFile :: ReadRoutesDir :: map Probe urls).
Proof.
  intros [Hin | [Hin | Hin]]; try discriminate.
  apply in_map_iff in Hin. destruct Hin as [url [Hurl _]]. discriminate.
Qed.

Lemma readSpecFile_keeps (w : World) :
  file (snd (readSpecFile w)) = file w
  /\ writable (snd (readSpecFile w)) = writable w
  /\ apiSpecGeneratedLogged (snd (readSpecFile w)) = apiSpecGeneratedLogged w
  /\ heap (snd (readSpecFile w)) = heap w
  /\ openApiSpec (snd (readSpecFile w))
     = match file w with
       | Some (Json.Document doc) => doc
       | _ => openApiSpec w
       end.
Proof.
  rewrite readSpecFile_spec.
  destruct (file w) as [[| doc] |] eqn:Hfile; cbn [snd file writable openApiSpec
    apiSpecGeneratedLogged heap]; rewrite ?Hfile; repeat split; reflexivity.
Qed.

Lemma readSpecFile_found (w : World) :
  fst (readSpecFile w) = true <-> specFileFound w.
Proof.
  rewrite readSpecFile_spec. unfold specFileFound.
  destruct (file w) as [[| doc] |]; cbn [fst]; split; try discriminate;
    try (intros [doc' Hdoc]; discriminate).
  - intros _. now exists doc.
  - reflexivity.
Qed.

(** X8. When a directory of the routes tree cannot be read, at whatever
    depth, a development-mode call throws before any probe: nothing is
    written or printed; the spec file has been read into the cached
    document by then. *)
Theorem unreadable_routes_directory_throws
    (cfg : Config) (headers : Headers) (sep : ascii) (root : Dir)
    (network : Network) (w : World) :
  readable root = false ->
  let env := mkEnv false (getNestedApiRoutes sep "" root) network in
  let o := getOrCreateOpenApiSpec cfg headers env w in
  returned o = None
  /\ trace o = [ReadSpecFile; ReadRoutesDir]
  /\ file (world o) = file w
  /\ heap (world o) = heap w
  /\ apiSpecGeneratedLogged (world o) = apiSpecGeneratedLogged w
  /\ openApiSpec (world o)
     = match file w with
       | Some (Json.Document doc) => doc
       | _ => openApiSpec w
       end.
Proof.
  intros Hbad env o. subst env o.
  apply (WalkProperties.walk_fails_iff sep root "") in Hbad.
  unfold getOrCreateOpenApiSpec. cbn [production files]. rewrite Hbad.
  destruct (readSpecFile_keeps w) as [Hf [_ [Hl [Hh Hs]]]].
  destruct (readSpecFile w) as [found w1]. cbn [snd] in *.
  cbn [returned trace world]. repeat split; assumption.
Qed.

(** X9. The two closing notices are printed once in the life of a
    process: a development-mode call that returns sets the flag, and once
    the flag is set no call prints [API spec generated successfully!] or
    [API spec up to date, skipping generation.] or clears the flag. *)
Theorem closing_notice_is_printed_once
    (cfg : Config) (headers : Headers) (env : Env) (w : World) :
  let o := getOrCreateOpenApiSpec cfg headers env w in
  (production env = false -> returned o <> None ->
   apiSpecGeneratedLogged (world o) = true)
  /\ (apiSpecGeneratedLogged w = true ->
      ~ In (Info specGenerated) (trace o)
      /\ ~ In (Info specUpToDate) (trace o)
      /\ apiSpecGeneratedLogged (world o) = true).
Proof.
  intros o. subst o.
  destruct (readSpecFile_keeps w) as [_ [_ [Hl _]]].
  destruct (production env) eqn:Hprod.
  - split; [discriminate |]. intros Hflag.
    unfold getOrCreateOpenApiSpec. rewrite Hprod.
    destruct (readSpecFile w) as [found w1]. cbn [snd] in Hl.
    cbn [trace world]. rewrite Hl. repeat split; try assumption;
      intros [Hin | []]; discriminate.
  - destruct (files env) as [listing |] eqn:Hfiles.
    + destruct (generatePaths (pathNames cfg) headers listing (net env))
        as [paths |] eqn:Hpaths;
        [| destruct (stalled_pass cfg headers env w listing Hprod Hfiles Hpaths)
             as [Heq _];
           rewrite Heq; cbn [returned world trace]; rewrite Hl;
           split; [intros _ Hret; now elim Hret |];
           intros Hflag; repeat split; try assumption;
           apply probes_hold_no_notice].
      rewrite (development_pass cfg headers env w listing paths Hprod Hfiles Hpaths).
      rewrite Hl.
      destruct (specDiffers cfg headers listing (net env) w);
        [destruct (writable (snd (readSpecFile w))) |];
        cbn [returned world trace apiSpecGeneratedLogged];
        (split; [try reflexivity; intros _ Hret; now elim Hret |]);
        intros Hflag; rewrite ?Hflag;
        repeat split; try reflexivity;
        intros Hin; apply in_app_or in Hin; destruct Hin as [Hin | Hin];
        try (now apply probes_hold_no_notice in Hin);
        destruct (fst (readSpecFile w)); simpl in Hin;
        intuition discriminate.
    + split.
      * unfold getOrCreateOpenApiSpec. rewrite Hprod, Hfiles.
        destruct (readSpecFile w). cbn [returned]. intros _ Hret. now elim Hret.
      * intros Hflag. unfold getOrCreateOpenApiSpec. rewrite Hprod, Hfiles.
        destruct (readSpecFile w) as [found w1]. cbn [snd] in Hl.
        cbn [trace world]. rewrite Hl.
        repeat split; try assumption; intros [Hin | [Hin | []]]; discriminate.
Qed.

(** X10. The opening notice of a development-mode call tells whether the
    spec file could be read: [API spec changed, regenerating openapi.json]
    is printed exactly when the cached document differs from the new one
    and the file was parsed, [No API spec found, generating openapi.json]
    exactly when it differs and the file is missing or is not JSON. *)
Theorem opening_notice_tells_whether_the_file_was_read
    (cfg : Config) (headers : Headers) (env : Env) (w : World)
    (listing : list string) :
  production env = false ->
  files env = Some listing ->
  let o := getOrCreateOpenApiSpec cfg headers env w in
  (In (Info specChanged) (trace o)
   <-> specDiffers cfg headers listing (net env) w = true /\ specFileFound w)
  /\ (In (Info noSpecFound) (trace o)
      <-> specDiffers cfg headers listing (net env) w = true /\ ~ specFileFound w).
Proof.
  intros Hprod Hfiles o. subst o.
  destruct (generatePaths (pathNames cfg) headers listing (net env))
    as [paths |] eqn:Hpaths;
    [| destruct (stalled_pass cfg headers env w listing Hprod Hfiles Hpaths)
         as [Heq [Hsame _]];
       rewrite Heq, Hsame; cbn [trace];
       split; split; try (intros [Hd _]; discriminate);
       intros Hin; now apply probes_hold_no_notice in Hin].
  rewrite (development_pass cfg headers env w listing paths Hprod Hfiles Hpaths).
  pose proof (readSpecFile_found w) as Hfound.
  assert (Hcases :
            forall (found : bool) (rest : list Event),
              (forall message, In (Info message) rest ->
                 message = specGenerated \/ message = specUpToDate) ->
              (In (Info specChanged)
                 ((ReadSpecFile :: ReadRoutesDir
                   :: map Probe (probedUrls (pathNames cfg) headers listing))
                  ++ Info (if found then specChanged else noSpecFound) :: rest)
               <-> found = true)
              /\ (In (Info noSpecFound)
                    ((ReadSpecFile :: ReadRoutesDir
                      :: map Probe (probedUrls (pathNames cfg) headers listing))
                     ++ Info (if found then specChanged else noSpecFound) :: rest)
                  <-> found = false)).
  { intros found rest Hrest. split; split.
    - intros Hin. apply in_app_or in Hin. destruct Hin as [Hin | [Hin | Hin]].
      + now apply probes_hold_no_notice in Hin.
      + destruct found; [reflexivity | discriminate].
      + apply Hrest in Hin. destruct Hin; discriminate.
    - intros ->. apply in_or_app. right. now left.
    - intros Hin. apply in_app_or in Hin. destruct Hin as [Hin | [Hin | Hin]].
      + now apply probes_hold_no_notice in Hin.
      + destruct found; [discriminate | reflexivity].
      + apply Hrest in Hin. destruct Hin; discriminate.
    - intros ->. apply in_or_app. right. now left. }
  destruct (specDiffers cfg headers listing (net env) w).
  - assert (Hgoal :
              forall rest,
                (forall message, In (Info message) rest ->
                   message = specGenerated \/ message = specUpToDate) ->
                (In (Info specChanged)
                   ((ReadSpecFile :: ReadRoutesDir
                     :: map Probe (probedUrls (pathNames cfg) headers listing))
                    ++ Info (if fst (readSpecFile w) then specChanged else noSpecFound)
                       :: rest)
                 <-> true = true /\ specFileFound w)
                /\ (In (Info noSpecFound)
                      ((ReadSpecFile :: ReadRoutesDir
                        :: map Probe (probedUrls (pathNames cfg) headers listing))
                       ++ Info (if fst (readSpecFile w) then specChanged else noSpecFound)
                          :: rest)
                    <-> true = true /\ ~ specFileFound w)).
    { intros rest Hrest.
      destruct (Hcases (fst (readSpecFile w)) rest Hrest) as [Hc Hn].
      rewrite Hc, Hn, <- Hfound.
      destruct (fst (readSpecFile w)); split; split; try tauto;
        try (intros [_ Hne]; now elim Hne); intuition congruence. }
    destruct (writable (snd (readSpecFile w))); cbn [trace].
    + apply Hgoal. intros message [Hin | Hin]; [discriminate |].
      destruct (apiSpecGeneratedLogged (snd (readSpecFile w))); [destruct Hin |].
      destruct Hin as [Hin | []]. injection Hin as <-. now left.
    + apply Hgoal. intros message [].
  - cbn [trace]. split; split; try (intros [Hd _]; discriminate);
      intros Hin; apply in_app_or in Hin; destruct Hin as [Hin | Hin];
      try (now apply probes_hold_no_notice in Hin);
      destruct (apiSpecGeneratedLogged (snd (readSpecFile w)));
      simpl in Hin; intuition discriminate.
Qed.

(** X11. When the spec file cannot be written, a development-mode call
    that finds a difference throws after its opening notice: the file,
    the cached document and the flag of the closing notice stay as the
    read of the file left them, so the call is not taken for a successful
    generation; the aggregation has returned and the overrides have been
    merged by then. *)
Theorem failed_write_keeps_cache_and_file
    (cfg : Config) (headers : Headers) (env : Env) (w : World)
    (listing : list string) :
  production env = false ->
  files env = Some listing ->
  writable w = false ->
  specDiffers cfg headers listing (net env) w = true ->
  let o := getOrCreateOpenApiSpec cfg headers env w in
  returned o = None
  /\ ~ wrote (trace o)
  /\ In (Info (if fst (readSpecFile w) then specChanged else noSpecFound)) (trace o)
  /\ file (world o) = file w
  /\ openApiSpec (world o)
     = match file w with
       | Some (Json.Document doc) => doc
       | _ => openApiSpec w
       end
  /\ apiSpecGeneratedLogged (world o) = apiSpecGeneratedLogged w
  /\ exists paths,
       generatePaths (pathNames cfg) headers listing (net env) = Some paths
       /\ heap (world o) = fst (newSpecOf cfg (heap w) paths).
Proof.
  intros Hprod Hfiles Hro Hdiff o. subst o.
  destruct (specDiffers_aggregated cfg headers listing (net env) w Hdiff)
    as [paths Hpaths].
  rewrite (development_pass cfg headers env w listing paths Hprod Hfiles Hpaths),
    Hdiff.
  destruct (readSpecFile_keeps w) as [Hf [Hw [Hl [Hh Hs]]]].
  rewrite Hw, Hro. cbn [returned trace world file openApiSpec
    apiSpecGeneratedLogged heap]. rewrite Hh.
  repeat split; try assumption.
  - intros [content Hin]. apply in_app_or in Hin. destruct Hin as [Hin | Hin].
    + now apply probes_hold_no_write in Hin.
    + destruct Hin as [Hin | []]. discriminate.
  - apply in_or_app. right. now left.
  - exists paths. now split.
Qed.

Lemma member_set_same (k : string) (v : json) (ps : props) :
  member (JObj (set k v ps)) k = v.
Proof. simpl. now rewrite get_set_same. Qed.

Lemma member_set_other (k k' : string) (v : json) (ps : props) :
  k' <> k -> member (JObj (set k v ps)) k' = member (JObj ps) k'.
Proof. intros Hne. simpl. now rewrite get_set_other. Qed.

(** X12. The new document carries the version of the specification under
    [openapi] and the merged paths under [paths] whatever the overrides
    hold under these two names; every other property of the overrides is
    in the document as it is. *)
Theorem overrides_set_neither_version_nor_paths
    (cfg : Config) (st : store) (paths : props) :
  let newSpec := snd (newSpecOf cfg st paths) in
  let overrides := ofOption (openApiSpecOverrides cfg) in
  member newSpec "openapi" = JStr OPEN_API_VERSION
  /\ member newSpec "paths"
     = snd (merge st (member overrides "paths") (JObj paths))
  /\ (uniqueKeys (ownProps overrides) = true ->
      forall k, k <> "openapi" -> k <> "paths" ->
                member newSpec k = member overrides k).
Proof.
  intros newSpec overrides. subst newSpec overrides. unfold newSpecOf.
  assert (Hpaths : match openApiSpecOverrides cfg with
                   | Some ps => member (JObj ps) "paths"
                   | None => JUndef
                   end = member (ofOption (openApiSpecOverrides cfg)) "paths")
    by now destruct (openApiSpecOverrides cfg).
  rewrite Hpaths.
  destruct (merge st _ (JObj paths)) as [st1 merged]. cbn [snd].
  split; [| split].
  - rewrite member_set_other by discriminate. apply member_set_same.
  - apply member_set_same.
  - intros Huniq k Hv Hp. rewrite !member_set_other by assumption.
    destruct (openApiSpecOverrides cfg) as [ps |]; [| reflexivity].
    cbn [ofOption ownProps] in *.
    rewrite assignProps_fresh; [reflexivity |].
    now apply ValueFacts.uniqueKeys_NoDup.
Qed.

(** X13. What a development-mode call returns is the new document up to
    the order of the keys of its objects: the new document itself when
    the call wrote it, and otherwise a cached document that the test of
    line 255 found equal to it. *)
Theorem development_call_returns_the_new_document
    (cfg : Config) (headers : Headers) (env : Env) (w : World)
    (listing : list string) (doc : json) :
  production env = false ->
  files env = Some listing ->
  isDocument (newDocument cfg headers listing (net env) w) = true ->
  let o := getOrCreateOpenApiSpec cfg headers env w in
  returned o = Some doc ->
  isEqual (resolve (heap (world o)) doc)
    (newDocument cfg headers listing (net env) w) = true.
Proof.
  intros Hprod Hfiles Hdoc o. subst o.
  destruct (newDocument_aggregated cfg headers listing (net env) w Hdoc)
    as [paths Hpaths].
  rewrite (development_pass cfg headers env w listing paths Hprod Hfiles Hpaths).
  destruct (specDiffers cfg headers listing (net env) w) eqn:Hdiff.
  - destruct (writable (snd (readSpecFile w))); cbn [returned world heap];
      [| discriminate].
    intros Hret. injection Hret as <-.
    assert (Hnew : resolve
                     (fst (newSpecOf cfg (heap (snd (readSpecFile w))) paths))
                     (snd (newSpecOf cfg (heap (snd (readSpecFile w))) paths))
                   = newDocument cfg headers listing (net env) w)
      by (unfold newDocument; rewrite Hpaths; now destruct (newSpecOf cfg _ _)).
    rewrite Hnew. now apply EqualFacts.isEqual_refl.
  - cbn [returned world heap]. intros Hret. injection Hret as <-.
    unfold specDiffers in Hdiff. unfold newDocument. rewrite Hpaths in *.
    destruct (newSpecOf cfg _ _) as [st1 newSpec]. cbn [fst].
    now apply negb_false_iff in Hdiff.
Qed.

End WithDeps.

#[local] Existing Instance Sample.deps.
Import Sample.

Lemma development_call_returns_the_new_document_witness :
  let o := getOrCreateOpenApiSpec (config None) headers development
             (started None JUndef) in
  isEqual (resolve (heap (world o)) documentB)
    (newDocument (config None) headers listing network (started None JUndef)) = true.
Proof.
  apply (development_call_returns_the_new_document (config None) headers
           development (started None JUndef) listing documentB); reflexivity.
Defined.

Lemma closing_notice_is_printed_once_witness :
  let first := getOrCreateOpenApiSpec (config None) headers development
                 (started None JUndef) in
  let second := getOrCreateOpenApiSpec (config None) headers development
                  (world first) in
  apiSpecGeneratedLogged (world first) = true
  /\ ~ In (Info specGenerated) (trace second)
  /\ ~ In (Info specUpToDate) (trace second)
  /\ apiSpecGeneratedLogged (world second) = true.
Proof.
  intros first second.
  destruct (closing_notice_is_printed_once (config None) headers development
              (started None JUndef)) as [Hset _].
  destruct (closing_notice_is_printed_once (config None) headers development
              (world first)) as [_ Hkeep].
  assert (Hflag : apiSpecGeneratedLogged (world first) = true)
    by (apply Hset; [reflexivity | discriminate]).
  split; [exact Hflag | exact (Hkeep Hflag)].
Defined.

Lemma unreadable_routes_directory_throws_witness :
  let env := mkEnv false (getNestedApiRoutes "/"%char "" Examples.lockedTree) network in
  let o := getOrCreateOpenApiSpec (config None) headers env
             (started (Some (Json.Document documentA)) JUndef) in
  returned o = None
  /\ trace o = [ReadSpecFile; ReadRoutesDir]
  /\ file (world o) = Some (Json.Document documentA)
  /\ heap (world o) = heap (started (Some (Json.Document documentA)) JUndef)
  /\ apiSpecGeneratedLogged (world o) = false
  /\ openApiSpec (world o) = documentA.
Proof.
  apply (unreadable_routes_directory_throws (config None) headers "/"%char
           Examples.lockedTree network (started (Some (Json.Document documentA)) JUndef)).
  reflexivity.
Defined.

Lemma opening_notice_tells_whether_the_file_was_read_witness :
  let w := started (Some Json.Unparsable) JUndef in
  let o := getOrCreateOpenApiSpec (config None) headers development w in
  (In (Info specChanged) (trace o)
   <-> specDiffers (config None) headers listing network w = true /\ specFileFound w)
  /\ (In (Info noSpecFound) (trace o)
      <-> specDiffers (config None) headers listing network w = true
          /\ ~ specFileFound w).
Proof.
  apply (opening_notice_tells_whether_the_file_was_read (config None) headers
           development (started (Some Json.Unparsable) JUndef) listing);
    reflexivity.
Defined.

Lemma failed_write_keeps_cache_and_file_witness :
  let o := getOrCreateOpenApiSpec (config None) headers development Examples.readOnly in
  returned o = None
  /\ ~ wrote (trace o)
  /\ In (Info noSpecFound) (trace o)
  /\ file (world o) = None
  /\ openApiSpec (world o) = JUndef
  /\ apiSpecGeneratedLogged (world o) = false
  /\ exists paths,
       generatePaths (pathNames (config None)) headers listing network = Some paths
       /\ heap (world o)
          = fst (newSpecOf (config None) (heap Examples.readOnly) paths).
Proof.
  apply (failed_write_keeps_cache_and_file (config None) headers development
           Examples.readOnly listing); reflexivity.
Defined.

End CacheCoverage.

(** ** What [merge] does to the keys of an object *)

Module MergeCoverage.
Import JsString Js Lodash MergeNotions Cache Synthesis Statements Notions.
Import JsFacts ValueFacts MergeFacts MergeAgain.

(** A step of the loop on an object leaves it as it is, the key being in
    it already or being [__proto__], or assigns the key. *)
Lemma mergeKey_on_object (rec : store -> json -> store * json)
    (srcValue : json) (key : string) (st : store) (ps : props) :
  (snd (mergeKey rec srcValue key st (JObj ps)) = JObj ps
   /\ (has key ps = true \/ key = "__proto__"))
  \/ exists value, snd (mergeKey rec srcValue key st (JObj ps)) = JObj (set key value ps).
Proof.
  unfold mergeKey.
  destruct (String.eqb_spec key "__proto__") as [Hproto | Hproto].
  { destruct srcValue; try (left; split; [reflexivity | now right]);
      right; eexists; reflexivity. }
  cbn [safeGet hasKey baseAssignValue]. unfold has.
  destruct (get key ps) as [objValue |] eqn:Hget.
  - destruct srcValue as [| | b | n | s | ses | sps | l];
      try (right; eexists; reflexivity);
      try (left; split; [reflexivity | now left]).
    + destruct objValue as [| | b | n | s | es | qs | l];
        try (destruct (arrayLikeLength _));
        try (destruct (st l)); try (destruct (arrayLikeLength _));
        try (destruct (rec st _) as [st1 value]; cbn [snd];
             first [ right; eexists; reflexivity
                   | left; split; [reflexivity | now left] ]).
    + destruct objValue as [| | b | n | s | es | qs | l];
        destruct (rec st _) as [st1 value]; cbn [snd];
        first [ right; eexists; reflexivity
              | left; split; [reflexivity | now left] ].
  - destruct srcValue as [| | b | n | s | ses | sps | l];
      try (right; eexists; reflexivity).
    + cbn [arrayLikeLength]. destruct (rec st _) as [st1 value].
      right. eexists. reflexivity.
    + destruct (rec st _) as [st1 value]. right. eexists. reflexivity.
Qed.

Lemma mergeSteps_on_object (sps : props) (st : store) (ps : props) :
  exists ps',
    snd (mergeSteps sps (st, JObj ps)) = JObj ps'
    /\ (forall k, has k ps = true -> has k ps' = true)
    /\ (forall k, k <> "__proto__" -> has k sps = true -> has k ps' = true).
Proof.
  unfold mergeSteps. revert st ps.
  induction sps as [| [key srcValue] sps IH]; intros st ps.
  - exists ps. repeat split; auto. discriminate.
  - cbn [fold_left fst snd].
    destruct (mergeKey (baseMerge srcValue) srcValue key st (JObj ps))
      as [st1 object] eqn:Hstep.
    assert (Hobject : exists qs, object = JObj qs
                                 /\ (forall k, has k ps = true -> has k qs = true)
                                 /\ (key <> "__proto__" -> has key qs = true)).
    { destruct (mergeKey_on_object (baseMerge srcValue) srcValue key st ps)
        as [[Hsame Hhas] | [value Hset]]; rewrite Hstep in *; cbn [snd] in *.
      - exists ps. repeat split; auto. intros Hne.
        destruct Hhas as [Hhas | Hproto]; [assumption | now elim Hne].
      - exists (set key value ps). repeat split; [assumption | |].
        + intros k. apply has_set.
        + intros _. unfold has. now rewrite get_set_same. }
    destruct Hobject as [qs [-> [Hold Hkey]]].
    destruct (IH st1 qs) as [ps' [Hres [Hkeep Hnew]]].
    exists ps'. repeat split; [assumption | auto |].
    intros k Hne Hk. unfold has in Hk. simpl in Hk.
    destruct (String.eqb k key) eqn:E.
    + apply String.eqb_eq in E. subst k. auto.
    + apply Hnew; [assumption | exact Hk].
Qed.

(** The steps for other keys leave what the object holds under a key. *)
Lemma mergeSteps_frame (sps : props) (st : store) (ps : props) (k : string) :
  ~ In k (keys sps) ->
  exists st' ps',
    mergeSteps sps (st, JObj ps) = (st', JObj ps') /\ get k ps' = get k ps.
Proof.
  unfold mergeSteps. revert st ps.
  induction sps as [| [key srcValue] sps IH]; intros st ps Hnin.
  - exists st, ps. now split.
  - cbn [fold_left fst snd].
    assert (Hne : k <> key) by (intros ->; apply Hnin; now left).
    destruct (mergeKey (baseMerge srcValue) srcValue key st (JObj ps))
      as [st1 object] eqn:Hstep.
    destruct (mergeKey_on_object (baseMerge srcValue) srcValue key st ps)
      as [[Hsame _] | [value Hset]]; rewrite Hstep in *; cbn [snd] in *; subst object.
    + apply IH. intros Hin. apply Hnin. now right.
    + destruct (IH st1 (set key value ps)) as [st' [ps' [Hres Hget]]].
      * intros Hin. apply Hnin. now right.
      * exists st', ps'. split; [assumption |].
        rewrite Hget. now apply get_set_other.
Qed.

(** What the merged object holds under a key of the source is what the
    step for that key put there. *)
Lemma mergeSteps_at_key (P : json -> Prop) (sps : props) (k : string)
    (srcValue : json) (st : store) (ps : props) :
  NoDup (keys sps) -> In (k, srcValue) sps ->
  (forall st' ps0, get k ps0 = get k ps ->
     P (safeGet (snd (mergeKey (baseMerge srcValue) srcValue k st' (JObj ps0))) k)) ->
  P (safeGet (snd (mergeSteps sps (st, JObj ps))) k).
Proof.
  intros Hnd Hin HP. apply in_split in Hin. destruct Hin as [before [after ->]].
  unfold keys in Hnd. rewrite map_app in Hnd. cbn [map fst] in Hnd.
  pose proof (NoDup_remove_2 _ _ _ Hnd) as Hnin.
  assert (Hbefore : ~ In k (keys before))
    by (intros Hin; apply Hnin, in_or_app; now left).
  assert (Hafter : ~ In k (keys after))
    by (intros Hin; apply Hnin, in_or_app; now right).
  destruct (mergeSteps_frame before st ps k Hbefore) as [st1 [ps1 [Hres1 Hget1]]].
  unfold mergeSteps in *. rewrite fold_left_app, Hres1. cbn [fold_left fst snd].
  specialize (HP st1 ps1 Hget1).
  destruct (mergeKey (baseMerge srcValue) srcValue k st1 (JObj ps1))
    as [st2 object] eqn:Hstep.
  assert (Hobject : exists ps2, object = JObj ps2).
  { destruct (mergeKey_on_object (baseMerge srcValue) srcValue k st1 ps1)
      as [[Hsame _] | [value Hset]]; rewrite Hstep in *; cbn [snd] in *;
      subst object; eexists; reflexivity. }
  destruct Hobject as [ps2 ->].
  destruct (mergeSteps_frame after st2 ps2 k Hafter) as [st3 [ps3 [Hres3 Hget3]]].
  unfold mergeSteps in Hres3. rewrite Hres3. cbn [snd safeGet] in *.
  now rewrite Hget3.
Qed.

(** *** Merging an array of strings into an array *)

Lemma setNth_after (pre : list json) (v : json) (es : list json) :
  setNth (List.length pre) v (pre ++ es)%list = (pre ++ v :: tl es)%list.
Proof.
  induction pre as [| e pre IH]; simpl.
  - now destruct es.
  - now rewrite IH.
Qed.

Lemma ofNat_not_proto (i : nat) : String.eqb (ofNat i) "__proto__" = false.
Proof.
  apply String.eqb_neq. intros Heq. pose proof (indexOfKey_ofNat i) as Hi.
  rewrite Heq in Hi. vm_compute in Hi. discriminate.
Qed.

Lemma mergeSteps_strings (us : list string) (st : store) (pre es : list json) :
  mergeSteps (indexed (List.length pre) (map JStr us)) (st, JArr (pre ++ es)%list)
  = (st, JArr (pre ++ map JStr us ++ skipn (List.length us) es)%list).
Proof.
  unfold mergeSteps. revert pre es.
  induction us as [| u us IH]; intros pre es; [reflexivity |].
  cbn [map indexed fold_left fst snd].
  unfold mergeKey at 2. rewrite ofNat_not_proto. cbn [baseAssignValue].
  rewrite indexOfKey_ofNat, setNth_after.
  replace (pre ++ JStr u :: tl es)%list with ((pre ++ [JStr u]) ++ tl es)%list
    by now rewrite <- app_assoc.
  replace (S (List.length pre)) with (List.length (pre ++ [JStr u])%list)
    by (rewrite length_app; simpl; lia).
  rewrite IH. rewrite <- app_assoc. cbn [app length].
  destruct es as [| e es]; cbn [tl skipn]; [now rewrite skipn_nil | reflexivity].
Qed.

(** An array of strings overwrites the elements of the destination
    position by position and leaves the others. *)
Lemma baseMerge_strings (us : list string) (st : store) (es : list json) :
  baseMerge (JArr (map JStr us)) st (JArr es)
  = (st, JArr (map JStr us ++ skipn (List.length us) es)%list).
Proof.
  rewrite baseMerge_array. apply (mergeSteps_strings us st [] es).
Qed.

Lemma has_resolved (st : store) (k : string) (ps : props) :
  has k (map (fun kv => (fst kv, resolve st (snd kv))) ps) = has k ps.
Proof.
  unfold has. induction ps as [| [k' v] ps IH]; [reflexivity |].
  simpl. destruct (String.eqb k k'); [reflexivity | exact IH].
Qed.

Section WithDeps.
Context `{Deps}.

(** X14. The new document has every path a route reported, but for a
    path [__proto__], and every path of the configured [paths]
    overrides. *)
Theorem new_spec_has_reported_and_configured_paths
    (cfg : Config) (st : store) (paths : props) (k : string) :
  let configured := member (ofOption (openApiSpecOverrides cfg)) "paths" in
  pathsAreAnObject st configured = true ->
  let served :=
    resolve (fst (newSpecOf cfg st paths))
      (member (snd (newSpecOf cfg st paths)) "paths") in
  (k <> "__proto__" -> has k paths = true -> hasKey served k = true)
  /\ (hasKey (resolve st configured) k = true -> hasKey served k = true).
Proof.
  intros configured Hwf served. subst served. unfold newSpecOf.
  assert (Hpaths : match openApiSpecOverrides cfg with
                   | Some ps => member (JObj ps) "paths"
                   | None => JUndef
                   end = configured)
    by (subst configured; now destruct (openApiSpecOverrides cfg)).
  rewrite Hpaths. clear Hpaths.
  destruct (merge st configured (JObj paths)) as [st1 merged] eqn:Hmerge.
  cbn [fst snd]. rewrite CacheCoverage.member_set_same.
  unfold merge in Hmerge.
  destruct configured as [| | b | n | s | es | ps | l]; try discriminate.
  - (* no configured paths *)
    rewrite baseMerge_object in Hmerge.
    destruct (mergeSteps_on_object paths st []) as [ps' [Hres [_ Hnew]]].
    rewrite Hmerge in Hres. cbn [snd] in Hres. subst merged.
    cbn [resolve hasKey]. rewrite has_resolved. split; [apply Hnew | discriminate].
  - (* paths held by value *)
    rewrite baseMerge_object in Hmerge.
    destruct (mergeSteps_on_object paths st ps) as [ps' [Hres [Hkeep Hnew]]].
    rewrite Hmerge in Hres. cbn [snd] in Hres. subst merged.
    cbn [resolve hasKey]. rewrite !has_resolved. split; [apply Hnew | apply Hkeep].
  - (* the shared paths object *)
    cbn [pathsAreAnObject] in Hwf.
    destruct (st l) as [| | b | n | s | es | ps | l'] eqn:Hl; try discriminate.
    rewrite baseMerge_object in Hmerge.
    destruct (mergeSteps_on_object paths st ps) as [ps' [Hres [Hkeep Hnew]]].
    destruct (mergeSteps paths (st, JObj ps)) as [st2 content].
    cbn [snd] in Hres. subst content. injection Hmerge as <- <-.
    cbn [resolve]. rewrite read_upd_same, Hl. cbn [hasKey].
    split; [apply Hnew | apply Hkeep].
Qed.

End WithDeps.

#[local] Existing Instance Sample.deps.
Import Sample.

Lemma new_spec_has_reported_and_configured_paths_witness :
  let cfg := config (Some overridesWithPaths) in
  let st := @Synthesis.initialStore deps (JObj [("/api/health", JObj [])]) in
  let paths := [("/api/todos", JObj [("get", todosOperation)])] in
  let served :=
    resolve (fst (newSpecOf cfg st paths))
      (member (snd (newSpecOf cfg st paths)) "paths") in
  ("/api/todos" <> "__proto__" -> has "/api/todos" paths = true ->
   hasKey served "/api/todos" = true)
  /\ (hasKey (resolve st (JRef OverridePaths)) "/api/todos" = true ->
      hasKey served "/api/todos" = true).
Proof.
  apply (new_spec_has_reported_and_configured_paths
           (config (Some overridesWithPaths))
           (@Synthesis.initialStore deps (JObj [("/api/health", JObj [])]))
           [("/api/todos", JObj [("get", todosOperation)])] "/api/todos").
  reflexivity.
Defined.

(** A reported path [__proto__] is not in the new document: [merge] reads
    no such key from its source. *)
Example reported_proto_path_is_dropped :
  let paths := [("__proto__", JObj [("get", todosOperation)]);
                ("/api/todos", JObj [("get", todosOperation)])] in
  resolve (fst (newSpecOf (config None) store0 paths))
    (member (snd (newSpecOf (config None) store0 paths)) "paths")
  = todosFragment.
Proof. reflexivity. Qed.

End MergeCoverage.

(** ** When [merge] leaves the shared objects alone *)

Module MergeFrame.
Import JsString Js Lodash MergeNotions Synthesis Statements Notions.
Import JsFacts ValueFacts MergeFacts.

(** A step for a key under which the destination holds data by value:
    the store stays and is not read, and the destination stays or is
    assigned data held by value under the key. *)
Lemma mergeKey_plain_value (rec : store -> json -> store * json)
    (srcValue : json) (key : string) (object : json) :
  plain srcValue = true ->
  plain (safeGet object key) = true ->
  (forall target, plain target = true ->
     exists value, plain value = true /\ forall st, rec st target = (st, value)) ->
  exists object',
    (forall st, mergeKey rec srcValue key st object = (st, object'))
    /\ (object' = object
        \/ exists value, plain value = true
                         /\ object' = baseAssignValue object key value).
Proof.
  intros Hsrc Hov Hrec. unfold mergeKey.
  assert (Hfresh : forall target, plain target = true ->
            exists object',
              (forall st : store,
                 (let '(st1, newValue) := rec st target in
                  (st1, baseAssignValue object key newValue)) = (st, object'))
              /\ (object' = object
                  \/ exists value, plain value = true
                                   /\ object' = baseAssignValue object key value)).
  { intros target Ht. destruct (Hrec target Ht) as [value [Hvalue Hsame]].
    exists (baseAssignValue object key value). split.
    - intros st. now rewrite Hsame.
    - right. now exists value. }
  assert (Hassign : forall value, plain value = true ->
            exists object',
              (forall st : store,
                 (st, baseAssignValue object key value) = (st, object'))
              /\ (object' = object
                  \/ exists value', plain value' = true
                                    /\ object' = baseAssignValue object key value')).
  { intros value Hvalue. exists (baseAssignValue object key value).
    split; [reflexivity | right; now exists value]. }
  destruct (String.eqb key "__proto__").
  { destruct srcValue; try discriminate; try (apply Hassign; reflexivity);
      exists object; (split; [reflexivity | now left]). }
  destruct srcValue as [| | b | n | s | ses | sps | l]; try discriminate;
    try (apply Hassign; reflexivity).
  - destruct (hasKey object key); [| apply Hassign; reflexivity].
    exists object. split; [reflexivity | now left].
  - destruct (safeGet object key) as [| | b | n | s | es | ps | l] eqn:Hget;
      try discriminate;
      try (cbn [arrayLikeLength]; apply Hfresh; reflexivity).
    + apply Hfresh. exact Hov.
    + destruct (arrayLikeLength (JObj ps)); apply Hfresh;
        [now apply plain_copyArray | reflexivity].
  - destruct (safeGet object key) as [| | b | n | s | es | ps | l] eqn:Hget;
      try discriminate; apply Hfresh; solve [reflexivity | exact Hov].
Qed.

Lemma mergeSteps_plain (sps : props) :
  (forall kv, In kv sps -> plain (snd kv) = true) ->
  (forall kv, In kv sps ->
     forall target, plain target = true ->
       exists value, plain value = true
                     /\ forall st, baseMerge (snd kv) st target = (st, value)) ->
  forall object, plain object = true ->
    exists object',
      plain object' = true
      /\ forall st, mergeSteps sps (st, object) = (st, object').
Proof.
  unfold mergeSteps. induction sps as [| [k sv] sps IH];
    intros Hplain Hrec object Hp; [now exists object |].
  destruct (mergeKey_plain_value (baseMerge sv) sv k object)
    as [object1 [Hstep Hres]].
  - apply (Hplain (k, sv)). now left.
  - now apply plain_safeGet.
  - intros target Ht. apply (Hrec (k, sv)); [now left | assumption].
  - destruct (IH (fun kv Hin => Hplain kv (or_intror Hin))
                (fun kv Hin => Hrec kv (or_intror Hin)) object1)
      as [object' [Hp' Hrest]].
    + destruct Hres as [-> | [value [Hvalue ->]]]; [assumption |].
      now apply plain_assign.
    + exists object'. split; [assumption |]. intros st.
      cbn [fold_left fst snd]. rewrite Hstep. apply Hrest.
Qed.

(** Merging data held by value into data held by value gives data held
    by value and neither writes nor reads the store. *)
Lemma baseMerge_plain (v : json) :
  plain v = true ->
  forall object, plain object = true ->
    exists result,
      plain result = true /\ forall st, baseMerge v st object = (st, result).
Proof.
  induction v as [| | b | n | s | es IH | ps IH | l] using json_ind';
    intros Hv object Hp; try (now exists object); try discriminate.
  - rewrite Forall_forall in IH. simpl in Hv. rewrite forallb_forall in Hv.
    destruct (mergeSteps_plain (indexed 0 es)) with (object := object)
      as [result [Hresult Hsame]]; try assumption.
    + intros kv Hin. apply Hv. now apply In_indexed with (i := 0%nat).
    + intros kv Hin. apply IH; [now apply In_indexed with (i := 0%nat) |].
      apply Hv. now apply In_indexed with (i := 0%nat).
    + exists result. split; [assumption |]. intros st.
      rewrite baseMerge_array. apply Hsame.
  - rewrite Forall_forall in IH. simpl in Hv. rewrite forallb_forall in Hv.
    destruct (mergeSteps_plain ps) with (object := object)
      as [result [Hresult Hsame]]; try assumption.
    + intros kv Hin. apply (IH kv Hin). now apply Hv.
    + exists result. split; [assumption |]. intros st.
      rewrite baseMerge_object. apply Hsame.
Qed.

(** *** Objects that hold data but for one property *)

Lemma forallb_set (P : string * json -> bool) (k : string) (v : json) (ps : props) :
  P (k, v) = true -> forallb P ps = true -> forallb P (set k v ps) = true.
Proof.
  intros Hv. induction ps as [| [k' v'] ps IH]; simpl; intros Hps.
  - now rewrite Hv.
  - apply andb_prop in Hps. destruct Hps as [Hv' Hps].
    destruct (String.eqb k k'); simpl.
    + now rewrite Hv, Hps.
    + now rewrite Hv', IH.
Qed.

Lemma forallb_assignProps (P : string * json -> bool) (acc ps : props) :
  forallb P acc = true -> forallb P ps = true ->
  forallb P (assignProps acc ps) = true.
Proof.
  unfold assignProps. revert acc.
  induction ps as [| [k v] ps IH]; intros acc Hacc Hps; [assumption |].
  simpl in Hps. apply andb_prop in Hps. destruct Hps as [Hv Hps].
  cbn [fold_left fst snd]. apply IH; [| assumption].
  now apply forallb_set.
Qed.

Lemma plainBut_plain (key : string) (inner : json -> bool) (v : json) :
  (forall x, plain x = true -> inner x = true) ->
  plain v = true -> plainBut key inner v = true.
Proof.
  intros Hinner. destruct v as [| | b | n | s | es | ps | l]; try (intros H; exact H).
  simpl. rewrite !forallb_forall. intros Hp kv Hin.
  destruct (String.eqb (fst kv) key); auto.
Qed.

Lemma plainBut_set (key : string) (inner : json -> bool) (k : string)
    (v : json) (ps : props) :
  (if String.eqb k key then inner v else plain v) = true ->
  plainBut key inner (JObj ps) = true ->
  plainBut key inner (JObj (set k v ps)) = true.
Proof. intros Hv Hps. now apply forallb_set. Qed.

Lemma plainBut_get (key : string) (inner : json -> bool) (k : string) (ps : props) :
  plainBut key inner (JObj ps) = true -> k <> key ->
  plain (safeGet (JObj ps) k) = true.
Proof.
  intros Hps Hne. cbn [safeGet]. destruct (get k ps) as [x |] eqn:Hget; [| reflexivity].
  apply get_In in Hget. simpl in Hps. rewrite forallb_forall in Hps.
  specialize (Hps (k, x) Hget). cbn [fst snd] in Hps.
  apply String.eqb_neq in Hne. now rewrite Hne in Hps.
Qed.

Lemma plainBut_get_inner (key : string) (inner : json -> bool) (ps : props) (x : json) :
  plainBut key inner (JObj ps) = true -> get key ps = Some x -> inner x = true.
Proof.
  intros Hps Hget. apply get_In in Hget. simpl in Hps. rewrite forallb_forall in Hps.
  specialize (Hps (key, x) Hget). cbn [fst snd] in Hps.
  now rewrite String.eqb_refl in Hps.
Qed.

(** The loop on such an object, each step for the one property being
    known to keep the store and the shape of the object. *)
Lemma mergeSteps_plainBut (key : string) (inner : json -> bool) (sps : props) :
  (forall kv, In kv sps -> plain (snd kv) = true) ->
  (forall kv, In kv sps -> fst kv = key ->
     forall ps, plainBut key inner (JObj ps) = true ->
       exists ps',
         plainBut key inner (JObj ps') = true
         /\ forall st,
              mergeKey (baseMerge (snd kv)) (snd kv) key st (JObj ps)
              = (st, JObj ps')) ->
  forall ps, plainBut key inner (JObj ps) = true ->
    exists ps',
      plainBut key inner (JObj ps') = true
      /\ forall st, mergeSteps sps (st, JObj ps) = (st, JObj ps').
Proof.
  unfold mergeSteps. induction sps as [| [k sv] sps IH];
    intros Hplain Hkey ps Hps; [now exists ps |].
  assert (Hstep : exists ps1,
             plainBut key inner (JObj ps1) = true
             /\ forall st, mergeKey (baseMerge sv) sv k st (JObj ps) = (st, JObj ps1)).
  { destruct (string_dec k key) as [-> | Hne].
    - apply (Hkey (key, sv)); [now left | reflexivity | assumption].
    - destruct (mergeKey_plain_value (baseMerge sv) sv k (JObj ps))
        as [object1 [Hsame Hres]].
      + apply (Hplain (k, sv)). now left.
      + now apply plainBut_get with (key := key) (inner := inner).
      + intros target Ht. apply baseMerge_plain; [| assumption].
        apply (Hplain (k, sv)). now left.
      + destruct Hres as [-> | [value [Hvalue ->]]]; [now exists ps |].
        exists (set k value ps). split; [| exact Hsame].
        apply plainBut_set; [| assumption].
        apply String.eqb_neq in Hne. now rewrite Hne. }
  destruct Hstep as [ps1 [Hps1 Hsame]].
  destruct (IH (fun kv Hin => Hplain kv (or_intror Hin))
              (fun kv Hin => Hkey kv (or_intror Hin)) ps1 Hps1)
    as [ps' [Hps' Hrest]].
  exists ps'. split; [assumption |]. intros st.
  cbn [fold_left fst snd]. rewrite Hsame. apply Hrest.
Qed.

(** *** The [responses] of an operation and the operation itself *)

(** A step that assigns a value as it is, or leaves the object. *)
Lemma mergeKey_assigns (rec : store -> json -> store * json)
    (srcValue : json) (key : string) (ps : props) :
  plain srcValue = true -> isObjectOrArray srcValue = false ->
  exists ps',
    (ps' = ps \/ ps' = set key srcValue ps)
    /\ forall st, mergeKey rec srcValue key st (JObj ps) = (st, JObj ps').
Proof.
  intros Hp Hprim. unfold mergeKey.
  destruct (String.eqb key "__proto__").
  { destruct srcValue; try discriminate; cbn [baseAssignValue];
      first [ exists ps; split; [now left | reflexivity]
            | eexists; split; [right; reflexivity | reflexivity] ]. }
  destruct srcValue; try discriminate; cbn [baseAssignValue];
    try (eexists; split; [right; reflexivity | reflexivity]).
  destruct (hasKey (JObj ps) key).
  - exists ps. split; [now left | reflexivity].
  - eexists. split; [right; reflexivity | reflexivity].
Qed.

Lemma responses_merge (qs : props) :
  forallb (fun kv => plain (snd kv)) qs = true ->
  forallb (fun kv' => negb (String.eqb (fst kv') "default")
                      || negb (isObjectOrArray (snd kv'))) qs = true ->
  forall rs, plainBut "default" (fun _ => true) (JObj rs) = true ->
    exists rs',
      plainBut "default" (fun _ => true) (JObj rs') = true
      /\ forall st, mergeSteps qs (st, JObj rs) = (st, JObj rs').
Proof.
  intros Hplain Hspare. rewrite forallb_forall in Hplain, Hspare.
  apply mergeSteps_plainBut; [exact Hplain |].
  intros [k sv] Hin Hk rs Hrs. cbn [fst snd] in *. subst k.
  specialize (Hspare _ Hin). specialize (Hplain _ Hin). cbn [fst snd] in *.
  apply negb_true_iff in Hspare.
  destruct (mergeKey_assigns (baseMerge sv) sv "default" rs Hplain Hspare)
    as [rs' [[-> | ->] Hsame]].
  - now exists rs.
  - exists (set "default" sv rs). split; [| exact Hsame].
    now apply plainBut_set.
Qed.

Lemma ofNat_not_default (i : nat) : ofNat i <> "default".
Proof.
  intros Heq. pose proof (indexOfKey_ofNat i) as Hi. rewrite Heq in Hi.
  vm_compute in Hi. discriminate.
Qed.

Lemma operation_merge (ps : props) :
  forallb (fun kv => plain (snd kv)) ps = true ->
  sparesDefaultResponse ps = true ->
  forall ops,
    plainBut "responses" (plainBut "default" (fun _ => true)) (JObj ops) = true ->
    exists ops',
      plainBut "responses" (plainBut "default" (fun _ => true)) (JObj ops') = true
      /\ forall st, mergeSteps ps (st, JObj ops) = (st, JObj ops').
Proof.
  intros Hplain Hspare. unfold sparesDefaultResponse in Hspare.
  rewrite forallb_forall in Hplain, Hspare.
  apply mergeSteps_plainBut; [exact Hplain |].
  intros [k sv] Hin Hk ops Hops. cbn [fst snd] in *. subst k.
  specialize (Hspare _ Hin). specialize (Hplain _ Hin). cbn [fst snd] in *.
  assert (Hinner : forall x, plain x = true ->
                             plainBut "default" (fun _ => true) x = true)
    by (intros x; now apply plainBut_plain).
  rewrite String.eqb_refl in Hspare. cbn [negb orb] in Hspare.
  (* the step assigns [value] *)
  assert (Hassign : forall (value : json),
             plainBut "default" (fun _ => true) value = true ->
             plainBut "responses" (plainBut "default" (fun _ => true))
               (JObj (set "responses" value ops)) = true)
    by (intros value Hvalue; now apply plainBut_set).
  (* the destination holds data by value under [responses] *)
  assert (Hvalue : plain (safeGet (JObj ops) "responses") = true ->
            exists ops',
              plainBut "responses" (plainBut "default" (fun _ => true))
                (JObj ops') = true
              /\ forall st,
                   mergeKey (baseMerge sv) sv "responses" st (JObj ops)
                   = (st, JObj ops')).
  { intros Hov.
    destruct (mergeKey_plain_value (baseMerge sv) sv "responses" (JObj ops))
      as [object1 [Hsame Hres]]; try assumption.
    - intros target Ht. now apply baseMerge_plain.
    - destruct Hres as [-> | [value [Hv ->]]]; [now exists ops |].
      exists (set "responses" value ops). split; [| exact Hsame].
      apply Hassign. now apply Hinner. }
  destruct (get "responses" ops) as [x |] eqn:Hget;
    [| apply Hvalue; cbn [safeGet]; now rewrite Hget].
  pose proof (plainBut_get_inner _ _ _ _ Hops Hget) as Hx.
  destruct x as [| | b | n | s | es | rs | l];
    try (apply Hvalue; cbn [safeGet]; rewrite Hget; exact Hx).
  (* the destination holds an object under [responses] *)
  unfold mergeKey.
  rewrite (eq_refl : String.eqb "responses" "__proto__" = false).
  cbn [safeGet]. rewrite Hget.
  destruct sv as [| | b | n | s | ses | qs | l]; try discriminate;
    try (eexists; split; [| reflexivity]; apply Hassign; reflexivity).
  - cbn [hasKey]. unfold has. rewrite Hget. now exists ops.
  - (* an array *)
    assert (Hcopy : forall n, plain (copyArray (JObj rs) n) = true).
    { intros n. unfold copyArray. cbn [plain]. apply forallb_forall.
      intros e He. apply in_map_iff in He. destruct He as [i [<- _]].
      apply plainBut_get with (key := "default") (inner := fun _ => true);
        [assumption | apply ofNat_not_default]. }
    destruct (arrayLikeLength (JObj rs)) as [n |].
    + destruct (baseMerge_plain (JArr ses) Hplain (copyArray (JObj rs) n) (Hcopy n))
        as [value [Hv Hsame]].
      exists (set "responses" value ops). split; [apply Hassign; now apply Hinner |].
      intros st. now rewrite Hsame.
    + destruct (baseMerge_plain (JArr ses) Hplain (JArr []) eq_refl)
        as [value [Hv Hsame]].
      exists (set "responses" value ops). split; [apply Hassign; now apply Hinner |].
      intros st. now rewrite Hsame.
  - (* an object: its properties are merged into the responses *)
    assert (Hsp : forallb (fun kv' => negb (String.eqb (fst kv') "default")
                                      || negb (isObjectOrArray (snd kv'))) qs = true)
      by exact Hspare.
    destruct (responses_merge qs Hplain Hsp rs Hx) as [rs' [Hrs' Hsame]].
    exists (set "responses" (JObj rs') ops). split; [now apply Hassign |].
    intros st. rewrite baseMerge_object, Hsame. reflexivity.
Qed.

End MergeFrame.

(** ** Further properties of [getPathsFromMethodHandlers] *)

Module SynthesisCoverage.
Import JsString Js Lodash MergeNotions Synthesis Statements Notions.
Import JsFacts ValueFacts MergeFacts SynthesisFacts StringFacts.

Lemma has_set_eq (k k' : string) (v : json) (ps : props) :
  has k' (set k v ps) = String.eqb k' k || has k' ps.
Proof.
  unfold has. destruct (String.eqb k' k) eqn:E.
  - apply String.eqb_eq in E. subst k'. now rewrite get_set_same.
  - rewrite get_set_other by now apply String.eqb_neq. reflexivity.
Qed.

Section WithDeps.
Context `{Deps}.

Lemma has_addMethod (route k : string) (acc : store * props)
    (entry : string * MethodHandler.t) :
  has k (snd (addMethod route acc entry))
  = String.eqb k (toLowerCase (fst entry)) || has k (snd acc).
Proof.
  destruct entry as [m h]. unfold addMethod.
  destruct (merge (fst acc) (generatedOperationObject h route)
              (ofOption (MethodHandler.openApiSpecOverrides h))) as [st1 merged].
  cbn [fst snd]. rewrite has_set_eq, AggregationCoverage.has_assignProps.
  reflexivity.
Qed.

Lemma has_fold_addMethod (route k : string)
    (entries : list (string * MethodHandler.t)) (acc : store * props) :
  has k (snd (fold_left (addMethod route) entries acc))
  = has k (snd acc)
    || existsb (fun entry => String.eqb k (toLowerCase (fst entry))) entries.
Proof.
  revert acc. induction entries as [| entry entries IH]; intros acc.
  - simpl. now rewrite orb_false_r.
  - cbn [fold_left existsb]. rewrite IH, has_addMethod.
    destruct (String.eqb k (toLowerCase (fst entry))), (has k (snd acc));
      reflexivity.
Qed.

(** X15. The path item of the route has the properties of the bundle's
    own overrides and one property for each handler whose name is a valid
    method, named by the method in lower case, and no other property:
    a handler under any other name is left out. *)
Theorem path_item_has_overrides_and_methods
    (st : store) (overrides : option props)
    (handlers : list (string * MethodHandler.t)) (route k : string) :
  route <> "__proto__" ->
  has k (ownProps
           (member (snd (getPathsFromMethodHandlers st
                           (DefineEndpointsParams.mk overrides handlers) route))
              route)) = true
  <-> has k (ownProps (ofOption overrides)) = true
      \/ exists m h, In (m, h) handlers /\ isValidMethod m = true
                     /\ toLowerCase m = k.
Proof.
  intros Hroute. unfold getPathsFromMethodHandlers.
  cbn [DefineEndpointsParams.handlers DefineEndpointsParams.openApiSpecOverrides].
  pose proof (has_fold_addMethod route k
                (filter (fun entry => isValidMethod (fst entry)) handlers)
                (st, assignProps [] (ownProps (ofOption overrides)))) as Hfold.
  destruct (fold_left (addMethod route) _ _) as [st1 pathItem].
  cbn [snd] in *. apply String.eqb_neq in Hroute. rewrite Hroute.
  cbn [member get]. rewrite String.eqb_refl. cbn [ownProps].
  rewrite Hfold, AggregationCoverage.has_assignProps. cbn [has get orb].
  rewrite orb_true_iff, existsb_exists. split.
  - intros [Hov | [[m h] [Hin Hk]]]; [now left | right].
    apply filter_In in Hin. destruct Hin as [Hin Hvalid].
    apply String.eqb_eq in Hk. exists m, h. now repeat split.
  - intros [Hov | [m [h [Hin [Hvalid Hk]]]]]; [now left | right].
    exists (m, h). split.
    + apply filter_In. now split.
    + cbn [fst]. subst k. apply String.eqb_refl.
Qed.

(** *** The parameters of an operation *)

Lemma scanParameters_outside (pre s : string) :
  occurs "{"%char pre = false ->
  scanParameters None (pre ++ s) = scanParameters None s.
Proof.
  induction pre as [| c pre IH]; [reflexivity |].
  simpl. intros Ho. apply orb_false_iff in Ho. destruct Ho as [-> Ho]. auto.
Qed.

Lemma scanParameters_inside (text name post : string) :
  occurs "}"%char name = false ->
  scanParameters (Some text) (name ++ String "}"%char post)
  = if String.eqb (text ++ name) "" then scanParameters None post
    else ("{" ++ (text ++ name) ++ "}") :: scanParameters None post.
Proof.
  revert text. induction name as [| c name IH]; intros text Hc.
  - cbn [append scanParameters]. rewrite append_empty. reflexivity.
  - simpl in Hc. apply orb_false_iff in Hc. destruct Hc as [Hc Hrest].
    cbn [append scanParameters]. rewrite Hc, IH by assumption.
    now rewrite append_assoc.
Qed.

Lemma stripBraces_plain (s : string) :
  noneOf ["{"%char; "}"%char] s = true -> stripBraces s = s.
Proof.
  induction s as [| c s IH]; [reflexivity |].
  unfold noneOf in *. simpl. rewrite !andb_true_r, !negb_orb.
  intros Hn. apply andb_prop in Hn. destruct Hn as [Ho Hc].
  apply andb_prop in Ho, Hc. destruct Ho as [Ho Ho'], Hc as [Hc Hc'].
  apply negb_true_iff in Ho, Hc. rewrite Ho, Hc. simpl.
  rewrite IH; [reflexivity |]. simpl. now rewrite Ho', Hc'.
Qed.

Lemma stripBraces_app (s t : string) :
  stripBraces (s ++ t) = stripBraces s ++ stripBraces t.
Proof.
  induction s as [| c s IH]; [reflexivity |]. simpl.
  destruct (Ascii.eqb c "{" || Ascii.eqb c "}"); simpl; now rewrite IH.
Qed.

(** The [parameters] of the generated operation. *)
Lemma operation_parameters (h : MethodHandler.t) (route : string) :
  member (generatedOperationObject h route) "parameters"
  = match MethodHandler.input h with
    | Some {| MethodHandler.query := Some q |} =>
        JArr (map pathParameter (scanParameters None route)
              ++ map queryParameter (getSchemaKeys q))
    | _ =>
        match scanParameters None route with
        | [] => JUndef
        | params => JArr (map pathParameter params)
        end
    end.
Proof.
  unfold generatedOperationObject.
  destruct (scanParameters None route) as [| param params];
    destruct (MethodHandler.input h) as [[ct body [q |]] |]; reflexivity.
Qed.

(** X16. A brace pair of the route names a path parameter: the first pair,
    around a name without braces, gives the first element of the
    operation's [parameters], with that name, [in: path] and
    [required: true]; the parameters of the rest of the route follow, and
    after them one parameter [in: query] for each key of the query schema,
    none of them required. *)
Theorem braces_name_a_required_path_parameter
    (h : MethodHandler.t) (pre name post : string) :
  occurs "{"%char pre = false ->
  noneOf ["{"%char; "}"%char] name = true ->
  name <> "" ->
  member (generatedOperationObject h (pre ++ "{" ++ name ++ "}" ++ post))
    "parameters"
  = JArr (JObj [("name", JStr name); ("in", JStr "path"); ("required", JBool true)]
          :: map pathParameter (scanParameters None post)
          ++ map (fun key => JObj [("name", JStr key); ("in", JStr "query")])
               (match MethodHandler.input h with
                | Some {| MethodHandler.query := Some q |} => getSchemaKeys q
                | _ => []
                end)).
Proof.
  intros Hpre Hname Hne.
  assert (Hclose : occurs "}"%char name = false)
    by (apply (noneOf_In ["{"%char; "}"%char]); [assumption | simpl; tauto]).
  assert (Hscan : scanParameters None (pre ++ "{" ++ name ++ "}" ++ post)
                  = ("{" ++ name ++ "}") :: scanParameters None post).
  { rewrite scanParameters_outside by assumption.
    change ("{" ++ name ++ "}" ++ post) with (String "{"%char (name ++ String "}"%char post)).
    cbn [scanParameters]. rewrite Ascii.eqb_refl.
    rewrite scanParameters_inside by assumption. cbn [append].
    destruct (String.eqb_spec name ""); [contradiction | reflexivity]. }
  assert (Hstrip : stripBraces ("{" ++ name ++ "}") = name).
  { cbn [append stripBraces Ascii.eqb Bool.eqb orb].
    rewrite stripBraces_app, stripBraces_plain by assumption.
    cbn [stripBraces Ascii.eqb Bool.eqb orb]. apply append_empty. }
  assert (Hparam : pathParameter ("{" ++ name ++ "}")
                   = JObj [("name", JStr name); ("in", JStr "path");
                           ("required", JBool true)])
    by (unfold pathParameter; now rewrite Hstrip).
  rewrite operation_parameters, Hscan. cbn [map]. rewrite Hparam.
  destruct (MethodHandler.input h) as [[ct body [q |]] |];
    rewrite ?app_nil_r; reflexivity.
Qed.

(** X17. A route without opening brace has no path parameter: the
    operation has the query parameters alone, and no [parameters] at all
    when the handler declares no query. *)
Theorem no_brace_no_path_parameter (h : MethodHandler.t) (route : string) :
  occurs "{"%char route = false ->
  member (generatedOperationObject h route) "parameters"
  = match MethodHandler.input h with
    | Some {| MethodHandler.query := Some q |} =>
        JArr (map (fun key => JObj [("name", JStr key); ("in", JStr "query")])
                (getSchemaKeys q))
    | _ => JUndef
    end.
Proof.
  intros Hroute.
  pose proof (scanParameters_outside route "" Hroute) as Hscan.
  rewrite append_empty in Hscan.
  rewrite operation_parameters, Hscan.
  destruct (MethodHandler.input h) as [[ct body [q |]] |]; reflexivity.
Qed.

(** *** The overrides of one operation *)

(** What a method holds in the returned path item, when no later method
    takes its name: the generated operation with the overrides merged in,
    in the store the earlier methods left. *)
Lemma pathItem_of_merged_method (st : store) (item0 : props)
    (before after : list (string * MethodHandler.t))
    (m : string) (h : MethodHandler.t) (route : string) :
  isValidMethod m = true ->
  (forall entry, In entry after -> isValidMethod (fst entry) = true ->
                 toLowerCase (fst entry) <> toLowerCase m) ->
  exists st',
    get (toLowerCase m)
      (snd (fold_left (addMethod route)
              (filter (fun entry => isValidMethod (fst entry))
                 (before ++ (m, h) :: after))
              (st, item0)))
    = Some (snd (merge st' (generatedOperationObject h route)
                   (ofOption (MethodHandler.openApiSpecOverrides h)))).
Proof.
  intros Hm Hafter.
  rewrite filter_valid_split by assumption.
  rewrite fold_left_app. cbn [fold_left].
  exists (fst (fold_left (addMethod route)
                 (filter (fun entry => isValidMethod (fst entry)) before)
                 (st, item0))).
  rewrite fold_addMethod_get.
  - unfold addMethod.
    destruct (merge _ (generatedOperationObject h route) _) as [st1 merged].
    cbn [snd]. apply get_set_same.
  - apply addMethod_NoDup.
  - intros entry Hin. apply filter_In in Hin. destruct Hin as [Hin Hv].
    now apply Hafter.
Qed.

(** What the returned operation of such a method holds under a name that
    its overrides give. *)
Lemma operation_under_overridden_key (P : json -> Prop)
    (st : store) (overrides : option props)
    (before after : list (string * MethodHandler.t))
    (m route : string) (h : MethodHandler.t) (ps operation : props)
    (k : string) (srcValue : json) :
  route <> "__proto__" ->
  isValidMethod m = true ->
  (forall entry, In entry after -> isValidMethod (fst entry) = true ->
                 toLowerCase (fst entry) <> toLowerCase m) ->
  MethodHandler.openApiSpecOverrides h = Some ps ->
  uniqueKeys ps = true ->
  get k ps = Some srcValue ->
  generatedOperationObject h route = JObj operation ->
  (forall st' ps0, get k ps0 = get k operation ->
     P (safeGet (snd (mergeKey (baseMerge srcValue) srcValue k st' (JObj ps0))) k)) ->
  P (at_path [route; toLowerCase m; k]
       (snd (getPathsFromMethodHandlers st
               (DefineEndpointsParams.mk overrides (before ++ (m, h) :: after))
               route))).
Proof.
  intros Hroute Hm Hafter Hov Huniq Hget Hop HP.
  unfold getPathsFromMethodHandlers. cbn [DefineEndpointsParams.handlers].
  destruct (pathItem_of_merged_method st
              (assignProps [] (ownProps (ofOption
                 (DefineEndpointsParams.openApiSpecOverrides
                    (DefineEndpointsParams.mk overrides (before ++ (m, h) :: after))))))
              before after m h route Hm Hafter) as [st' Hitem].
  destruct (fold_left (addMethod route) _ _) as [st1 pathItem].
  cbn [snd] in *.
  apply String.eqb_neq in Hroute. rewrite Hroute.
  rewrite (at_path_member route _ [(route, JObj pathItem)] (JObj pathItem))
    by (cbn [get]; now rewrite String.eqb_refl).
  rewrite (at_path_member _ _ _ _ Hitem).
  rewrite Hov, Hop. cbn [ofOption merge].
  rewrite baseMerge_object.
  destruct (MergeCoverage.mergeSteps_on_object ps st' operation) as [ps' [Hres _]].
  assert (Hat : at_path [k] (snd (mergeSteps ps (st', JObj operation)))
                = safeGet (snd (mergeSteps ps (st', JObj operation))) k)
    by (rewrite Hres; cbn [at_path safeGet]; now destruct (get k ps')).
  rewrite Hat.
  apply MergeCoverage.mergeSteps_at_key with (srcValue := srcValue).
  - now apply uniqueKeys_NoDup.
  - now apply get_In.
  - exact HP.
Qed.

(** X18. What the overrides of a handler give under a name as a string,
    number, boolean or [null] is what the returned operation holds under
    that name, whatever was generated there. *)
Theorem primitive_override_is_the_value_of_the_operation
    (st : store) (overrides : option props)
    (before after : list (string * MethodHandler.t))
    (m route : string) (h : MethodHandler.t) (ps : props)
    (k : string) (v : json) :
  route <> "__proto__" ->
  isValidMethod m = true ->
  (forall entry, In entry after -> isValidMethod (fst entry) = true ->
                 toLowerCase (fst entry) <> toLowerCase m) ->
  MethodHandler.openApiSpecOverrides h = Some ps ->
  uniqueKeys ps = true ->
  get k ps = Some v ->
  isPrimitive v = true ->
  at_path [route; toLowerCase m; k]
    (snd (getPathsFromMethodHandlers st
            (DefineEndpointsParams.mk overrides (before ++ (m, h) :: after))
            route))
  = v.
Proof.
  intros Hroute Hm Hafter Hov Huniq Hget Hprim.
  destruct (generatedOperationObject_is_object h route) as [operation Hop].
  apply (operation_under_overridden_key (fun x => x = v) st overrides before after
           m route h ps operation k v); try assumption.
  intros st' ps0 _.
  destruct v; try discriminate; unfold mergeKey;
    destruct (String.eqb k "__proto__"); cbn [snd baseAssignValue safeGet];
    now rewrite get_set_same.
Qed.

Lemma operation_tags (h : MethodHandler.t) (route : string) :
  exists operation,
    generatedOperationObject h route = JObj operation
    /\ get "tags" operation
       = Some (match MethodHandler.tags h with
               | Some ts => JArr (map JStr ts)
               | None => JUndef
               end).
Proof.
  unfold generatedOperationObject.
  destruct (scanParameters None route);
    destruct (MethodHandler.input h) as [[ct body [q |]] |];
    eexists; split; reflexivity.
Qed.

(** X19. Tags given by the overrides of a handler do not replace the tags
    of the handler: they overwrite them position by position, and the
    tags of the handler beyond the last overridden position stay.  The
    operation holds the handler's own array, which [merge] writes in
    place; no other handler of the bundle is to have overrides that give
    [tags] an object or an array, so that this is the one write into an
    array of tags in the call, whichever handlers hold the same array. *)
Theorem override_tags_overwrite_by_position
    (st : store) (overrides : option props)
    (before after : list (string * MethodHandler.t))
    (m route : string) (h : MethodHandler.t) (ps : props)
    (us : list string) :
  route <> "__proto__" ->
  isValidMethod m = true ->
  (forall entry, In entry after -> isValidMethod (fst entry) = true ->
                 toLowerCase (fst entry) <> toLowerCase m) ->
  (forall m' h', In (m', h') (before ++ after) -> isValidMethod m' = true ->
                 leavesTags h' = true) ->
  MethodHandler.openApiSpecOverrides h = Some ps ->
  uniqueKeys ps = true ->
  get "tags" ps = Some (JArr (map JStr us)) ->
  at_path [route; toLowerCase m; "tags"]
    (snd (getPathsFromMethodHandlers st
            (DefineEndpointsParams.mk overrides (before ++ (m, h) :: after))
            route))
  = JArr (map JStr
            (us ++ skipn (List.length us)
                     (match MethodHandler.tags h with
                      | Some ts => ts
                      | None => []
                      end))).
Proof.
  intros Hroute Hm Hafter _ Hov Huniq Hget.
  destruct (operation_tags h route) as [operation [Hop Htags]].
  apply (operation_under_overridden_key
           (fun x => x = JArr (map JStr (us ++ skipn (List.length us)
                                               (match MethodHandler.tags h with
                                                | Some ts => ts
                                                | None => []
                                                end))))
           st overrides before after m route h ps operation "tags"
           (JArr (map JStr us))); try assumption.
  intros st' ps0 Hsame. rewrite Htags in Hsame.
  unfold mergeKey. rewrite (eq_refl : String.eqb "tags" "__proto__" = false).
  cbn [safeGet]. rewrite Hsame.
  destruct (MethodHandler.tags h) as [ts |].
  - rewrite MergeCoverage.baseMerge_strings. cbn [snd baseAssignValue safeGet].
    rewrite get_set_same, map_app, skipn_map. reflexivity.
  - cbn [arrayLikeLength]. rewrite MergeCoverage.baseMerge_strings.
    cbn [snd baseAssignValue safeGet].
    rewrite get_set_same, map_app, !skipn_nil. reflexivity.
Qed.

(** *** The shared default response *)

Lemma plain_strings (ts : list string) : forallb plain (map JStr ts) = true.
Proof. induction ts as [| t ts IH]; [reflexivity | exact IH]. Qed.

Lemma plain_generatedResponses (entries : list MethodHandler.OutputEntry)
    (acc : props) :
  forallb (fun e => plain (getJsonSchema (MethodHandler.schema e))) entries = true ->
  forallb (fun kv => plain (snd kv)) acc = true ->
  forallb (fun kv => plain (snd kv)) (fold_left addResponse entries acc) = true.
Proof.
  revert acc. induction entries as [| e entries IH]; intros acc Hs Hacc;
    [assumption |].
  simpl in Hs. apply andb_prop in Hs. destruct Hs as [He Hs].
  cbn [fold_left]. apply IH; [assumption |].
  rewrite addResponse_set. apply MergeFrame.forallb_set; [| assumption].
  cbn [snd responseOf plain forallb]. now rewrite He.
Qed.

(** The generated operation holds data by value, but for the reference
    to the module-level object under [responses.default]. *)
Lemma generatedOperationObject_shape (h : MethodHandler.t) (route : string) :
  handlerIsData h = true ->
  exists ops,
    generatedOperationObject h route = JObj ops
    /\ plainBut "responses" (plainBut "default" (fun _ => true)) (JObj ops) = true.
Proof.
  unfold handlerIsData. intros Hdata.
  apply andb_prop in Hdata. destruct Hdata as [Hdata _].
  apply andb_prop in Hdata. destruct Hdata as [Hbody Hout].
  assert (Hresponses :
            plainBut "default" (fun _ => true)
              (JObj (set "default" (JRef DefaultResponse)
                       (assignProps []
                          (match generatedResponses (MethodHandler.output h) with
                           | Some ps => ps
                           | None => []
                           end)))) = true).
  { apply MergeFrame.plainBut_set; [reflexivity |].
    apply MergeFrame.plainBut_plain; [reflexivity |]. cbn [plain].
    apply MergeFrame.forallb_assignProps; [reflexivity |].
    unfold generatedResponses.
    destruct (MethodHandler.output h) as [entries |]; [| reflexivity].
    cbn [option_map]. now apply plain_generatedResponses. }
  assert (Hparams : forall params, forallb plain (map pathParameter params) = true)
    by (induction params as [| p params IH]; [reflexivity | exact IH]).
  assert (Hquery : forall ks, forallb plain (map queryParameter ks) = true)
    by (induction ks as [| k ks IH]; [reflexivity | exact IH]).
  unfold generatedOperationObject.
  set (responses := set "default" (JRef DefaultResponse) _) in *.
  set (base := [("tags", _); ("requestBody", _); ("responses", JObj responses)]).
  assert (Hbase : plainBut "responses" (plainBut "default" (fun _ => true))
                    (JObj base) = true).
  { subst base. cbn [plainBut forallb fst snd String.eqb Ascii.eqb Bool.eqb plain].
    cbn [plainBut] in Hresponses. rewrite Hresponses, Hbody.
    destruct (MethodHandler.tags h) as [ts |]; [| reflexivity].
    cbn [plain]. now rewrite plain_strings. }
  assert (Hpath : plainBut "responses" (plainBut "default" (fun _ => true))
                    (JObj match scanParameters None route with
                          | [] => base
                          | _ :: _ =>
                              set "parameters"
                                (JArr (map pathParameter (scanParameters None route)))
                                base
                          end) = true).
  { destruct (scanParameters None route) as [| p params] eqn:Hscan; [assumption |].
    apply MergeFrame.plainBut_set; [| assumption]. cbn [String.eqb Ascii.eqb Bool.eqb].
    cbn [plain]. apply Hparams. }
  destruct (MethodHandler.input h) as [[ct body [q |]] |];
    cbn [MethodHandler.query]; try (eexists; split; [reflexivity | exact Hpath]).
  eexists. split; [reflexivity |].
  apply MergeFrame.plainBut_set; [| assumption].
  cbn [String.eqb Ascii.eqb Bool.eqb plain]. rewrite forallb_app, Hquery, andb_true_r.
  destruct (get "parameters" _) as [[| | b | n | s | es | ps | l] |] eqn:Hget;
    try reflexivity.
  pose proof (MergeFrame.plainBut_get _ _ "parameters" _ Hpath) as Hp.
  cbn [safeGet] in Hp. rewrite Hget in Hp. apply Hp. discriminate.
Qed.

Lemma addMethod_pure (route : string) (item : props)
    (m : string) (h : MethodHandler.t) :
  handlerIsData h = true -> leavesDefaultResponse h = true ->
  exists item', forall st, addMethod route (st, item) (m, h) = (st, item').
Proof.
  intros Hdata Hleaves. unfold addMethod. cbn [fst snd].
  destruct (generatedOperationObject_shape h route Hdata) as [ops [-> Hops]].
  unfold leavesDefaultResponse in Hleaves. unfold handlerIsData in Hdata.
  apply andb_prop in Hdata. destruct Hdata as [_ Hplain].
  destruct (MethodHandler.openApiSpecOverrides h) as [ps |].
  - destruct (MergeFrame.operation_merge ps Hplain Hleaves ops Hops)
      as [ops' [_ Hsame]].
    exists (set (toLowerCase m) (JObj ops') (assignProps [] item)).
    intros st. cbn [ofOption merge]. now rewrite baseMerge_object, Hsame.
  - exists (set (toLowerCase m) (JObj ops) (assignProps [] item)). reflexivity.
Qed.

Lemma fold_addMethod_pure (route : string)
    (entries : list (string * MethodHandler.t)) :
  (forall m h, In (m, h) entries ->
     handlerIsData h = true /\ leavesDefaultResponse h = true) ->
  forall item,
    exists item',
      forall st, fold_left (addMethod route) entries (st, item) = (st, item').
Proof.
  induction entries as [| [m h] entries IH]; intros Hentries item;
    [now exists item |].
  destruct (Hentries m h (or_introl eq_refl)) as [Hdata Hleaves].
  destruct (addMethod_pure route item m h Hdata Hleaves) as [item1 Hstep].
  destruct (IH (fun m' h' Hin => Hentries m' h' (or_intror Hin)) item1)
    as [item' Hrest].
  exists item'. intros st. cbn [fold_left]. now rewrite Hstep.
Qed.

(** X20. When no handler of the bundle with a valid method name has
    overrides that give [responses.default] an object or an array, the
    schemas and the overrides being data held by value, the call writes
    neither the module-level default response nor the configured paths
    object, and the value it returns is the same whatever these hold:
    under [responses.default] that value has the module-level object
    itself, so that what is read there is what that object holds at the
    time of the reading, which an earlier call may have changed.
    Handlers whose overrides give [tags] an object or an array are left
    out: [merge] writes into the array of tags of such a handler, which
    is held here by its content. *)
Theorem call_without_such_overrides_writes_no_shared_object
    (overrides : option props)
    (handlers : list (string * MethodHandler.t)) (route : string) :
  (forall m h, In (m, h) handlers -> isValidMethod m = true ->
     handlerIsData h = true /\ leavesDefaultResponse h = true
     /\ leavesTags h = true) ->
  exists paths,
    forall st,
      getPathsFromMethodHandlers st
        (DefineEndpointsParams.mk overrides handlers) route
      = (st, paths).
Proof.
  intros Hall. unfold getPathsFromMethodHandlers.
  cbn [DefineEndpointsParams.handlers DefineEndpointsParams.openApiSpecOverrides].
  destruct (fold_addMethod_pure route
              (filter (fun entry => isValidMethod (fst entry)) handlers))
    with (item := assignProps [] (ownProps (ofOption overrides)))
    as [pathItem Hfold].
  - intros m h Hin. apply filter_In in Hin. destruct Hin as [Hin Hvalid].
    destruct (Hall m h Hin Hvalid) as [Hdata [Hleaves _]]. now split.
  - exists (if String.eqb route "__proto__" then JObj []
            else JObj [(route, JObj pathItem)]).
    intros st. now rewrite Hfold.
Qed.

Lemma get_resolved (st : store) (k : string) (ps : props) :
  get k (map (fun kv => (fst kv, resolve st (snd kv))) ps)
  = option_map (resolve st) (get k ps).
Proof.
  induction ps as [| [k' v] ps IH]; [reflexivity |].
  simpl. destruct (String.eqb k k'); [reflexivity | exact IH].
Qed.

(** Reading a path that leads to a value gives, in what the value
    denotes, what the value read denotes. *)
Lemma at_path_resolve (st : store) (ks : list string) (v : json) :
  at_path ks v <> JUndef ->
  at_path ks (resolve st v) = resolve st (at_path ks v).
Proof.
  revert v. induction ks as [| k ks IH]; intros v Hv; [reflexivity |].
  destruct v as [| | b | n | s | es | ps | l]; try (now elim Hv).
  cbn [at_path resolve] in *. rewrite get_resolved.
  destruct (get k ps) as [x |]; [| now elim Hv].
  cbn [option_map]. now apply IH.
Qed.

(** X21. In a process whose default response is as the module built it,
    a bundle none of whose handlers gives [responses.default] an object
    or an array: the operation of a handler whose overrides have no
    [responses] holds the fixed default response. *)
Theorem default_response_left_alone_is_the_fixed_one
    (st : store) (overrides : option props)
    (before after : list (string * MethodHandler.t))
    (m route : string) (h : MethodHandler.t) :
  route <> "__proto__" ->
  isValidMethod m = true ->
  (forall entry, In entry after -> isValidMethod (fst entry) = true ->
                 toLowerCase (fst entry) <> toLowerCase m) ->
  st DefaultResponse = defaultResponse ->
  (forall m' h', In (m', h') (before ++ (m, h) :: after) ->
     isValidMethod m' = true ->
     handlerIsData h' = true /\ leavesDefaultResponse h' = true) ->
  has "responses" (ownProps (ofOption (MethodHandler.openApiSpecOverrides h))) = false ->
  let r := getPathsFromMethodHandlers st
             (DefineEndpointsParams.mk overrides (before ++ (m, h) :: after))
             route in
  at_path [route; toLowerCase m; "responses"; "default"] (resolve (fst r) (snd r))
  = defaultResponse.
Proof.
  intros Hroute Hm Hafter Hfresh Hall Hnone r. subst r.
  assert (Hdefault :
            at_path [route; toLowerCase m; "responses"; "default"]
              (snd (getPathsFromMethodHandlers st
                      (DefineEndpointsParams.mk overrides (before ++ (m, h) :: after))
                      route))
            = JRef DefaultResponse).
  { unfold getPathsFromMethodHandlers. cbn [DefineEndpointsParams.handlers].
    destruct (pathItem_of_merged_method st
                (assignProps [] (ownProps (ofOption
                   (DefineEndpointsParams.openApiSpecOverrides
                      (DefineEndpointsParams.mk overrides (before ++ (m, h) :: after))))))
                before after m h route Hm Hafter) as [st' Hitem].
    destruct (fold_left (addMethod route) _ _) as [st1 pathItem].
    cbn [snd] in *.
    apply String.eqb_neq in Hroute. rewrite Hroute.
    rewrite (at_path_member route _ [(route, JObj pathItem)] (JObj pathItem))
      by (cbn [get]; now rewrite String.eqb_refl).
    rewrite (at_path_member _ _ _ _ Hitem).
    pose proof (generatedOperationObject_responses h route) as Hresponses.
    destruct (generatedOperationObject_is_object h route) as [ops Hop].
    rewrite Hop in *. cbn [at_path] in Hresponses.
    destruct (get "responses" ops) as [responses |] eqn:Hget; [| discriminate].
    assert (Hkept : exists ops',
               snd (merge st' (JObj ops)
                      (ofOption (MethodHandler.openApiSpecOverrides h))) = JObj ops'
               /\ get "responses" ops' = Some responses).
    { destruct (MethodHandler.openApiSpecOverrides h) as [ps |];
        [| exists ops; now split].
      cbn [ofOption merge ownProps] in *. rewrite baseMerge_object.
      destruct (MergeCoverage.mergeSteps_frame ps st' ops "responses")
        as [st2 [ops' [-> Hsame]]].
      - apply get_None_not_In. unfold has in Hnone.
        now destruct (get "responses" ps).
      - exists ops'. split; [reflexivity | congruence]. }
    destruct Hkept as [ops' [-> Hget']].
    rewrite (at_path_member _ _ _ _ Hget'), Hresponses.
    cbn [at_path]. now rewrite get_set_same. }
  rewrite at_path_resolve by (rewrite Hdefault; discriminate).
  rewrite Hdefault. cbn [resolve].
  rewrite <- Hfresh. f_equal.
  unfold getPathsFromMethodHandlers.
  cbn [DefineEndpointsParams.handlers DefineEndpointsParams.openApiSpecOverrides].
  destruct (fold_addMethod_pure route
              (filter (fun entry => isValidMethod (fst entry))
                 (before ++ (m, h) :: after)))
    with (item := assignProps [] (ownProps (ofOption overrides)))
    as [pathItem Hfold].
  - intros m' h' Hin. apply filter_In in Hin. destruct Hin as [Hin Hvalid].
    now apply (Hall m' h').
  - now rewrite Hfold.
Qed.

(** X22. What the overrides of the bundle itself hold under a name stays
    in the path item, unless a handler with a valid method name takes
    that name in lower case. *)
Theorem path_item_keeps_bundle_overrides
    (st : store) (ps : props)
    (handlers : list (string * MethodHandler.t)) (route k : string) :
  route <> "__proto__" ->
  uniqueKeys ps = true ->
  (forall m h, In (m, h) handlers -> isValidMethod m = true ->
               toLowerCase m <> k) ->
  at_path [route; k]
    (snd (getPathsFromMethodHandlers st
            (DefineEndpointsParams.mk (Some ps) handlers) route))
  = member (JObj ps) k.
Proof.
  intros Hroute Huniq Hother. unfold getPathsFromMethodHandlers.
  cbn [DefineEndpointsParams.handlers DefineEndpointsParams.openApiSpecOverrides
       ofOption ownProps].
  apply uniqueKeys_NoDup in Huniq. rewrite assignProps_fresh by assumption.
  pose proof (fold_addMethod_get route k
                (filter (fun entry => isValidMethod (fst entry)) handlers)
                (st, ps) Huniq) as Hfold.
  destruct (fold_left (addMethod route) _ _) as [st1 pathItem].
  cbn [snd] in *. apply String.eqb_neq in Hroute. rewrite Hroute.
  cbn [at_path get member]. rewrite String.eqb_refl, Hfold; [reflexivity |].
  intros [m h] Hin. apply filter_In in Hin. destruct Hin as [Hin Hvalid].
  now apply (Hother m h).
Qed.

End WithDeps.

#[local] Existing Instance Sample.deps.
Import Sample Examples.

Lemma path_item_has_overrides_and_methods_witness :
  has "get" (ownProps
               (member (snd (getPathsFromMethodHandlers store0
                               (DefineEndpointsParams.mk None
                                  [("GET", listTodos); ("get", bare)])
                               "/api/todos"))
                  "/api/todos")) = true
  <-> has "get" (ownProps (ofOption None)) = true
      \/ exists m h, In (m, h) [("GET", listTodos); ("get", bare)]
                     /\ isValidMethod m = true /\ toLowerCase m = "get".
Proof.
  apply (path_item_has_overrides_and_methods store0 None
           [("GET", listTodos); ("get", bare)] "/api/todos" "get").
  discriminate.
Defined.

Lemma braces_name_a_required_path_parameter_witness :
  member (generatedOperationObject listTodos ("/api/todos/" ++ "{" ++ "id" ++ "}" ++ ""))
    "parameters"
  = JArr [JObj [("name", JStr "id"); ("in", JStr "path"); ("required", JBool true)];
          JObj [("name", JStr "page"); ("in", JStr "query")];
          JObj [("name", JStr "size"); ("in", JStr "query")]].
Proof.
  apply (braces_name_a_required_path_parameter listTodos "/api/todos/" "id" "");
    [reflexivity | reflexivity | discriminate].
Defined.

Lemma no_brace_no_path_parameter_witness :
  member (generatedOperationObject bare "/api/todos") "parameters" = JUndef.
Proof. apply (no_brace_no_path_parameter bare "/api/todos"). reflexivity. Defined.

Lemma primitive_override_is_the_value_of_the_operation_witness :
  at_path ["/api/todos"; "get"; "summary"]
    (snd (getPathsFromMethodHandlers store0
            (DefineEndpointsParams.mk None ([] ++ ("GET", listTodos) :: []))
            "/api/todos"))
  = JStr "List the todos".
Proof.
  apply (primitive_override_is_the_value_of_the_operation store0 None [] []
           "GET" "/api/todos" listTodos
           [("summary", JStr "List the todos");
            ("tags", JArr [JStr "internal"]);
            ("responses",
             JObj [("404", JObj [("description", JStr "Not found")])])]
           "summary" (JStr "List the todos"));
    try reflexivity; [discriminate | intros entry []].
Defined.

Lemma override_tags_overwrite_by_position_witness :
  at_path ["/api/todos"; "get"; "tags"]
    (snd (getPathsFromMethodHandlers store0
            (DefineEndpointsParams.mk None
               ([] ++ ("GET", listTodos) :: [("POST", createTodo)]))
            "/api/todos"))
  = JArr (map JStr (["internal"] ++ skipn 1 ["todos"; "public"])).
Proof.
  apply (override_tags_overwrite_by_position store0 None [] [("POST", createTodo)]
           "GET" "/api/todos" listTodos
           [("summary", JStr "List the todos");
            ("tags", JArr [JStr "internal"]);
            ("responses",
             JObj [("404", JObj [("description", JStr "Not found")])])]
           ["internal"]);
    try reflexivity.
  - discriminate.
  - intros entry [<- | []] _. discriminate.
  - intros m h [Heq | []] _. injection Heq as <- <-. reflexivity.
Defined.

Lemma call_without_such_overrides_writes_no_shared_object_witness :
  exists paths,
    forall st,
      getPathsFromMethodHandlers st
        (DefineEndpointsParams.mk None [("GET", bare); ("POST", createTodo)])
        "/api/todos"
      = (st, paths).
Proof.
  apply (call_without_such_overrides_writes_no_shared_object None
           [("GET", bare); ("POST", createTodo)] "/api/todos").
  intros m h [Heq | [Heq | []]] _; injection Heq as <- <-; repeat split; reflexivity.
Defined.

Lemma default_response_left_alone_is_the_fixed_one_witness :
  let r := getPathsFromMethodHandlers store0
             (DefineEndpointsParams.mk None ([("GET", listTodos)] ++ ("POST", bare) :: []))
             "/api/todos" in
  at_path ["/api/todos"; "post"; "responses"; "default"] (resolve (fst r) (snd r))
  = @defaultResponse deps.
Proof.
  apply (default_response_left_alone_is_the_fixed_one store0 None
           [("GET", listTodos)] [] "POST" "/api/todos" bare);
    try reflexivity; [discriminate | intros entry [] |].
  intros m h [Heq | [Heq | []]] _; injection Heq as <- <-; split; reflexivity.
Defined.

Lemma path_item_keeps_bundle_overrides_witness :
  at_path ["/api/todos"; "summary"]
    (snd (getPathsFromMethodHandlers store0
            (DefineEndpointsParams.mk (Some [("summary", JStr "Todos")])
               [("GET", bare)]) "/api/todos"))
  = member (JObj [("summary", JStr "Todos")]) "summary".
Proof.
  apply (path_item_keeps_bundle_overrides store0 [("summary", JStr "Todos")]
           [("GET", bare)] "/api/todos" "summary");
    [discriminate | reflexivity |].
  intros m h [Heq | []] _. injection Heq as <- <-. discriminate.
Defined.

End SynthesisCoverage.

(** ** Properties of the documentation page *)

Module PageProperties.
Import JsString Routes Aggregation SwaggerUi Notions StringFacts.











End PageProperties.
